(** * Hierarchical routing engine of the street-network AV simulator

    A shallow embedding of [2pathmap.py]: the physical-path cache and the
    abstract-graph rebuild of [MapEngine], the mission state machine of
    [AV], the landmark selection of [AbstractGraph], the background traffic,
    the fitting of the map into its panel, and the camera, sliders and
    dashboard of the user interface.  networkx and the trigonometry of the
    kinematics are external to the program; they enter as section variables.
    Python ints are [Z]; floats (street lengths, coordinates, clock readings,
    timers) are read as exact rationals. *)

From Stdlib Require Import ZArith QArith Qround Lia Lqa String.
From stdpp Require Import gmap strings list fin_maps pretty.

Local Open Scope Z_scope.

(** ** Data model *)

(** OSM node identifiers are Python ints. *)
Definition node := Z.
Abbreviation path := (list node).
Definition edge_key := (node * node)%type.
Definition coord := (Q * Q)%type.
Definition color := (Z * Z * Z)%type.

(** [tuple(sorted((u, v)))] *)
Definition sorted_pair (u v : node) : edge_key :=
  if v <? u then (v, u) else (u, v).

(** One edge of [G_proj] with the two attributes the engine reads or writes:
    [length] (from OSM) and [curr_cost] (written by the mission planner). *)
Record road_edge := mk_road_edge {
  e_u : node;
  e_v : node;
  e_k : Z;
  e_length : Q;
  e_curr_cost : option Q
}.

Definition RoadGraph := list road_edge.

Inductive weight_attr := W_length | W_curr_cost.

(** [nx.Graph]: a dict of dicts.  Python dicts iterate in insertion order and
    an overwritten key keeps its place, so both levels are association lists. *)
Definition adjacency := list (node * Z).
Definition Graph := list (node * adjacency).

Fixpoint alist_get {V} (k : node) (l : list (node * V)) : option V :=
  match l with
  | [] => None
  | (k', x) :: r => if k =? k' then Some x else alist_get k r
  end.

Fixpoint alist_set {V} (k : node) (x : V) (l : list (node * V)) : list (node * V) :=
  match l with
  | [] => [(k, x)]
  | (k', x') :: r => if k =? k' then (k, x) :: r else (k', x') :: alist_set k x r
  end.

Definition graph_has_node (G : Graph) (n : node) : bool :=
  match alist_get n G with Some _ => true | None => false end.

Definition add_node (n : node) (G : Graph) : Graph :=
  if graph_has_node G n then G else G ++ [(n, [])].

Definition set_adj (a b : node) (w : Z) (G : Graph) : Graph :=
  match alist_get a G with
  | Some nb => alist_set a (alist_set b w nb) G
  | None => G
  end.

(** [G.add_edge(u, v, weight=w)] *)
Definition add_edge (u v : node) (w : Z) (G : Graph) : Graph :=
  set_adj v u w (set_adj u v w (add_node v (add_node u G))).

(** [nx.Graph()] *)
Definition empty_graph : Graph := [].

(** [G[a][b]['weight']] *)
Definition edge_weight (G : Graph) (a b : node) : option Z :=
  match alist_get a G with
  | Some nb => alist_get b nb
  | None => None
  end.

(** The [AbstractGraph] object reached as [map.layout.graph_sys]; only the two
    attributes the engine reads after construction. *)
Record AbstractGraph := mk_AbstractGraph {
  connections : list (node * node);
  node_mapping : gmap node string
}.

Record MapEngine := mk_MapEngine {
  G_proj : RoadGraph;
  nodes : gmap node coord;
  graph_sys : AbstractGraph;
  edge_density : gmap edge_key Z;
  blocked_edges : list (node * node * Z);
  phys_path_cache : gmap edge_key path;
  G_abs_cached : option Graph;
  last_edge_density_snapshot : gmap edge_key Z
}.

Definition with_cache (c : gmap edge_key path) (m : MapEngine) : MapEngine :=
  mk_MapEngine (G_proj m) (nodes m) (graph_sys m) (edge_density m)
    (blocked_edges m) c (G_abs_cached m) (last_edge_density_snapshot m).

Definition with_density (d : gmap edge_key Z) (m : MapEngine) : MapEngine :=
  mk_MapEngine (G_proj m) (nodes m) (graph_sys m) d
    (blocked_edges m) (phys_path_cache m) (G_abs_cached m)
    (last_edge_density_snapshot m).

(** ** Edge cost *)

(** The inner loop of [build_abstract_graph]:
    [for k in range(len(p)-1): traffic += edge_density.get(sorted(p[k],p[k+1]), 0)] *)
Definition path_traffic (dens : gmap edge_key Z) (p : path) : Z :=
  fold_left (fun t ab => t + default 0 (dens !! sorted_pair (fst ab) (snd ab)))
            (zip p (tail p)) 0.

(** [len(phys_path) * (1 + traffic ** 3)] *)
Definition congestion_cost (n : nat) (d : Z) : Z := Z.of_nat n * (1 + d ^ 3).

Definition edge_cost (dens : gmap edge_key Z) (p : path) : Z :=
  congestion_cost (length p) (path_traffic dens p).

(** The quantity the specification names, written after its words and not
    after the loop: the summed edge density along a path is the sum, over
    the streets between consecutive nodes of the path, of the count the
    density map holds for the street (none counts as 0). *)
Fixpoint summed_density (dens : gmap edge_key Z) (p : path) : Z :=
  match p with
  | a :: r =>
      match r with
      | b :: _ => default 0 (dens !! sorted_pair a b) + summed_density dens r
      | [] => 0
      end
  | [] => 0
  end.

Section Engine.

(** [nx.shortest_path(G_proj, u, v, weight=...)]; [None] when it raises. *)
Variable nx_shortest_path : RoadGraph -> weight_attr -> node -> node -> option path.

(** *** PathCache *)

Definition get_phys_path (m : MapEngine) (u v : node) : option path * MapEngine :=
  let key := sorted_pair u v in
  match phys_path_cache m !! key with
  | Some p => (Some p, m)
  | None =>
      match nx_shortest_path (G_proj m) W_length u v with
      | Some p => (Some p, with_cache (<[key := p]> (phys_path_cache m)) m)
      | None => (None, m)
      end
  end.

Definition invalidate_phys_cache (m : MapEngine) : MapEngine :=
  mk_MapEngine (G_proj m) (nodes m) (graph_sys m) (edge_density m)
    (blocked_edges m) ∅ None (last_edge_density_snapshot m).

(** *** AbstractGraph rebuild *)

(** One iteration of [for u, v in graph_sys.connections].  An empty list is
    falsy in Python, so it is skipped like [None]. *)
Definition build_step (acc : Graph * MapEngine) (c : node * node) : Graph * MapEngine :=
  let (u, v) := c in
  match get_phys_path (snd acc) u v with
  | (Some (x :: r), m') =>
      (add_edge u v (edge_cost (edge_density m') (x :: r)) (fst acc), m')
  | (_, m') => (fst acc, m')
  end.

Definition rebuild (gs : AbstractGraph) (m : MapEngine) : Graph * MapEngine :=
  let (G, m') := fold_left build_step (connections gs) (empty_graph, m) in
  (G, mk_MapEngine (G_proj m') (nodes m') (graph_sys m') (edge_density m')
        (blocked_edges m') (phys_path_cache m') (Some G) (edge_density m')).

Definition build_abstract_graph (gs : AbstractGraph) (force : bool) (m : MapEngine)
  : Graph * MapEngine :=
  if negb force && bool_decide (last_edge_density_snapshot m = edge_density m) then
    match G_abs_cached m with
    | Some G => (G, m)
    | None => rebuild gs m
    end
  else rebuild gs m.

(** *** Blocking an edge *)

(** [list.remove(x)]: drops the first occurrence. *)
Fixpoint remove_first (e : node * node * Z) (l : list (node * node * Z)) :=
  match l with
  | [] => []
  | x :: r => if bool_decide (x = e) then r else x :: remove_first e r
  end.

(** [block_at], from [if best_e:] on.  The search for the edge nearest to the
    mouse is floating-point geometry over [cached_edges]; its outcome
    [best_e] is the argument. *)
Definition block_at (best_e : option (node * node * Z)) (m : MapEngine) : MapEngine :=
  match best_e with
  | None => m
  | Some e =>
      let bl := if bool_decide (e ∈ blocked_edges m)
                then remove_first e (blocked_edges m)
                else blocked_edges m ++ [e] in
      invalidate_phys_cache
        (mk_MapEngine (G_proj m) (nodes m) (graph_sys m) (edge_density m) bl
           (phys_path_cache m) (G_abs_cached m) (last_edge_density_snapshot m))
  end.

(** ** The vehicle *)

Record AV := mk_AV {
  pos : coord;
  active : bool;
  current_node : option node;
  next_node_target : option node;
  final_dest : option node;
  projected_path : list node;
  path_coords : list coord;
  coord_idx : nat;
  angle : Q;
  state : string;
  wait_timer : Q;
  alert : string;
  recalc_interval : Q;
  last_recalc_t : Q;
  events : list (string * color)
}.

(** [AV.__init__] *)
Definition new_AV (now : Q) : AV :=
  mk_AV (0%Q, 0%Q) false None None None [] [] 0%nat 0%Q "IDLE" 0%Q "Idle"
        (1 # 2)%Q now [].

(** [self.alert = a; self.active = False], the exit shared by every failure. *)
Definition alert_exit (a : string) (av : AV) : AV :=
  mk_AV (pos av) false (current_node av) (next_node_target av) (final_dest av)
    (projected_path av) (path_coords av) (coord_idx av) (angle av) (state av)
    (wait_timer av) a (recalc_interval av) (last_recalc_t av) (events av).

Definition arrival_event : string * color := ("DESTINATION REACHED!", (50, 255, 50)).

(** [self.state = "FINISHED"; self.alert = "Arrived"; self.active = False;
     self.events.append(("DESTINATION REACHED!", (50, 255, 50)))] *)
Definition finish (av : AV) : AV :=
  mk_AV (pos av) false (current_node av) (next_node_target av) (final_dest av)
    (projected_path av) (path_coords av) (coord_idx av) (angle av) "FINISHED"
    (wait_timer av) "Arrived" (recalc_interval av) (last_recalc_t av)
    (events av ++ [arrival_event]).

Definition with_current (c : option node) (av : AV) : AV :=
  mk_AV (pos av) (active av) c (next_node_target av) (final_dest av)
    (projected_path av) (path_coords av) (coord_idx av) (angle av) (state av)
    (wait_timer av) (alert av) (recalc_interval av) (last_recalc_t av) (events av).

(** The outcome of the route selection: next hop, projected route, alert. *)
Definition with_route (nxt : node) (proj : list node) (a : string) (av : AV) : AV :=
  mk_AV (pos av) (active av) (current_node av) (Some nxt) (final_dest av)
    proj (path_coords av) (coord_idx av) (angle av) (state av)
    (wait_timer av) a (recalc_interval av) (last_recalc_t av) (events av).

(** A new physical leg: coordinates, cursor reset, alert and state label. *)
Definition with_leg (pc : list coord) (a : string) (st : string) (av : AV) : AV :=
  mk_AV (pos av) (active av) (current_node av) (next_node_target av) (final_dest av)
    (projected_path av) pc 0%nat (angle av) st
    (wait_timer av) a (recalc_interval av) (last_recalc_t av) (events av).

Definition with_last_recalc (t : Q) (av : AV) : AV :=
  mk_AV (pos av) (active av) (current_node av) (next_node_target av) (final_dest av)
    (projected_path av) (path_coords av) (coord_idx av) (angle av) (state av)
    (wait_timer av) (alert av) (recalc_interval av) t (events av).

Definition with_wait (t : Q) (a : string) (av : AV) : AV :=
  mk_AV (pos av) (active av) (current_node av) (next_node_target av) (final_dest av)
    (projected_path av) (path_coords av) (coord_idx av) (angle av) (state av)
    t a (recalc_interval av) (last_recalc_t av) (events av).

Definition with_motion (p : coord) (i : nat) (an : Q) (av : AV) : AV :=
  mk_AV p (active av) (current_node av) (next_node_target av) (final_dest av)
    (projected_path av) (path_coords av) i an (state av)
    (wait_timer av) (alert av) (recalc_interval av) (last_recalc_t av) (events av).

(** [node_mapping.get(n, '?')] *)
Definition label_of (gs : AbstractGraph) (n : option node) : string :=
  match n with
  | Some x => default "?" (node_mapping gs !! x)
  | None => "?"
  end.

(** [n in G_abs.nodes], where [n] may still be Python's [None]. *)
Definition in_graph (G : Graph) (n : option node) : bool :=
  match n with
  | Some x => graph_has_node G x
  | None => false
  end.

(** A lookahead total: an int, or [float('inf')] when the remaining distance
    query raised. *)
Inductive cost := Fin (z : Z) | Inf.

Definition cost_plus (w : Z) (r : cost) : cost :=
  match r with
  | Fin z => Fin (w + z)
  | Inf => Inf
  end.

Definition cost_ltb (a b : cost) : bool :=
  match a, b with
  | Fin x, Fin y => x <? y
  | Fin _, Inf => true
  | Inf, _ => false
  end.

(** [[self.map.nodes[n] for n in phys_nodes]]; [None] is the [KeyError]. *)
Definition coords_of (m : MapEngine) (p : path) : option (list coord) :=
  mapM (fun n => nodes m !! n) p.

(** [int(x)] on a float: truncation towards zero. *)
Definition Qtrunc (x : Q) : Z := Z.quot (Qnum x) (Zpos (Qden x)).

(** Float [a % b] for positive [b]: the result has the sign of [b]. *)
Definition Qmod (a b : Q) : Q := (a - b * inject_Z (Qfloor (a / b)))%Q.

Definition Qltb (a b : Q) : bool := negb (Qle_bool b a).

(** [d['curr_cost'] = d.get('length', 1) * (1 + t**3)] on every edge of [G_proj]. *)
Definition annotate_edge (dens : gmap edge_key Z) (e : road_edge) : road_edge :=
  let t := default 0 (dens !! sorted_pair (e_u e) (e_v e)) in
  mk_road_edge (e_u e) (e_v e) (e_k e) (e_length e)
    (Some (e_length e * inject_Z (1 + t ^ 3))%Q).

Definition annotate_costs (m : MapEngine) : MapEngine :=
  mk_MapEngine (map (annotate_edge (edge_density m)) (G_proj m)) (nodes m)
    (graph_sys m) (edge_density m) (blocked_edges m) (phys_path_cache m)
    (G_abs_cached m) (last_edge_density_snapshot m).

(** [nx.shortest_path(G_abs, s, t, weight='weight')] and
    [nx.shortest_path_length(G_abs, s, t, weight='weight')]; [None] when they
    raise. *)
Variable abs_shortest_path : Graph -> node -> node -> option path.
Variable abs_shortest_path_length : Graph -> node -> node -> option Z.

(** [math.hypot] and [math.degrees(math.atan2(dy, dx))]. *)
Variable hypot : Q -> Q -> Q.
Variable atan2_deg : Q -> Q -> Q.

(** *** One-step greedy lookahead *)

(** The body of [for nbr in G_abs.neighbors(self.current_node)].  The loop
    walks the adjacency dict of the current node; [w] is the weight stored
    with [nbr], that is [G_abs[current][nbr]['weight']].  [best] is the pair
    [(best_total, best_neighbor)], [None] before the first neighbour. *)
Definition lookahead_step (G : Graph) (fin : node)
    (best : option (cost * node)) (nw : node * Z) : option (cost * node) :=
  let (nbr, w) := nw in
  let rem_cost := match abs_shortest_path_length G nbr fin with
                  | Some z => Fin z
                  | None => Inf
                  end in
  let total := cost_plus w rem_cost in
  match best with
  | None => Some (total, nbr)
  | Some (best_total, _) =>
      if cost_ltb total best_total then Some (total, nbr) else best
  end.

(** The whole loop.  It runs only when [cur] is a node of [G]. *)
Definition lookahead (G : Graph) (cur fin : node) : option (cost * node) :=
  fold_left (lookahead_step G fin) (default [] (alist_get cur G)) None.

Definition best_neighbor (G : Graph) (cur fin : node) : option node :=
  fmap (M:=option) snd (lookahead G cur fin).

(** The total the loop computes for one adjacency entry. *)
Definition lookahead_total (G : Graph) (fin : node) (nw : node * Z) : cost :=
  cost_plus (snd nw)
    (match abs_shortest_path_length G (fst nw) fin with
     | Some z => Fin z
     | None => Inf
     end).

(** The switch decision that follows the loop.  [chosen] is [raw_proj[1]].
    Returns the committed next hop, the projected route and [switched]. *)
Definition choose_route (G : Graph) (m : MapEngine) (cur fin : node)
    (raw_proj : list node) (chosen : node) : MapEngine * (node * list node * bool) :=
  match best_neighbor G cur fin with
  | Some bn =>
      if bool_decide (bn <> chosen) then
        match get_phys_path m cur bn with
        | (Some (_ :: _), m') =>
            match abs_shortest_path G bn fin with
            | Some tl => (m', (bn, cur :: tl, true))
            | None => (m', (chosen, raw_proj, false))
            end
        | (_, m') => (m', (chosen, raw_proj, false))
        end
      else (m, (chosen, raw_proj, false))
  | None => (m, (chosen, raw_proj, false))
  end.

(** ["Route: " + " > ".join(labels[:6])], plus the local-reroute suffix. *)
Definition route_alert (gs : AbstractGraph) (proj : list node) (switched : bool) : string :=
  let labels := map (fun n => label_of gs (Some n)) proj in
  "Route: " +:+ String.concat " > " (take 6 labels)
    +:+ (if switched then " (rerouted locally)" else "").

(** The last [try] of [calculate_mission_and_go]: the physical first leg under
    congestion-annotated edge costs.  A failed query and a missing coordinate
    both land in the handler; the annotation of [G_proj] stays. *)
Definition physical_leg (m : MapEngine) (av : AV) : MapEngine * AV :=
  let m' := annotate_costs m in
  match current_node av, next_node_target av with
  | Some cur, Some nxt =>
      match nx_shortest_path (G_proj m') W_curr_cost cur nxt with
      | Some phys_nodes =>
          match coords_of m' phys_nodes with
          | Some pc =>
              (m', with_leg pc
                     ("Routing to " +:+ label_of (graph_sys m') (Some nxt)
                        +:+ " | " +:+ alert av) "MOVING" av)
          | None => (m', alert_exit "Road Blocked" av)
          end
      | None => (m', alert_exit "Road Blocked" av)
      end
  | _, _ => (m', alert_exit "Road Blocked" av)
  end.

(** [calculate_mission_and_go] once both endpoints are nodes of [G]: base
    path, lookahead, physical leg.  Nothing inside the lookahead's outer [try]
    can raise (the inner queries have their own handlers), so its
    "Routing Error" handler has no counterpart here.  The last branch, an
    endpoint still [None], is not reached from [calculate_mission_and_go]. *)
Definition plan_on (G : Graph) (m : MapEngine) (av : AV) : MapEngine * AV :=
  match current_node av, final_dest av with
  | Some cur, Some fin =>
      match abs_shortest_path G cur fin with
      | None => (m, alert_exit "No Route!" av)
      | Some raw_proj =>
          match raw_proj with
          | _ :: chosen :: _ =>
              match choose_route G m cur fin raw_proj chosen with
              | (m', (nxt, proj, switched)) =>
                  physical_leg m'
                    (with_route nxt proj (route_alert (graph_sys m) proj switched) av)
              end
          | _ => (m, finish av)
          end
      end
  | _, _ => (m, alert_exit "No Route!" av)
  end.

Definition absent (G : Graph) (av : AV) : bool :=
  negb (in_graph G (current_node av)) || negb (in_graph G (final_dest av)).

Definition calculate_mission_and_go (m : MapEngine) (av : AV) : MapEngine * AV :=
  let gs := graph_sys m in
  match build_abstract_graph gs false m with
  | (G0, m0) =>
      if absent G0 av then
        match build_abstract_graph gs true m0 with
        | (G1, m1) =>
            if absent G1 av then (m1, alert_exit "No Route!" av)
            else plan_on G1 m1 av
        end
      else plan_on G0 m0 av
  end.

(** [start]; [None] is the uncaught [KeyError] of [self.map.nodes[...]]. *)
Definition start (m : MapEngine) (av : AV) (user_waypoints : list node)
  : option (MapEngine * AV) :=
  if (length user_waypoints <? 2)%nat then Some (m, av)
  else
    match head user_waypoints, last user_waypoints with
    | Some c, Some f =>
        match nodes m !! c with
        | Some xy =>
            Some (calculate_mission_and_go m
                    (mk_AV xy true (Some c) (next_node_target av) (Some f)
                       (projected_path av) (path_coords av) (coord_idx av)
                       (angle av) (state av) (wait_timer av) (alert av)
                       (recalc_interval av) (last_recalc_t av) (events av)))
        | None => None
        end
    | _, _ => None
    end.

(** [check_dynamic_reroute].  The second component is [None] when the body
    raises ([raw_proj[1]] on a one-node path, or a [KeyError] on a coordinate);
    the vehicle is then as before, the engine keeps what the queries cached. *)
Definition check_dynamic_reroute (m : MapEngine) (av : AV)
  : MapEngine * option (AV * bool) :=
  match build_abstract_graph (graph_sys m) false m with
  | (G, m1) =>
      match current_node av, final_dest av with
      | Some cur, Some fin =>
          if negb (graph_has_node G cur) then (m1, Some (av, false))
          else
            match abs_shortest_path G cur fin with
            | None => (m1, Some (av, false))
            | Some raw_proj =>
                match raw_proj with
                | _ :: chosen :: _ =>
                    match best_neighbor G cur fin with
                    | Some bn =>
                        if bool_decide (bn <> chosen) then
                          match get_phys_path m1 cur bn with
                          | (Some (x :: r), m2) =>
                              match coords_of m2 (x :: r) with
                              | Some pc =>
                                  (m2, Some
                                     (with_route bn raw_proj
                                        ("Rerouted -> " +:+ label_of (graph_sys m) (Some bn)
                                           +:+ " (mid-leg)")
                                        (with_leg pc (alert av) (state av) av), true))
                              | None => (m2, None)
                              end
                          | (_, m2) => (m2, Some (av, false))
                          end
                        else (m1, Some (av, false))
                    | None => (m1, Some (av, false))
                    end
                | _ => (m1, None)
                end
            end
      | _, _ => (m1, Some (av, false))
      end
  end.

(** The time-gated mid-leg check at the head of the MOVING branch. *)
Definition periodic_check (now : Q) (m : MapEngine) (av : AV) : MapEngine * AV :=
  if Qltb (recalc_interval av) (now - last_recalc_t av)%Q then
    let av0 := with_last_recalc now av in
    match check_dynamic_reroute m av0 with
    | (m', Some (av', _)) => (m', av')
    | (m', None) => (m', av0)
    end
  else (m, av).

(** Arrival at an intermediate node:
    [events.append((f"Reached Node {lbl}", (255, 255, 0))); state = "WAITING";
     wait_timer = 1.0] *)
Definition reach_intermediate (gs : AbstractGraph) (av : AV) : AV :=
  mk_AV (pos av) (active av) (current_node av) (next_node_target av) (final_dest av)
    (projected_path av) (path_coords av) (coord_idx av) (angle av) "WAITING"
    1%Q (alert av) (recalc_interval av) (last_recalc_t av)
    (events av ++ [("Reached Node " +:+ label_of gs (current_node av), (255, 255, 0))]).

(** End of the current physical leg. *)
Definition arrive (m : MapEngine) (av : AV) : AV :=
  let av' := with_current (next_node_target av) av in
  if bool_decide (current_node av' = final_dest av') then finish av'
  else reach_intermediate (graph_sys m) av'.

(** The motion step towards [path_coords[coord_idx + 1]]; [None] is an
    uncaught exception (index out of range, division by a zero distance). *)
Definition advance (speed : Q) (av : AV) : option AV :=
  match path_coords av !! S (coord_idx av) with
  | Some target =>
      let dx := (fst target - fst (pos av))%Q in
      let dy := (snd target - snd (pos av))%Q in
      let dist := hypot dx dy in
      let current_speed := (speed * 2)%Q in
      if Qle_bool dist current_speed then
        Some (with_motion target (S (coord_idx av)) (angle av) av)
      else if Qeq_bool dist 0 then None
      else
        let target_angle := (- atan2_deg dy dx)%Q in
        let diff := (Qmod (target_angle - angle av + 180) 360 - 180)%Q in
        Some (with_motion
                ((fst (pos av) + (dx / dist) * current_speed)%Q,
                 (snd (pos av) + (dy / dist) * current_speed)%Q)
                (coord_idx av) (angle av + diff * (2 # 10))%Q av)
  | None => None
  end.

Definition at_leg_end (av : AV) : bool :=
  Z.of_nat (length (path_coords av)) - 1 <=? Z.of_nat (coord_idx av).

(** [AV.update(speed, dt)]; [now] is the value [time.time()] returns. *)
Definition update (speed : Q) (dt : Z) (now : Q) (m : MapEngine) (av : AV)
  : option (MapEngine * AV) :=
  if negb (active av) then Some (m, av)
  else if String.eqb (state av) "WAITING" then
    let wt := (wait_timer av - inject_Z dt / 1000)%Q in
    match current_node av ≫= (fun n => node_mapping (graph_sys m) !! n) with
    | Some lbl =>
        let av1 := with_wait wt
                     ("Scanning at " +:+ lbl +:+ "... " +:+ pretty (Qtrunc wt)) av in
        if Qle_bool wt 0 then Some (calculate_mission_and_go m av1)
        else Some (m, av1)
    | None => None
    end
  else if String.eqb (state av) "MOVING" then
    match periodic_check now m av with
    | (m1, av1) =>
        if at_leg_end av1 then Some (m1, arrive m1 av1)
        else fmap (M:=option) (fun a => (m1, a)) (advance speed av1)
    end
  else Some (m, av).

(** The reset key of the main loop: [av.active = False]. *)
Definition cancel (av : AV) : AV :=
  mk_AV (pos av) false (current_node av) (next_node_target av) (final_dest av)
    (projected_path av) (path_coords av) (coord_idx av) (angle av) (state av)
    (wait_timer av) (alert av) (recalc_interval av) (last_recalc_t av) (events av).

(** What one call [av.update(sim_speed, dt)] of the main loop finds: the
    density map [map_eng.update] has installed just before, the two
    arguments, and the clock reading. *)
Definition tick_input := (gmap edge_key Z * Q * Z * Q)%type.

(** Calls of [av.update] one after the other, nothing else touching the
    vehicle in between.  This is not the main loop, which also empties the
    event queue (see [loop_ticks]); it serves to say what every call does. *)
Fixpoint update_calls (ticks : list tick_input) (m : MapEngine) (av : AV)
  : option (MapEngine * AV) :=
  match ticks with
  | [] => Some (m, av)
  | (d, speed, dt, now) :: rest =>
      match update speed dt now (with_density d m) av with
      | Some (m', av') => update_calls rest m' av'
      | None => None
      end
  end.

Definition with_events (ev : list (string * color)) (av : AV) : AV :=
  mk_AV (pos av) (active av) (current_node av) (next_node_target av) (final_dest av)
    (projected_path av) (path_coords av) (coord_idx av) (angle av) (state av)
    (wait_timer av) (alert av) (recalc_interval av) (last_recalc_t av) ev.

(** The consumer of the events in [run_sim]:
    [if av.events: msg, color = av.events.pop(0)].  The popup built from the
    pair is display state that neither vehicle nor engine reads. *)
Definition pop_event (av : AV) : AV := with_events (tail (events av)) av.

(** Iterations of the main loop of [run_sim] in which no key is pressed:
    [map_eng.update] installs the density map, [av.update(sim_speed, dt)]
    runs, then the first pending event, if any, is taken off the queue. *)
Fixpoint loop_ticks (ticks : list tick_input) (m : MapEngine) (av : AV)
  : option (MapEngine * AV) :=
  match ticks with
  | [] => Some (m, av)
  | (d, speed, dt, now) :: rest =>
      match update speed dt now (with_density d m) av with
      | Some (m', av') => loop_ticks rest m' (pop_event av')
      | None => None
      end
  end.

(** ** Landmark selection ([AbstractGraph.generate_abstraction]) *)

(** [G_proj.degree(n)] on the directed multigraph: every edge end at [n]
    counts, so a loop counts twice. *)
Definition road_degree (G : RoadGraph) (n : node) : nat :=
  (length (filter (fun e => e_u e = n) G) + length (filter (fun e => e_v e = n) G))%nat.

(** [sorted(..., key=key, reverse=True)]: Python's sort is stable also when
    reversed, so an element goes in front of the first one whose key is not
    larger than its own. *)
Fixpoint insert_desc (key : node -> nat) (x : node) (l : list node) : list node :=
  match l with
  | [] => [x]
  | y :: r => if (key x <? key y)%nat then y :: insert_desc key x r else x :: l
  end.

Definition sorted_desc (key : node -> nat) (l : list node) : list node :=
  foldr (insert_desc key) [] l.

(** [[n for n in G_proj.nodes() if G_proj.degree(n) > 2]], sorted.
    [road_nodes] is the list [G_proj.nodes()]. *)
Definition candidates (G : RoadGraph) (road_nodes : list node) : list node :=
  sorted_desc (road_degree G) (filter (fun n => (2 < road_degree G n)%nat) road_nodes).

Definition min_dist : Q := 250.

(** [all(math.hypot(cx - nodes[s][0], cy - nodes[s][1]) > min_dist
         for s in selected)]: stops at the first landmark that is too close;
    [None] is a [KeyError]. *)
Fixpoint far_from_all (xy : gmap node coord) (c : coord) (selected : list node)
  : option bool :=
  match selected with
  | [] => Some true
  | s :: r =>
      match (xy !! s : option coord) with
      | Some sc =>
          if Qltb min_dist (hypot (fst c - fst sc) (snd c - snd sc))
          then far_from_all xy c r
          else Some false
      | None => None
      end
  end.

(** The loop [for c in candidates], with its [break]. *)
Fixpoint select_landmarks (xy : gmap node coord) (max_nodes : Z)
    (cands selected : list node) : option (list node) :=
  match cands with
  | [] => Some selected
  | c :: rest =>
      if max_nodes <=? Z.of_nat (length selected) then Some selected
      else
        match (xy !! c : option coord) with
        | Some cc =>
            match far_from_all xy cc selected with
            | Some true => select_landmarks xy max_nodes rest (selected ++ [c])
            | Some false => select_landmarks xy max_nodes rest selected
            | None => None
            end
        | None => None
        end
  end.

(** Keys never increase along the list. *)
Fixpoint desc_sorted (key : node -> nat) (l : list node) : Prop :=
  match l with
  | [] => True
  | x :: r => Forall (fun y => (key y <= key x)%nat) r /\ desc_sorted key r
  end.

(** Landmark [c] has coordinates farther than [min_dist] from those of [s]. *)
Definition apart (xy : gmap node coord) (s c : node) : Prop :=
  exists sc cc, xy !! s = Some sc /\ xy !! c = Some cc /\
    Qltb min_dist (hypot (fst cc - fst sc) (snd cc - snd sc)) = true.

(** Every landmark is apart from all the ones before it. *)
Fixpoint spaced (xy : gmap node coord) (l : list node) : Prop :=
  match l with
  | [] => True
  | s :: r => Forall (apart xy s) r /\ spaced xy r
  end.

(** A pair of landmarks whose cached path has between 1 and 69 nodes. *)
Definition conn_ok (c : gmap edge_key path) (uv : node * node) : Prop :=
  exists p, c !! sorted_pair (fst uv) (snd uv) = Some p /\
            (0 < length p)%nat /\ (length p < 70)%nat.

(** [list(string.ascii_uppercase)] *)
Definition ascii_uppercase : list string :=
  ["A"; "B"; "C"; "D"; "E"; "F"; "G"; "H"; "I"; "J"; "K"; "L"; "M";
   "N"; "O"; "P"; "Q"; "R"; "S"; "T"; "U"; "V"; "W"; "X"; "Y"; "Z"].

(** [{n: labels[i] for i, n in enumerate(abstract_nodes)}]; [None] is the
    [IndexError] of [labels[i]]. *)
Fixpoint label_nodes (i : nat) (ns : list node) (acc : gmap node string)
  : option (gmap node string) :=
  match ns with
  | [] => Some acc
  | n :: r =>
      match ascii_uppercase !! i with
      | Some l => label_nodes (S i) r (<[n := l]> acc)
      | None => None
      end
  end.

(** The body of the inner loop for one pair with [i < j]. *)
Definition connect_step (u : node) (acc : list (node * node) * MapEngine) (v : node)
  : list (node * node) * MapEngine :=
  match get_phys_path (snd acc) u v with
  | (Some (x :: r), m') =>
      if (length (x :: r) <? 70)%nat then (fst acc ++ [(u, v)], m')
      else (fst acc, m')
  | (_, m') => (fst acc, m')
  end.

(** The two nested [enumerate] loops: every pair of positions [i < j]. *)
Fixpoint connect_all (ns : list node) (acc : list (node * node) * MapEngine)
  : list (node * node) * MapEngine :=
  match ns with
  | [] => acc
  | u :: rest => connect_all rest (fold_left (connect_step u) rest acc)
  end.

(** [generate_abstraction]: the landmarks, the [AbstractGraph] attributes the
    engine reads, and the engine with the paths the pairing has cached. *)
Definition generate_abstraction (road_nodes : list node) (max_nodes : Z) (m : MapEngine)
  : option (list node * AbstractGraph * MapEngine) :=
  match select_landmarks (nodes m) max_nodes (candidates (G_proj m) road_nodes) [] with
  | Some abstract_nodes =>
      match label_nodes 0 abstract_nodes ∅ with
      | Some mapping =>
          match connect_all abstract_nodes ([], m) with
          | (conns, m') => Some (abstract_nodes, mk_AbstractGraph conns mapping, m')
          end
      | None => None
      end
  | None => None
  end.

(** [layout.graph_sys = abstract_graph] in [run_sim]. *)
Definition with_graph_sys (gs : AbstractGraph) (m : MapEngine) : MapEngine :=
  mk_MapEngine (G_proj m) (nodes m) gs (edge_density m) (blocked_edges m)
    (phys_path_cache m) (G_abs_cached m) (last_edge_density_snapshot m).

(** ** Camera and picking *)

Record Camera := mk_Camera {
  off_x : Q;
  off_y : Q;
  zoom : Q;
  drag_start : option (Z * Z)
}.

(** [Camera.__init__] *)
Definition new_Camera : Camera := mk_Camera 0 0 1 None.

(** [to_world]; [None] is the division by a zero zoom.

    The camera's offsets and zoom are doubles in the program; here its
    expressions are read over the rationals, without the rounding of each
    operation.  What is proved of the camera is kept to facts that rounding
    does not disturb: when a call raises, how values compare, the bounds of
    the zoom, and sums written in the order the program adds them.  No
    equation between a point and its image under [to_world] is stated. *)
Definition to_world (cam : Camera) (sx sy : Q) : option coord :=
  if Qeq_bool (zoom cam) 0 then None
  else Some (((sx - off_x cam) / zoom cam)%Q, ((sy - off_y cam) / zoom cam)%Q).

(** The pygame events the handlers look at. *)
Inductive ui_event :=
| MouseButtonDown (button : Z) (pos : Z * Z)
| MouseButtonUp
| MouseMotion (pos : Z * Z)
| OtherEvent.

Definition Qmin2 (a b : Q) : Q := if Qle_bool a b then a else b.
Definition Qmax2 (a b : Q) : Q := if Qle_bool b a then a else b.

(** The zoom branches of [handle_input]: the world point under the mouse is
    read first, the zoom is scaled and clamped, the offsets are reset. *)
Definition zoom_about (cam : Camera) (pos : Z * Z) (z' : Q) : option Camera :=
  match to_world cam (inject_Z (fst pos)) (inject_Z (snd pos)) with
  | Some w =>
      Some (mk_Camera (inject_Z (fst pos) - fst w * z')%Q
                      (inject_Z (snd pos) - snd w * z')%Q z' (drag_start cam))
  | None => None
  end.

(** [Camera.handle_input].  [in_map] is the value of
    [self.layout.map_rect.collidepoint(event.pos)].  A motion during a drag
    adds the displacement since the previous mouse position and moves
    [drag_start] on to the new position. *)
Definition camera_handle_input (in_map : bool) (ev : ui_event) (cam : Camera)
  : option Camera :=
  match ev with
  | MouseButtonDown button pos =>
      if in_map then
        if button =? 2 then Some (mk_Camera (off_x cam) (off_y cam) (zoom cam) (Some pos))
        else if button =? 4 then
          zoom_about cam pos (Qmin2 (zoom cam * (11 # 10)) 5)
        else if button =? 5 then
          zoom_about cam pos (Qmax2 (zoom cam * (9 # 10)) (1 # 2))
        else Some cam
      else Some cam
  | MouseButtonUp => Some (mk_Camera (off_x cam) (off_y cam) (zoom cam) None)
  | MouseMotion pos =>
      match drag_start cam with
      | Some d =>
          Some (mk_Camera (off_x cam + inject_Z (fst pos - fst d))%Q
                          (off_y cam + inject_Z (snd pos - snd d))%Q
                          (zoom cam) (Some pos))
      | None => Some cam
      end
  | OtherEvent => Some cam
  end.

(** The distance the loop computes for landmark [n] from world point [w]. *)
Definition node_dist (xy : gmap node coord) (w : coord) (n : node) : option Q :=
  match (xy !! n : option coord) with
  | Some nc => Some (hypot (fst nc - fst w) (snd nc - snd w))
  | None => None
  end.

(** The loop of [get_abstract_node_at]: [best] and [min_d] as it runs; the
    outer [None] is a [KeyError]. *)
Fixpoint nearest_scan (xy : gmap node coord) (w : coord) (ns : list node)
    (best : option node) (min_d : Q) : option (option node * Q) :=
  match ns with
  | [] => Some (best, min_d)
  | n :: r =>
      match (xy !! n : option coord) with
      | Some nc =>
          let d := hypot (fst nc - fst w) (snd nc - snd w) in
          if Qltb d min_d then nearest_scan xy w r (Some n) d
          else nearest_scan xy w r best min_d
      | None => None
      end
  end.

(** [get_abstract_node_at(pos, cam)] over the landmarks [ns]. *)
Definition get_abstract_node_at (ns : list node) (m : MapEngine) (pos : Z * Z)
    (cam : Camera) : option (option node) :=
  match to_world cam (inject_Z (fst pos)) (inject_Z (snd pos)) with
  | Some w =>
      fmap (M:=option) fst (nearest_scan (nodes m) w ns None (60 / zoom cam)%Q)
  | None => None
  end.

(** The right-click branch of the main loop: [if n:] then toggle [n] in
    [user_selection].  A node id 0 is falsy, like no node at all. *)
Fixpoint remove_node (n : node) (l : list node) : list node :=
  match l with
  | [] => []
  | x :: r => if x =? n then r else x :: remove_node n r
  end.

Definition toggle_selection (picked : option node) (sel : list node) : list node :=
  match picked with
  | Some n =>
      if n =? 0 then sel
      else if bool_decide (n ∈ sel) then remove_node n sel
      else sel ++ [n]
  | None => sel
  end.

(** ** Sliders *)

Record SimpleSlider := mk_SimpleSlider {
  s_left : Z;
  s_width : Z;
  min_val : Z;
  max_val : Z;
  val : Q;
  dragging : bool
}.

(** [SimpleSlider.handle_event].  [hit] is the value of
    [self.rect.inflate(10,10).collidepoint(event.pos)]; [None] is the division
    by a zero width. *)
Definition slider_handle_event (hit : bool) (ev : ui_event) (s : SimpleSlider)
  : option SimpleSlider :=
  match ev with
  | MouseButtonDown _ _ =>
      if hit then Some (mk_SimpleSlider (s_left s) (s_width s) (min_val s) (max_val s)
                          (val s) true)
      else Some s
  | MouseButtonUp =>
      Some (mk_SimpleSlider (s_left s) (s_width s) (min_val s) (max_val s) (val s) false)
  | MouseMotion pos =>
      if dragging s then
        let right := s_left s + s_width s in
        let mx := Z.max (s_left s) (Z.min (fst pos) right) in
        if s_width s =? 0 then None
        else
          let ratio := (inject_Z (mx - s_left s) / inject_Z (s_width s))%Q in
          Some (mk_SimpleSlider (s_left s) (s_width s) (min_val s) (max_val s)
                  (inject_Z (min_val s) + ratio * inject_Z (max_val s - min_val s))%Q
                  true)
      else Some s
  | OtherEvent => Some s
  end.

(** A sequence of events through one slider or the camera, each with the
    outcome of its hit test. *)
Fixpoint slider_run (evs : list (bool * ui_event)) (s : SimpleSlider)
  : option SimpleSlider :=
  match evs with
  | [] => Some s
  | (hit, ev) :: rest =>
      match slider_handle_event hit ev s with
      | Some s' => slider_run rest s'
      | None => None
      end
  end.

Fixpoint camera_run (evs : list (bool * ui_event)) (cam : Camera) : option Camera :=
  match evs with
  | [] => Some cam
  | (in_map, ev) :: rest =>
      match camera_handle_input in_map ev cam with
      | Some cam' => camera_run rest cam'
      | None => None
      end
  end.

(** The slider's value lies between its bounds, on a bar of positive width. *)
Definition slider_ok (s : SimpleSlider) : Prop :=
  0 < s_width s /\ min_val s <= max_val s /\
  (inject_Z (min_val s) <= val s)%Q /\ (val s <= inject_Z (max_val s))%Q.

(** The zoom stays between its two clamps. *)
Definition zoom_in_range (cam : Camera) : Prop :=
  ((1 # 2) <= zoom cam)%Q /\ (zoom cam <= 5)%Q.

(** ** Background traffic *)

Record TrafficBot := mk_TrafficBot {
  b_curr : node;
  b_pos : coord;
  b_target : option node
}.

(** Python truthiness of [self.target]: [None] and the id 0 are falsy. *)
Definition has_target (b : TrafficBot) : bool :=
  match b_target b with
  | Some t => negb (t =? 0)
  | None => false
  end.

(** [list(G_proj.neighbors(n))]: the heads of the edges leaving [n], each
    once, in the order they first appear. *)
Fixpoint first_occurrences (seen l : list node) : list node :=
  match l with
  | [] => []
  | x :: r =>
      if bool_decide (x ∈ seen) then first_occurrences seen r
      else x :: first_occurrences (x :: seen) r
  end.

Definition successors (G : RoadGraph) (n : node) : list node :=
  first_occurrences [] (e_v <$> filter (fun e => e_u e = n) G).

(** [random.choice(seq)] with the index it draws; [None] on an empty list. *)
Definition random_choice (draw : nat) (seq : list node) : option node :=
  seq !! (draw mod length seq)%nat.

(** [TrafficBot(map_eng)] with the node its constructor draws from
    [nodes.keys()]; [None] when the engine has no coordinates for it. *)
Definition new_bot (m : MapEngine) (c : node) : option TrafficBot :=
  fmap (M:=option) (fun xy => mk_TrafficBot c xy None) (nodes m !! c).

(** The part of [TrafficBot.update] after a target is known. *)
Definition bot_drive (m : MapEngine) (speed_mod : Q) (t : node) (b : TrafficBot)
  : option TrafficBot :=
  match (nodes m !! t : option coord) with
  | Some txy =>
      let dx := (fst txy - fst (b_pos b))%Q in
      let dy := (snd txy - snd (b_pos b))%Q in
      let dist := hypot dx dy in
      let msp := (speed_mod * (1 # 2))%Q in
      if Qltb dist msp then Some (mk_TrafficBot t txy None)
      else if Qeq_bool dist 0 then None
      else Some (mk_TrafficBot (b_curr b)
                   ((fst (b_pos b) + (dx / dist) * msp)%Q,
                    (snd (b_pos b) + (dy / dist) * msp)%Q) (Some t))
  | None => None
  end.

(** The branch [if not self.target:]: a target is drawn among the
    successors; with none the bot stays as it is.  [G_proj.neighbors] raises
    for a node that is not in the graph; the nodes of [G_proj] are the keys of
    [nodes], which [normalize_coords] fills from them. *)
Definition bot_retarget (m : MapEngine) (speed_mod : Q) (draw : nat) (b : TrafficBot)
  : option TrafficBot :=
  match (nodes m !! b_curr b : option coord) with
  | None => None
  | Some _ =>
      match random_choice draw (successors (G_proj m) (b_curr b)) with
      | Some t => bot_drive m speed_mod t b
      | None => Some b
      end
  end.

(** [TrafficBot.update(speed_mod)]; [draw] is the index the random choice
    takes when one is made, [None] is an uncaught exception. *)
Definition bot_update (m : MapEngine) (speed_mod : Q) (draw : nat) (b : TrafficBot)
  : option TrafficBot :=
  match b_target b with
  | Some t => if t =? 0 then bot_retarget m speed_mod draw b
              else bot_drive m speed_mod t b
  | None => bot_retarget m speed_mod draw b
  end.

(** [k = tuple(sorted((b.curr, b.target))); d[k] = d.get(k, 0) + 1] *)
Definition count_bot (d : gmap edge_key Z) (b : TrafficBot) : gmap edge_key Z :=
  if has_target b then
    match b_target b with
    | Some t =>
        let k := sorted_pair (b_curr b) t in
        <[k := default 0 (d !! k) + 1]> d
    | None => d
    end
  else d.

(** The loop [for b in self.bots] of [MapEngine.update]: each bot moves, then
    is counted.  [draws i] is the index drawn for the bot at position [i]. *)
Fixpoint traffic_loop (m : MapEngine) (speed : Q) (draws : nat -> nat) (i : nat)
    (bs : list TrafficBot) (d : gmap edge_key Z)
  : option (list TrafficBot * gmap edge_key Z) :=
  match bs with
  | [] => Some ([], d)
  | b :: rest =>
      match bot_update m speed (draws i) b with
      | Some b' =>
          match traffic_loop m speed draws (S i) rest (count_bot d b') with
          | Some (bs', d') => Some (b' :: bs', d')
          | None => None
          end
      | None => None
      end
  end.

(** [while len(self.bots) < target_bots: self.bots.append(TrafficBot(self))];
    [fresh i] is the node the constructor of the [i]-th new bot draws. *)
Fixpoint spawn_bots (m : MapEngine) (k : nat) (fresh : nat -> node) (i : nat)
  : option (list TrafficBot) :=
  match k with
  | O => Some []
  | S k' =>
      match new_bot m (fresh i), spawn_bots m k' fresh (S i) with
      | Some b, Some bs => Some (b :: bs)
      | _, _ => None
      end
  end.

(** The two [while] loops that bring the population to [target_bots].
    For a negative target the second loop pops from an empty list. *)
Definition resize_bots (m : MapEngine) (target_bots : Z) (fresh : nat -> node)
    (bs : list TrafficBot) : option (list TrafficBot) :=
  if target_bots <? 0 then None
  else
    let n := Z.to_nat target_bots in
    if (length bs <? n)%nat then
      fmap (M:=option) (fun new => bs ++ new) (spawn_bots m (n - length bs) fresh 0)
    else Some (take n bs).

(** [MapEngine.update(speed, target_bots, dt)]: the population is adjusted,
    the density map is rebuilt from empty. *)
Definition map_update (speed : Q) (target_bots : Z) (fresh : nat -> node)
    (draws : nat -> nat) (m : MapEngine) (bs : list TrafficBot)
  : option (MapEngine * list TrafficBot) :=
  match resize_bots m target_bots fresh bs with
  | Some bs1 =>
      match traffic_loop m speed draws 0 bs1 ∅ with
      | Some (bs2, d) => Some (with_density d m, bs2)
      | None => None
      end
  | None => None
  end.

(** The key a bot is counted under, if it is counted. *)
Definition bot_key (b : TrafficBot) : option edge_key :=
  if has_target b then
    match b_target b with
    | Some t => Some (sorted_pair (b_curr b) t)
    | None => None
    end
  else None.

(** How many bots of [bs] are counted under [k]. *)
Definition bots_on (k : edge_key) (bs : list TrafficBot) : Z :=
  Z.of_nat (length (filter (fun b => bot_key b = Some k) bs)).

(** The entry a density map built from [bs] has under [k]. *)
Definition density_of (bs : list TrafficBot) (k : edge_key) : option Z :=
  if bots_on k bs =? 0 then None else Some (bots_on k bs).

(** A bot stands at a node of the map, and is heading, if at all, for a
    successor of that node. *)
Definition on_road (m : MapEngine) (b : TrafficBot) : Prop :=
  is_Some (nodes m !! b_curr b) /\
  forall t, b_target b = Some t -> t ∈ successors (G_proj m) (b_curr b).

(** Every street of the map ends at a node with coordinates. *)
Definition heads_located (m : MapEngine) : Prop :=
  forall e, e ∈ G_proj m -> is_Some (nodes m !! e_v e).

(** ** Relations between two states of the vehicle *)



(** What planning leaves alone in the vehicle. *)
Definition mission_kept (av av' : AV) : Prop :=
  pos av' = pos av /\ current_node av' = current_node av /\
  final_dest av' = final_dest av /\ angle av' = angle av /\
  wait_timer av' = wait_timer av /\ recalc_interval av' = recalc_interval av /\
  last_recalc_t av' = last_recalc_t av.

(** What of a street is never rewritten. *)
Definition road_shape (e : road_edge) : node * node * Z * Q :=
  (e_u e, e_v e, e_k e, e_length e).

(** What no query, build or plan changes in the engine: coordinates,
    landmark table, densities, blocked list and the streets up to their
    [curr_cost]; the path cache only grows. *)
Definition same_world (m m' : MapEngine) : Prop :=
  nodes m' = nodes m /\ graph_sys m' = graph_sys m /\
  edge_density m' = edge_density m /\ blocked_edges m' = blocked_edges m /\
  road_shape <$> G_proj m' = road_shape <$> G_proj m /\
  phys_path_cache m ⊆ phys_path_cache m'.

(** ** Fitting the map into its panel *)

(** [min(xs)] and [max(xs)] on a list; [None] is the [ValueError] on an
    empty one. *)
Definition py_min (l : list Q) : option Q :=
  match l with
  | [] => None
  | x :: r => Some (fold_left Qmin2 r x)
  end.

Definition py_max (l : list Q) : option Q :=
  match l with
  | [] => None
  | x :: r => Some (fold_left Qmax2 r x)
  end.

(** The attributes [normalize_coords] assigns on the engine besides [nodes]:
    [self.min_x, self.max_x, self.min_y, self.max_y, self.scale, self.off_x,
    self.off_y].  Nothing else in the program reads them, so they are kept
    apart from [MapEngine] and handed back by [normalize_coords]. *)
Record Placement := mk_Placement {
  p_min_x : Q;
  p_max_x : Q;
  p_min_y : Q;
  p_max_y : Q;
  p_scale : Q;
  p_off_x : Q;
  p_off_y : Q
}.

(** [sx = (d['x'] - min_x)*scale + off_x;
     sy = screen_h - ((d['y'] - min_y)*scale + off_y)] *)
Definition place (screen_h : Z) (pl : Placement) (xy : coord) : coord :=
  (((fst xy - p_min_x pl) * p_scale pl + p_off_x pl)%Q,
   (inject_Z screen_h - ((snd xy - p_min_y pl) * p_scale pl + p_off_y pl))%Q).

Definition with_nodes (ns : gmap node coord) (m : MapEngine) : MapEngine :=
  mk_MapEngine (G_proj m) ns (graph_sys m) (edge_density m)
    (blocked_edges m) (phys_path_cache m) (G_abs_cached m)
    (last_edge_density_snapshot m).

(** [normalize_coords]; [nd] is [G_proj.nodes(data=True)] with the projected
    [x] and [y] of each node, [map_w] and [screen_h] are the layout's.
    [None] is the [ValueError] of [min] on a graph without nodes, or the
    division by a zero extent.  The result pairs the attributes assigned
    ([Placement]) with the engine whose [nodes] were filled.

    The program computes in doubles; here the same expressions are read over
    the rationals, without the rounding of each operation.  What is proved of
    this function is therefore kept to facts that rounding does not disturb:
    when it raises, which keys it writes, the sign of the scale, and bounds
    that hold with room to spare.  No equation between computed coordinates
    is claimed. *)
Definition normalize_coords (map_w screen_h : Z) (nd : list (node * coord))
    (m : MapEngine) : option (Placement * MapEngine) :=
  let xs := (fun d => fst (snd d)) <$> nd in
  let ys := (fun d => snd (snd d)) <$> nd in
  match py_min xs, py_max xs, py_min ys, py_max ys with
  | Some min_x, Some max_x, Some min_y, Some max_y =>
      let avail_w := inject_Z (Z.max 200 map_w) in
      let avail_h := inject_Z (Z.max 200 screen_h) in
      if Qeq_bool (max_x - min_x) 0 then None
      else if Qeq_bool (max_y - min_y) 0 then None
      else
        let scale := (Qmin2 (avail_w / (max_x - min_x)) (avail_h / (max_y - min_y))
                      * (9 # 10))%Q in
        let off_x := ((avail_w - (max_x - min_x) * scale) / 2)%Q in
        let off_y := ((avail_h - (max_y - min_y) * scale) / 2)%Q in
        let pl := mk_Placement min_x max_x min_y max_y scale off_x off_y in
        Some (pl,
              with_nodes
                (fold_left (fun acc d => <[fst d := place screen_h pl (snd d)]> acc)
                   nd (nodes m)) m)
  | _, _, _, _ => None
  end.

(** A point lies in the panel of extent [W] by [H], more than a
    twenty-fifth of the extent away from each border; [sy] is measured from
    the bottom line [screen_h]. *)
Definition inside_margins (screen_h : Z) (W H : Q) (s : coord) : Prop :=
  ((1 # 25) * W < fst s)%Q /\ (fst s < (24 # 25) * W)%Q /\
  ((1 # 25) * H < inject_Z screen_h - snd s)%Q /\
  (inject_Z screen_h - snd s < (24 # 25) * H)%Q.

(** The displacements of a drag that starts at [p0] and passes through
    [moves]: each position minus the one before it. *)
Fixpoint drag_deltas (p0 : Z * Z) (moves : list (Z * Z)) : list (Z * Z) :=
  match moves with
  | [] => []
  | p :: r => (fst p - fst p0, snd p - snd p0) :: drag_deltas p r
  end.

(** A drag with the middle button: pressed at [p0] inside the map, moved
    through [moves], released. *)
Definition drag_gesture (p0 : Z * Z) (moves : list (Z * Z)) : list (bool * ui_event) :=
  (true, MouseButtonDown 2 p0) :: ((fun p => (true, MouseMotion p)) <$> moves)
    ++ [(true, MouseButtonUp)].

(** ** The dashboard and the head of the main loop *)

Record Dashboard := mk_Dashboard {
  slider_speed : SimpleSlider;
  slider_crowd : SimpleSlider
}.

(** [Dashboard.__init__], the two sliders: [rx] and [rw] are the [x] and the
    width of [layout.dash_rect]. *)
Definition new_Dashboard (rx rw : Z) : Dashboard :=
  mk_Dashboard (mk_SimpleSlider (rx + 30) (rw - 60) 1 10 4 false)
               (mk_SimpleSlider (rx + 30) (rw - 60) 0 200 60 false).

(** [Dashboard.handle_input]: both sliders see the event; [hits] are their
    two hit tests. *)
Definition dash_handle_input (hits : bool * bool) (ev : ui_event) (dash : Dashboard)
  : option Dashboard :=
  match slider_handle_event (fst hits) ev (slider_speed dash) with
  | Some s1 =>
      match slider_handle_event (snd hits) ev (slider_crowd dash) with
      | Some s2 => Some (mk_Dashboard s1 s2)
      | None => None
      end
  | None => None
  end.

Fixpoint dash_run (evs : list (bool * bool * ui_event)) (dash : Dashboard)
  : option Dashboard :=
  match evs with
  | [] => Some dash
  | (hits, ev) :: rest =>
      match dash_handle_input hits ev dash with
      | Some dash' => dash_run rest dash'
      | None => None
      end
  end.

(** The head of the loop body of [run_sim]:
    [sim_speed = dash.slider_speed.val;
     target_bots = int(dash.slider_crowd.val);
     map_eng.update(sim_speed, target_bots, dt)] *)
Definition frame_traffic (dash : Dashboard) (fresh : nat -> node) (draws : nat -> nat)
    (m : MapEngine) (bs : list TrafficBot) : option (MapEngine * list TrafficBot) :=
  map_update (val (slider_speed dash)) (Qtrunc (val (slider_crowd dash)))
    fresh draws m bs.

(** ** The connectivity matrix of the dashboard *)

(** The colours a cell can take: the diagonal, the three traffic levels of a
    connected pair, and an unconnected pair. *)
Inductive cell_color := CellSelf | CellJam | CellSlow | CellFree | CellNone.

(** One cell of the matrix in [Dashboard.draw], for row node [u] and column
    node [v]: its colour and its text.  Nothing inside the [try] of a
    connected cell can raise ([get_phys_path] has its own handler), so its
    handler has no counterpart here; a query without a path gives distance
    and traffic 0. *)
Definition matrix_cell (conns : list (node * node)) (m : MapEngine) (u v : node)
  : (cell_color * string) * MapEngine :=
  let is_connected := bool_decide ((u, v) ∈ conns) || bool_decide ((v, u) ∈ conns) in
  if u =? v then ((CellSelf, ""), m)
  else if is_connected then
    match get_phys_path m u v with
    | (Some (x :: r), m') =>
        let dist := Z.of_nat (length (x :: r)) / 10 in
        let traffic := path_traffic (edge_density m') (x :: r) in
        ((if 10 <? traffic then CellJam
          else if 2 <? traffic then CellSlow else CellFree,
          pretty (dist + traffic * 5)), m')
    | (_, m') => ((CellFree, pretty 0), m')
    end
  else ((CellNone, ""), m).



(** The pairs the two nested loops of [generate_abstraction] visit: each
    landmark with every later one. *)
Fixpoint ordered_pairs (ns : list node) : list (node * node) :=
  match ns with
  | [] => []
  | u :: r => (pair u <$> r) ++ ordered_pairs r
  end.

(** A pair whose cache entry is a path of 1 to 69 nodes is connected. *)
Definition decided (c : gmap edge_key path) (cs : list (node * node))
    (uv : node * node) : Prop :=
  forall p, c !! sorted_pair (fst uv) (snd uv) = Some p ->
            p <> [] -> (length p < 70)%nat -> uv ∈ cs.

(** *** Invariants used below *)

(** Every cached sequence is what the shortest-path query returned for a pair
    of endpoints with that canonical key. *)
Definition cache_genuine (G : RoadGraph) (c : gmap edge_key path) : Prop :=
  forall k p, c !! k = Some p ->
    exists u v, sorted_pair u v = k /\ nx_shortest_path G W_length u v = Some p.

(** Every edge weight of [G] is the congestion cost, under [dens], of the
    non-empty sequence cached for that pair of landmarks. *)
Definition weights_from (dens : gmap edge_key Z) (c : gmap edge_key path)
    (G : Graph) : Prop :=
  forall x y w, edge_weight G x y = Some w ->
    exists p, c !! sorted_pair x y = Some p /\ p <> [] /\ w = edge_cost dens p.

(** The invariants of the rebuild loop over the connections [done] handled
    so far, on road graph [R] and from the cache [c0] the loop started with:
    the graph is undirected; every edge stems from a handled connection; a
    handled connection has its edge whenever a non-empty path is cached for
    it, and without a cache entry its query has failed; and every cache entry
    is an old one or the answer to a handled connection. *)
Definition graph_symmetric (G : Graph) : Prop :=
  forall x y, edge_weight G x y = edge_weight G y x.

Definition edges_sound (done : list (node * node)) (G : Graph) : Prop :=
  forall x y, is_Some (edge_weight G x y) ->
    exists u v, (u, v) ∈ done /\ sorted_pair u v = sorted_pair x y.

Definition edges_complete (R : RoadGraph) (done : list (node * node))
    (c : gmap edge_key path) (G : Graph) : Prop :=
  forall u v, (u, v) ∈ done ->
    match c !! sorted_pair u v with
    | Some (_ :: _) => is_Some (edge_weight G u v)
    | Some [] => True
    | None => nx_shortest_path R W_length u v = None
    end.

Definition cache_provenance (R : RoadGraph) (c0 : gmap edge_key path)
    (done : list (node * node)) (c : gmap edge_key path) : Prop :=
  forall k p, c !! k = Some p ->
    c0 !! k = Some p \/
    exists u v, (u, v) ∈ done /\ sorted_pair u v = k /\
                nx_shortest_path R W_length u v = Some p.

Definition build_inv (R : RoadGraph) (c0 : gmap edge_key path)
    (done : list (node * node)) (G : Graph) (c : gmap edge_key path) : Prop :=
  graph_symmetric G /\ edges_sound done G /\ edges_complete R done c G /\
  cache_provenance R c0 done c.

(** Two graphs connect the same pairs. *)
Definition same_edges (G1 G2 : Graph) : Prop :=
  forall x y, is_Some (edge_weight G1 x y) <-> is_Some (edge_weight G2 x y).

(** ** A reference shortest-path routine for the closed examples

    Exhaustive search over simple paths of the directed multigraph; the first
    path found wins a tie. *)

Definition edge_w (attr : weight_attr) (e : road_edge) : Q :=
  match attr with
  | W_length => e_length e
  | W_curr_cost => default 1%Q (e_curr_cost e)
  end.

Fixpoint ref_paths (fuel : nat) (G : RoadGraph) (attr : weight_attr)
    (seen : list node) (u v : node) : list (Q * path) :=
  if u =? v then [(0%Q, [u])]
  else
    match fuel with
    | O => []
    | S f =>
        flat_map
          (fun e =>
             if (e_u e =? u) && negb (existsb (Z.eqb (e_v e)) (u :: seen)) then
               map (fun cp => ((edge_w attr e + fst cp)%Q, u :: snd cp))
                   (ref_paths f G attr (u :: seen) (e_v e) v)
             else [])
          G
    end.

Definition ref_best (l : list (Q * path)) : option (Q * path) :=
  fold_left
    (fun b cp =>
       match b with
       | None => Some cp
       | Some (c, _) => if Qltb (fst cp) c then Some cp else b
       end)
    l None.

Definition ref_shortest_path (G : RoadGraph) (attr : weight_attr) (u v : node)
  : option path :=
  fmap (M:=option) snd (ref_best (ref_paths (length G) G attr [] u v)).

(** Reference routine on the abstract graph: Dijkstra's algorithm with the
    frontier kept in discovery order, relaxing only on a strictly smaller
    distance. *)
Definition frontier := list (node * (Z * path)).

Definition pick_min (seen : frontier) (done : list node) : option (node * (Z * path)) :=
  fold_left
    (fun b e =>
       if existsb (Z.eqb (fst e)) done then b
       else match b with
            | None => Some e
            | Some (_, (d, _)) => if fst (snd e) <? d then Some e else b
            end)
    seen None.

Definition relax (v : node) (d : Z) (p : path) (done : list node)
    (s : frontier) (wc : node * Z) : frontier :=
  let (w, c) := wc in
  if existsb (Z.eqb w) (v :: done) then s
  else match alist_get w s with
       | Some (dw, _) => if d + c <? dw then alist_set w (d + c, p ++ [w]) s else s
       | None => alist_set w (d + c, p ++ [w]) s
       end.

Fixpoint dijkstra_loop (fuel : nat) (G : Graph) (seen : frontier)
    (done : list node) (t : node) : option (Z * path) :=
  match fuel with
  | O => None
  | S f =>
      match pick_min seen done with
      | None => None
      | Some (v, (d, p)) =>
          if v =? t then Some (d, p)
          else dijkstra_loop f G
                 (fold_left (relax v d p done) (default [] (alist_get v G)) seen)
                 (v :: done) t
      end
  end.

Definition ref_dijkstra (G : Graph) (s t : node) : option (Z * path) :=
  if graph_has_node G s && graph_has_node G t
  then dijkstra_loop (S (length G)) G [(s, (0, [s]))] [] t
  else None.

Definition ref_abs_path (G : Graph) (s t : node) : option path :=
  fmap (M:=option) snd (ref_dijkstra G s t).

Definition ref_abs_length (G : Graph) (s t : node) : option Z :=
  fmap (M:=option) fst (ref_dijkstra G s t).

(** A two-way street. *)
Definition street (a b : node) (len : Q) : RoadGraph :=
  [mk_road_edge a b 0 len None; mk_road_edge b a 0 len None].

Definition mk_engine (G : RoadGraph) (xy : gmap node coord) (gs : AbstractGraph)
    (dens : gmap edge_key Z) (c : gmap edge_key path) : MapEngine :=
  mk_MapEngine G xy gs dens [] c None ∅.

(** *** Example 1: a detour around a short street

    Streets 1-2 and 2-3 of length 1 and a direct street 1-3 of length 5. *)
Definition detour_roads : RoadGraph :=
  street 1 2 1 ++ street 2 3 1 ++ street 1 3 5.

Definition detour_engine : MapEngine :=
  mk_engine detour_roads ∅ (mk_AbstractGraph [(1, 3)] ∅) ∅ ∅.

(** *** Example 2: a triangle of landmarks with an exact tie

    Landmarks 1, 2, 3.  Streets 1-2 and 2-3 are single long edges; 1 and 3 are
    also joined by three short edges through 10 and 11.  With no traffic the
    abstract weights are 2, 2 and 4 node counts: going 1-2-3 costs exactly as
    much as the direct abstract edge 1-3. *)
Definition tri_roads : RoadGraph :=
  street 1 2 10 ++ street 2 3 10 ++ street 1 10 1 ++ street 10 11 1 ++ street 11 3 1.

Definition tri_coords : gmap node coord :=
  list_to_map [(1, (0, 0)%Q); (2, (300, 300)%Q); (3, (600, 0)%Q);
               (10, (200, 0)%Q); (11, (400, 0)%Q)].

Definition tri_sys : AbstractGraph :=
  mk_AbstractGraph [(1, 2); (1, 3); (2, 3)]
    (list_to_map [(1, "A"); (2, "B"); (3, "C")]).

Definition tri_cache : gmap edge_key path :=
  list_to_map [((1, 2), [1; 2]); ((1, 3), [1; 10; 11; 3]); ((2, 3), [2; 3])].

Definition tri_engine : MapEngine := mk_engine tri_roads tri_coords tri_sys ∅ tri_cache.

Definition tri_graph : Graph :=
  [(1, [(2, 2); (3, 4)]); (2, [(1, 2); (3, 2)]); (3, [(1, 4); (2, 2)])].

(** The vehicle after [start] has set the endpoints 1 and 3. *)
Definition tri_av : AV :=
  mk_AV (0, 0)%Q true (Some 1) None (Some 3) [] [] 0%nat 0%Q "IDLE" 0%Q "Idle"
        (1 # 2)%Q 0%Q [].

(** The engine once the abstract graph has been built. *)
Definition tri_engine_built : MapEngine :=
  mk_MapEngine tri_roads tri_coords tri_sys ∅ [] tri_cache (Some tri_graph) ∅.

(** The same vehicle under way on the direct abstract edge 1-3. *)
Definition tri_av_moving : AV :=
  mk_AV (0, 0)%Q true (Some 1) (Some 3) (Some 3) [1; 3]
        [(0, 0)%Q; (200, 0)%Q; (400, 0)%Q; (600, 0)%Q] 0%nat 0%Q "MOVING" 0%Q
        "Routing to C | Route: A > C" (1 # 2)%Q 0%Q [].

(** Traffic on the short streets between 1 and 3: one bot on street 1-10,
    then a second one on street 11-3. *)
Definition tri_jam1 : gmap edge_key Z := {[ (1, 10) := 1 ]}.
Definition tri_jam2 : gmap edge_key Z := <[ (3, 11) := 1 ]> tri_jam1.

(** *** Example 3: traffic away from every landmark path *)
Definition quiet_sys : AbstractGraph := mk_AbstractGraph [(1, 2)] ∅.

Definition quiet_engine : MapEngine :=
  mk_engine (street 1 2 1 ++ street 3 4 1) ∅ quiet_sys ∅ ∅.

Definition far_traffic : gmap edge_key Z := {[ (3, 4) := 1 ]}.

Definition quiet_graph : Graph := [(1, [(2, 2)]); (2, [(1, 2)])].

(** The quiet engine after its first build. *)
Definition quiet_engine_built : MapEngine :=
  mk_MapEngine (street 1 2 1 ++ street 3 4 1) ∅ quiet_sys ∅ []
    {[ (1, 2) := [1; 2] ]} (Some quiet_graph) ∅.

(** *** Example 4: a single street with no way round *)


Definition lone_engine : MapEngine :=
  mk_engine (street 1 2 1) ∅ (mk_AbstractGraph [(1, 2)] ∅) ∅ ∅.

(** The road graph without the edges between [a] and [b]. *)
Definition without_street (a b : node) (G : RoadGraph) : RoadGraph :=
  filter (fun e => sorted_pair (e_u e) (e_v e) <> sorted_pair a b) G.

(** Whether a node sequence runs over the street between [a] and [b]. *)
Definition uses_street (a b : node) (p : path) : bool :=
  existsb (fun xy => bool_decide (sorted_pair (fst xy) (snd xy) = sorted_pair a b))
          (zip p (tail p)).

(** *** Example 5: a town along one road

    Nodes 1 to 5 lie on the line [y = 0] at [x = 0, 100, 300, 600, 1000];
    node 6 is a dead end above node 5.  Streets 1-2, 2-3, 3-4, 4-5 follow
    the line, 2-4 is a short cut and 1-5 a long ring road. *)
Definition Qabs2 (x : Q) : Q := if Qle_bool 0 x then x else (- x)%Q.

(** [math.hypot] where it is a rational: along an axis.  Off the axes the
    sum of the two legs stands in; the examples never ask for it. *)
Definition axis_hypot (dx dy : Q) : Q :=
  if Qeq_bool dy 0 then Qabs2 dx
  else if Qeq_bool dx 0 then Qabs2 dy
  else (Qabs2 dx + Qabs2 dy)%Q.

Definition town_roads : RoadGraph :=
  street 1 2 100 ++ street 2 3 200 ++ street 3 4 300 ++ street 4 5 400
    ++ street 2 4 450 ++ street 1 5 1000 ++ street 5 6 200.

Definition town_nodes : list node := [1; 2; 3; 4; 5; 6].

Definition town_coords : gmap node coord :=
  list_to_map [(1, (0, 0)%Q); (2, (100, 0)%Q); (3, (300, 0)%Q);
               (4, (600, 0)%Q); (5, (1000, 0)%Q); (6, (1000, 200)%Q)].

(** The engine as [MapEngine.__init__] leaves it. *)
Definition town_engine : MapEngine :=
  mk_engine town_roads town_coords (mk_AbstractGraph [] ∅) ∅ ∅.

(** What [generate_abstraction] finds there with [max_nodes = 12]. *)
Definition town_landmarks : list node := [2; 4; 5].

Definition town_sys : AbstractGraph :=
  mk_AbstractGraph [(2, 4); (2, 5); (4, 5)]
    (list_to_map [(2, "A"); (4, "B"); (5, "C")]).

Definition town_cache : gmap edge_key path :=
  list_to_map [((2, 4), [2; 4]); ((2, 5), [2; 4; 5]); ((4, 5), [4; 5])].

Definition town_engine_gen : MapEngine := with_cache town_cache town_engine.

(** The density map with two bots on street 2-4. *)
Definition town_jam : gmap edge_key Z := {[ (2, 4) := 2 ]}.

(** Two bots under way on street 2-4, one at rest at node 5. *)
Definition town_bots : list TrafficBot :=
  [mk_TrafficBot 2 (150, 0)%Q (Some 4); mk_TrafficBot 4 (500, 0)%Q (Some 2);
   mk_TrafficBot 5 (1000, 0)%Q None].

(** A vehicle waiting at landmark 4 on its way from 2 to 5, as the loop
    iteration in which it arrived there leaves it: the "Reached Node" event
    is already off the queue. *)
Definition town_av_waiting : AV :=
  mk_AV (600, 0)%Q true (Some 4) (Some 4) (Some 5) [2; 4; 5]
        [(100, 0)%Q; (600, 0)%Q] 1%nat 0%Q "WAITING" 1%Q
        "Routing to B | Route: A > B > C" (1 # 2)%Q 0%Q [].

(** The projected coordinates osmnx gives the town. *)
Definition town_data : list (node * coord) :=
  [(1, (5000, 7000)%Q); (2, (5100, 7000)%Q); (3, (5300, 7000)%Q);
   (4, (5600, 7000)%Q); (5, (6000, 7000)%Q); (6, (6000, 7200)%Q)].

(** ** Properties of the path cache *)

Lemma sorted_pair_comm (u v : node) : sorted_pair u v = sorted_pair v u.
Proof.
  unfold sorted_pair.
  destruct (Z.ltb_spec v u), (Z.ltb_spec u v); try reflexivity; try lia.
  f_equal; lia.
Qed.

Lemma get_phys_path_hit (m : MapEngine) (u v : node) (p : path) :
  phys_path_cache m !! sorted_pair u v = Some p ->
  get_phys_path m u v = (Some p, m).
Proof. intros H. unfold get_phys_path. now rewrite H. Qed.

Lemma get_phys_path_stores (m m' : MapEngine) (u v : node) (p : path) :
  get_phys_path m u v = (Some p, m') ->
  phys_path_cache m' !! sorted_pair u v = Some p.
Proof.
  unfold get_phys_path.
  destruct (phys_path_cache m !! sorted_pair u v) as [q|] eqn:Hc.
  - intros [= <- <-]. exact Hc.
  - destruct (nx_shortest_path (G_proj m) W_length u v) as [q|]; intros [= <- <-].
    cbn. apply lookup_insert_eq.
Qed.

(** A query only ever adds to the cache, and touches nothing else. *)
Lemma get_phys_path_frame (m : MapEngine) (u v : node) :
  let m' := snd (get_phys_path m u v) in
  phys_path_cache m ⊆ phys_path_cache m' /\
  m' = with_cache (phys_path_cache m') m.
Proof.
  unfold get_phys_path.
  destruct (phys_path_cache m !! sorted_pair u v) as [q|] eqn:Hc; cbn.
  - split; [reflexivity | now destruct m].
  - destruct (nx_shortest_path (G_proj m) W_length u v) as [q|]; cbn.
    + split; [now apply insert_subseteq | reflexivity].
    + split; [reflexivity | now destruct m].
Qed.


(** C10: a query that finds no route returns [None] and leaves the engine,
    cache included, exactly as it was; a successful one stores the sequence
    under the canonical key; and the cache only ever holds sequences that the
    shortest-path routine returned for an endpoint pair with that key. *)
Theorem failed_query_not_memoized (m : MapEngine) (u v : node) :
  cache_genuine (G_proj m) (phys_path_cache m) ->
  let r := get_phys_path m u v in
  (phys_path_cache m !! sorted_pair u v = None ->
   nx_shortest_path (G_proj m) W_length u v = None -> r = (None, m)) /\
  (fst r = None -> snd r = m) /\
  (forall p, fst r = Some p -> phys_path_cache (snd r) !! sorted_pair u v = Some p) /\
  cache_genuine (G_proj (snd r)) (phys_path_cache (snd r)).
Proof.
  intros Hg. unfold get_phys_path.
  destruct (phys_path_cache m !! sorted_pair u v) as [q|] eqn:Hc; cbn.
  - repeat split; try discriminate; try assumption. now intros p [= <-].
  - destruct (nx_shortest_path (G_proj m) W_length u v) as [q|] eqn:Hsp; cbn.
    + repeat split; try discriminate.
      * intros p [= <-]. apply lookup_insert_eq.
      * intros k p Hk. destruct (decide (sorted_pair u v = k)) as [<-|Hne].
        -- rewrite lookup_insert_eq in Hk. injection Hk as <-. eauto.
        -- rewrite lookup_insert_ne in Hk by assumption. eauto.
    + repeat split; try discriminate; assumption.
Qed.

(** The empty cache is genuine, and so is the cache after invalidation. *)
Lemma cache_genuine_empty (G : RoadGraph) : cache_genuine G ∅.
Proof. intros k p H. now rewrite lookup_empty in H. Qed.

Lemma invalidate_cache_genuine (m : MapEngine) :
  cache_genuine (G_proj (invalidate_phys_cache m))
    (phys_path_cache (invalidate_phys_cache m)).
Proof. apply cache_genuine_empty. Qed.

(** ** Blocking *)

Lemma block_at_roads (e : node * node * Z) (m : MapEngine) :
  G_proj (block_at (Some e) m) = G_proj m /\
  phys_path_cache (block_at (Some e) m) = ∅ /\
  G_abs_cached (block_at (Some e) m) = None.
Proof. now cbn. Qed.

(** Toggling an edge empties the cache, but the road graph handed to the
    shortest-path routine is the one from before, so the next query for any
    pair is answered on the unblocked network. *)
Lemma block_at_does_not_reroute (e : node * node * Z) (m : MapEngine) (u v : node) :
  fst (get_phys_path (block_at (Some e) m) u v)
  = nx_shortest_path (G_proj m) W_length u v.
Proof.
  unfold get_phys_path. cbn. rewrite lookup_empty.
  now destruct (nx_shortest_path (G_proj m) W_length u v).
Qed.

(** ** Guards of the mission controller *)

(** C8: [start] with fewer than two waypoints returns at once; vehicle and
    engine are the values passed in. *)
Theorem start_needs_two_waypoints (m : MapEngine) (av : AV) (ws : list node) :
  (length ws < 2)%nat -> start m av ws = Some (m, av).
Proof.
  intros H. unfold start.
  destruct (Nat.ltb_spec (length ws) 2) as [_|Hge]; [reflexivity | lia].
Qed.

Lemma update_inactive (speed : Q) (dt : Z) (now : Q) (m : MapEngine) (av : AV) :
  active av = false -> update speed dt now m av = Some (m, av).
Proof. intros H. unfold update. now rewrite H. Qed.

Lemma drop_tail {A} (n : nat) (l : list A) : drop n (tail l) = drop (S n) l.
Proof. destruct l; cbn [tail]; [now rewrite !drop_nil | reflexivity]. Qed.

(** C9: with the active flag down, [update] is the identity on vehicle and
    engine, whatever the tick's inputs; hence over any succession of calls
    the vehicle record stays the same and the engine only receives the fresh
    density maps.  This covers a cancelled vehicle too.  In the main loop,
    which takes one pending event off the queue after each call, the vehicle
    stays the same but for the events taken off, and entirely the same when
    none is pending. *)
Theorem inactive_vehicle_is_frozen (m : MapEngine) (av : AV) :
  active av = false ->
  (forall speed dt now, update speed dt now m av = Some (m, av)) /\
  (forall ticks, exists m',
      update_calls ticks m av = Some (m', av) /\
      m' = with_density (edge_density m') m) /\
  (forall ticks av0, exists m',
      update_calls ticks m (cancel av0) = Some (m', cancel av0)) /\
  (forall ticks, exists m',
      loop_ticks ticks m av
        = Some (m', with_events (drop (length ticks) (events av)) av) /\
      m' = with_density (edge_density m') m /\
      (events av = [] -> loop_ticks ticks m av = Some (m', av))).
Proof.
  intros Hoff.
  assert (Hrun : forall ticks m0 a, active a = false ->
            exists m', update_calls ticks m0 a = Some (m', a) /\
                       m' = with_density (edge_density m') m0).
  { induction ticks as [|[[[d speed] dt] now] rest IH]; intros m0 a Ha; cbn.
    - exists m0. split; [reflexivity | now destruct m0].
    - rewrite update_inactive by assumption.
      destruct (IH (with_density d m0) a Ha) as (m' & Hr & Hm').
      exists m'. split; [exact Hr |].
      rewrite Hm' at 1. reflexivity. }
  assert (Hloop : forall ticks m0 a, active a = false ->
            exists m', loop_ticks ticks m0 a
                         = Some (m', with_events (drop (length ticks) (events a)) a) /\
                       m' = with_density (edge_density m') m0).
  { induction ticks as [|[[[d speed] dt] now] rest IH]; intros m0 a Ha;
      cbn [loop_ticks length].
    - exists m0. split; [now destruct a | now destruct m0].
    - rewrite update_inactive by assumption.
      destruct (IH (with_density d m0) (pop_event a) Ha) as (m' & Hr & Hm').
      exists m'. split; [| rewrite Hm' at 1; reflexivity].
      rewrite Hr. unfold pop_event, with_events. cbn.
      now rewrite drop_tail. }
  split; [intros; now apply update_inactive |].
  split; [intros ticks; now apply Hrun |].
  split.
  - intros ticks av0. destruct (Hrun ticks m (cancel av0) eq_refl) as (m' & Hr & _).
    eauto.
  - intros ticks. destruct (Hloop ticks m av Hoff) as (m' & Hr & Hm').
    exists m'. split; [exact Hr | split; [exact Hm' |]].
    intros He. rewrite Hr, He, drop_nil. f_equal. f_equal.
    rewrite <- He. now destruct av.
Qed.

(** ** The weighted graph *)

Lemma alist_get_set {V} (k k' : node) (x : V) (l : list (node * V)) :
  alist_get k (alist_set k' x l) = if k =? k' then Some x else alist_get k l.
Proof.
  induction l as [|[a y] l IH]; cbn.
  - now destruct (k =? k').
  - destruct (Z.eqb_spec k' a) as [->|Hne]; cbn.
    + now destruct (k =? a).
    + destruct (Z.eqb_spec k a) as [->|Hka].
      * destruct (Z.eqb_spec a k'); [congruence | reflexivity].
      * exact IH.
Qed.

Lemma alist_get_snoc {V} (k n : node) (x : V) (l : list (node * V)) :
  alist_get k (l ++ [(n, x)]) =
  match alist_get k l with
  | Some y => Some y
  | None => if k =? n then Some x else None
  end.
Proof.
  induction l as [|[a y] l IH]; cbn; [reflexivity |].
  now destruct (k =? a).
Qed.

Lemma has_node_add_node (n x : node) (G : Graph) :
  graph_has_node (add_node n G) x = graph_has_node G x || (x =? n).
Proof.
  unfold add_node, graph_has_node.
  destruct (alist_get n G) eqn:Hn.
  - destruct (alist_get x G) eqn:Hx; [reflexivity |].
    destruct (Z.eqb_spec x n) as [->|]; [congruence | reflexivity].
  - rewrite alist_get_snoc. destruct (alist_get x G); [reflexivity |].
    now destruct (x =? n).
Qed.

Lemma edge_weight_add_node (n x y : node) (G : Graph) :
  edge_weight (add_node n G) x y = edge_weight G x y.
Proof.
  unfold add_node, graph_has_node, edge_weight.
  destruct (alist_get n G) eqn:Hn; [reflexivity |].
  rewrite alist_get_snoc. destruct (alist_get x G); [reflexivity |].
  now destruct (x =? n).
Qed.

Lemma has_node_set_adj (a b x : node) (w : Z) (G : Graph) :
  graph_has_node (set_adj a b w G) x = graph_has_node G x.
Proof.
  unfold set_adj, graph_has_node.
  destruct (alist_get a G) eqn:Ha; [| reflexivity].
  rewrite alist_get_set. destruct (Z.eqb_spec x a) as [->|]; [now rewrite Ha | reflexivity].
Qed.

Lemma edge_weight_set_adj (a b x y : node) (w : Z) (G : Graph) :
  graph_has_node G a = true ->
  edge_weight (set_adj a b w G) x y =
  if (x =? a) && (y =? b) then Some w else edge_weight G x y.
Proof.
  unfold set_adj, graph_has_node, edge_weight.
  destruct (alist_get a G) as [nb|] eqn:Ha; [intros _ | discriminate].
  rewrite alist_get_set. destruct (Z.eqb_spec x a) as [->|]; cbn.
  - rewrite alist_get_set, Ha. reflexivity.
  - reflexivity.
Qed.

(** [add_edge] sets the weight in both directions and nowhere else. *)
Lemma edge_weight_add_edge (u v x y : node) (w : Z) (G : Graph) :
  edge_weight (add_edge u v w G) x y =
  if ((x =? u) && (y =? v)) || ((x =? v) && (y =? u)) then Some w
  else edge_weight G x y.
Proof.
  unfold add_edge.
  rewrite edge_weight_set_adj.
  2:{ rewrite has_node_set_adj, has_node_add_node, Z.eqb_refl. apply orb_true_r. }
  rewrite edge_weight_set_adj.
  2:{ rewrite !has_node_add_node, Z.eqb_refl. now rewrite orb_true_r. }
  rewrite !edge_weight_add_node.
  destruct ((x =? v) && (y =? u)); [now rewrite orb_true_r |].
  now rewrite orb_false_r.
Qed.

(** ** The cubic congestion cost *)

Lemma cube_lt (a b : Z) : a < b -> a ^ 3 < b ^ 3.
Proof.
  intros H.
  replace (a ^ 3) with (a * a * a) by ring.
  replace (b ^ 3) with (b * b * b) by ring.
  assert (Hs : 0 <= (2 * a + b) * (2 * a + b)) by apply Z.square_nonneg.
  assert (Hq : 0 < a * a + a * b + b * b).
  { destruct (Z.eq_dec b 0) as [->|Hb]; [nia |].
    assert (0 < b * b) by nia. nia. }
  nia.
Qed.

Lemma congestion_cost_lt (n : nat) (d1 d2 : Z) :
  (0 < n)%nat -> d1 < d2 -> congestion_cost n d1 < congestion_cost n d2.
Proof.
  intros Hn Hd. unfold congestion_cost.
  apply cube_lt in Hd. nia.
Qed.

Lemma congestion_cost_inj (n : nat) (d1 d2 : Z) :
  (0 < n)%nat -> congestion_cost n d1 = congestion_cost n d2 -> d1 = d2.
Proof.
  intros Hn He.
  destruct (Z.lt_trichotomy d1 d2) as [H|[H|H]]; [| exact H |];
    apply (congestion_cost_lt n) in H; try assumption; lia.
Qed.

(** ** The rebuild *)

Lemma build_step_inv (G : Graph) (m : MapEngine) (c : node * node) :
  weights_from (edge_density m) (phys_path_cache m) G ->
  let r := build_step (G, m) c in
  weights_from (edge_density m) (phys_path_cache (snd r)) (fst r) /\
  snd r = with_cache (phys_path_cache (snd r)) m.
Proof.
  intros Hw. destruct c as [u v]. unfold build_step. cbn [fst snd].
  destruct (get_phys_path_frame m u v) as [Hsub Hm'].
  destruct (get_phys_path m u v) as [[[|x r]|] m'] eqn:E; cbn [fst snd] in *.
  - split; [| exact Hm']. intros a b w Hab.
    destruct (Hw a b w Hab) as (p & Hp & Hne & ->).
    exists p. eauto using lookup_weaken.
  - split; [| exact Hm'].
    assert (Hd : edge_density m' = edge_density m) by now rewrite Hm'.
    apply get_phys_path_stores in E.
    intros a b w. rewrite edge_weight_add_edge, Hd.
    destruct (((a =? u) && (b =? v)) || ((a =? v) && (b =? u))) eqn:Hc.
    + intros [= <-]. exists (x :: r).
      split; [| split; [discriminate | reflexivity]].
      apply orb_true_iff in Hc.
      destruct Hc as [Hc|Hc]; apply andb_true_iff in Hc; destruct Hc as [H1 H2];
        apply Z.eqb_eq in H1, H2; subst a b.
      * exact E.
      * rewrite sorted_pair_comm. exact E.
    + intros Hab. destruct (Hw _ _ _ Hab) as (p & Hp & Hne & ->).
      exists p. eauto using lookup_weaken.
  - split; [| exact Hm']. intros a b w Hab.
    destruct (Hw a b w Hab) as (p & Hp & Hne & ->).
    exists p. eauto using lookup_weaken.
Qed.

Lemma build_fold_inv (conns : list (node * node)) :
  forall (G : Graph) (m : MapEngine),
    weights_from (edge_density m) (phys_path_cache m) G ->
    let r := fold_left build_step conns (G, m) in
    weights_from (edge_density m) (phys_path_cache (snd r)) (fst r) /\
    snd r = with_cache (phys_path_cache (snd r)) m.
Proof.
  induction conns as [|c conns IH]; intros G m Hw; cbn.
  - split; [exact Hw | now destruct m].
  - destruct (build_step_inv G m c Hw) as [Hw1 Hm1].
    destruct (build_step (G, m) c) as [G1 m1]; cbn [fst snd] in *.
    assert (Hd : edge_density m1 = edge_density m) by now rewrite Hm1.
    rewrite <- Hd in Hw1.
    destruct (IH G1 m1 Hw1) as [Hw2 Hm2].
    rewrite Hd in Hw2. split; [exact Hw2 |].
    rewrite Hm2 at 1. rewrite Hm1. reflexivity.
Qed.

(** The loop of the code computes the summed density of the specification. *)
Lemma path_traffic_from (dens : gmap edge_key Z) (p : path) (acc : Z) :
  fold_left (fun t ab => t + default 0 (dens !! sorted_pair (fst ab) (snd ab)))
            (zip p (tail p)) acc
  = acc + summed_density dens p.
Proof.
  revert acc. induction p as [|a r IH]; intros acc; [cbn; lia |].
  destruct r as [|b r']; [cbn; lia |].
  change (zip (a :: b :: r') (tail (a :: b :: r')))
    with ((a, b) :: zip (b :: r') (tail (b :: r'))).
  cbn [fold_left fst snd]. rewrite IH.
  change (summed_density dens (a :: b :: r'))
    with (default 0 (dens !! sorted_pair a b) + summed_density dens (b :: r')).
  lia.
Qed.

Lemma path_traffic_summed (dens : gmap edge_key Z) (p : path) :
  path_traffic dens p = summed_density dens p.
Proof. unfold path_traffic. now rewrite path_traffic_from. Qed.

Lemma edge_cost_summed (dens : gmap edge_key Z) (p : path) :
  edge_cost dens p = Z.of_nat (length p) * (1 + summed_density dens p ^ 3).
Proof. unfold edge_cost, congestion_cost. now rewrite path_traffic_summed. Qed.

Lemma rebuild_weights (gs : AbstractGraph) (m : MapEngine) :
  weights_from (edge_density m) (phys_path_cache (snd (rebuild gs m)))
    (fst (rebuild gs m)).
Proof.
  assert (H0 : weights_from (edge_density m) (phys_path_cache m) empty_graph).
  { intros x y w H. discriminate. }
  pose proof (build_fold_inv (connections gs) empty_graph m H0) as Hr.
  cbv zeta in Hr. destruct Hr as [Hw _].
  unfold rebuild.
  destruct (fold_left build_step (connections gs) (empty_graph, m)) as [G m'].
  exact Hw.
Qed.

(** *** Which pairs get an edge *)

Lemma sorted_pair_inj (u v x y : node) :
  sorted_pair u v = sorted_pair x y -> (u = x /\ v = y) \/ (u = y /\ v = x).
Proof.
  unfold sorted_pair.
  destruct (Z.ltb_spec v u), (Z.ltb_spec y x); intros [= -> ->]; auto.
Qed.

Lemma add_edge_keeps_edges (u v a b : node) (w : Z) (G : Graph) :
  is_Some (edge_weight G a b) -> is_Some (edge_weight (add_edge u v w G) a b).
Proof.
  rewrite edge_weight_add_edge.
  destruct (((a =? u) && (b =? v)) || ((a =? v) && (b =? u))); eauto.
Qed.

Lemma add_edge_same_key (u v a b : node) (w : Z) (G : Graph) :
  sorted_pair a b = sorted_pair u v <->
  ((a =? u) && (b =? v)) || ((a =? v) && (b =? u)) = true.
Proof.
  rewrite orb_true_iff, !andb_true_iff, !Z.eqb_eq. split.
  - apply sorted_pair_inj.
  - intros [[-> ->]|[-> ->]]; [reflexivity | apply sorted_pair_comm].
Qed.

Lemma add_edge_symmetric (u v : node) (w : Z) (G : Graph) :
  graph_symmetric G -> graph_symmetric (add_edge u v w G).
Proof.
  intros Hs x y. rewrite !edge_weight_add_edge, (Hs x y).
  rewrite (orb_comm ((y =? u) && (x =? v))).
  rewrite (andb_comm (y =? v)), (andb_comm (y =? u)). reflexivity.
Qed.

(** What one loop iteration does to graph and cache. *)
Lemma build_step_shape (G : Graph) (m : MapEngine) (u v : node) :
  let r := build_step (G, m) (u, v) in
  let k := sorted_pair u v in
  G_proj (snd r) = G_proj m /\
  (phys_path_cache (snd r) = phys_path_cache m \/
   exists p, phys_path_cache m !! k = None /\
             nx_shortest_path (G_proj m) W_length u v = Some p /\
             phys_path_cache (snd r) = <[k := p]> (phys_path_cache m)) /\
  match phys_path_cache (snd r) !! k with
  | Some (_ :: _) => exists w, fst r = add_edge u v w G
  | Some [] => fst r = G
  | None => nx_shortest_path (G_proj m) W_length u v = None /\ fst r = G
  end.
Proof.
  cbv zeta. unfold build_step, get_phys_path. cbn [fst snd].
  destruct (phys_path_cache m !! sorted_pair u v) as [p|] eqn:Hc.
  - destruct p as [|x l]; cbn [fst snd]; rewrite Hc; eauto.
  - destruct (nx_shortest_path (G_proj m) W_length u v) as [p|] eqn:Hsp.
    + destruct p as [|x l]; cbn; rewrite lookup_insert_eq; eauto 10.
    + cbn. rewrite Hc. eauto.
Qed.

Lemma build_inv_step (R : RoadGraph) (c0 c c' : gmap edge_key path)
    (done : list (node * node)) (G G' : Graph) (u v : node) :
  build_inv R c0 done G c ->
  (c' = c \/
   exists p, c !! sorted_pair u v = None /\
             nx_shortest_path R W_length u v = Some p /\
             c' = <[sorted_pair u v := p]> c) ->
  match c' !! sorted_pair u v with
  | Some (_ :: _) => exists w, G' = add_edge u v w G
  | Some [] => G' = G
  | None => nx_shortest_path R W_length u v = None /\ G' = G
  end ->
  build_inv R c0 (done ++ [(u, v)]) G' c'.
Proof using nx_shortest_path.
  clear abs_shortest_path abs_shortest_path_length hypot atan2_deg.
  intros (Hsym & Hsnd & Hcmp & Hprv) Hc' Hshape.
  assert (Hkeep : forall a b, is_Some (edge_weight G a b) ->
                              is_Some (edge_weight G' a b)).
  { intros a b Hab. destruct (c' !! sorted_pair u v) as [[|x l]|].
    - now subst G'.
    - destruct Hshape as [w ->]. now apply add_edge_keeps_edges.
    - destruct Hshape as [_ ->]. exact Hab. }
  assert (Hlook : forall k q, c' !! k = Some q ->
            c !! k = Some q \/
            (k = sorted_pair u v /\ c !! k = None /\
             nx_shortest_path R W_length u v = Some q)).
  { intros k q Hk. destruct Hc' as [->|(p & Hn & Hsp & ->)]; [now left |].
    destruct (decide (sorted_pair u v = k)) as [<-|Hne].
    - rewrite lookup_insert_eq in Hk. injection Hk as <-. now right.
    - rewrite lookup_insert_ne in Hk by assumption. now left. }
  assert (Hmono : forall k q, c !! k = Some q -> c' !! k = Some q).
  { intros k q Hk. destruct Hc' as [->|(p & Hn & Hsp & ->)]; [exact Hk |].
    rewrite lookup_insert_ne; [exact Hk | congruence]. }
  repeat split.
  - destruct (c' !! sorted_pair u v) as [[|x l]|].
    + now subst G'.
    + destruct Hshape as [w ->]. now apply add_edge_symmetric.
    + destruct Hshape as [_ ->]. exact Hsym.
  - intros x y Hxy.
    assert (Hold : is_Some (edge_weight G x y) ->
              exists a b, (a, b) ∈ done ++ [(u, v)] /\
                          sorted_pair a b = sorted_pair x y).
    { intros H. destruct (Hsnd x y H) as (a & b & Hin & Hk).
      exists a, b. split; [apply elem_of_app; now left | exact Hk]. }
    destruct (c' !! sorted_pair u v) as [[|x0 l]|].
    + subst G'. now apply Hold.
    + destruct Hshape as [w ->]. rewrite edge_weight_add_edge in Hxy.
      destruct (((x =? u) && (y =? v)) || ((x =? v) && (y =? u))) eqn:Hcond.
      * exists u, v. split; [apply elem_of_app; right; now apply list_elem_of_singleton |].
        symmetry. now apply (add_edge_same_key u v x y 0 G).
      * now apply Hold.
    + destruct Hshape as [_ ->]. now apply Hold.
  - intros a b Hin. apply elem_of_app in Hin.
    destruct Hin as [Hin|Hin].
    + specialize (Hcmp a b Hin).
      destruct (c' !! sorted_pair a b) as [q|] eqn:Hq.
      * destruct (Hlook _ _ Hq) as [Hold|(Hk & Hn & Hsp)].
        -- rewrite Hold in Hcmp. destruct q; [exact I | now apply Hkeep].
        -- destruct q as [|x0 l]; [exact I |].
           rewrite <- Hk, Hq in Hshape. destruct Hshape as [w ->].
           rewrite edge_weight_add_edge.
           apply (add_edge_same_key u v a b 0 G) in Hk. rewrite Hk. eauto.
      * destruct (c !! sorted_pair a b) as [q|] eqn:Hold; [| exact Hcmp].
        apply Hmono in Hold. congruence.
    + apply list_elem_of_singleton in Hin. injection Hin as -> ->.
      destruct (c' !! sorted_pair u v) as [[|x0 l]|]; [exact I | | tauto].
      destruct Hshape as [w ->]. rewrite edge_weight_add_edge, !Z.eqb_refl. cbn. eauto.
  - intros k q Hk. destruct (Hlook _ _ Hk) as [Hold|(-> & Hn & Hsp)].
    + destruct (Hprv _ _ Hold) as [H0|(a & b & Hin & Hab & Hsp)]; [now left |].
      right. exists a, b. split; [apply elem_of_app; now left | now split].
    + right. exists u, v.
      split; [apply elem_of_app; right; now apply list_elem_of_singleton | now split].
Qed.

Lemma build_fold_edges (c0 : gmap edge_key path) (conns : list (node * node)) :
  forall (done : list (node * node)) (G : Graph) (m : MapEngine),
    build_inv (G_proj m) c0 done G (phys_path_cache m) ->
    let r := fold_left build_step conns (G, m) in
    build_inv (G_proj m) c0 (done ++ conns) (fst r) (phys_path_cache (snd r)) /\
    G_proj (snd r) = G_proj m /\
    phys_path_cache m ⊆ phys_path_cache (snd r).
Proof using nx_shortest_path.
  clear abs_shortest_path abs_shortest_path_length hypot atan2_deg.
  induction conns as [|[u v] conns IH]; intros done G m Hinv; cbn [fold_left].
  - rewrite app_nil_r. now split.
  - destruct (build_step_shape G m u v) as (HR & Hc' & Hshape).
    pose proof (build_inv_step _ _ _ _ _ _ _ u v Hinv Hc' Hshape) as Hinv'.
    assert (Hsub : phys_path_cache m ⊆ phys_path_cache (snd (build_step (G, m) (u, v)))).
    { destruct Hc' as [->|(p & Hn & _ & ->)]; [reflexivity | now apply insert_subseteq]. }
    destruct (build_step (G, m) (u, v)) as [G1 m1]. cbn [fst snd] in *.
    rewrite <- HR in Hinv'. destruct (IH _ _ _ Hinv') as (Hi & Hr & Hs).
    rewrite <- app_assoc in Hi. cbn [app] in Hi. rewrite HR in Hi.
    split; [exact Hi | split; [congruence | now transitivity (phys_path_cache m1)]].
Qed.

Lemma build_inv_init (R : RoadGraph) (c0 : gmap edge_key path) :
  build_inv R c0 [] empty_graph c0.
Proof.
  repeat split.
  - intros x y Hxy. destruct Hxy as [w Hw]. discriminate.
  - intros u v Hin. now apply elem_of_nil in Hin.
  - intros k p Hk. now left.
Qed.

Lemma rebuild_inv (gs : AbstractGraph) (m : MapEngine) :
  let r := rebuild gs m in
  build_inv (G_proj m) (phys_path_cache m) (connections gs) (fst r)
    (phys_path_cache (snd r)) /\
  G_proj (snd r) = G_proj m /\
  phys_path_cache m ⊆ phys_path_cache (snd r) /\
  G_abs_cached (snd r) = Some (fst r) /\
  last_edge_density_snapshot (snd r) = edge_density (snd r).
Proof using nx_shortest_path.
  clear abs_shortest_path abs_shortest_path_length hypot atan2_deg.
  pose proof (build_fold_edges (phys_path_cache m) (connections gs) [] empty_graph m
                (build_inv_init _ _)) as H.
  cbv zeta in H |- *. unfold rebuild.
  destruct (fold_left build_step (connections gs) (empty_graph, m)) as [G m'].
  cbn [fst snd app] in H |- *. destruct H as (Hi & Hr & Hs).
  split; [exact Hi | split; [exact Hr | split; [exact Hs | split; reflexivity]]].
Qed.

Lemma rebuild_density (gs : AbstractGraph) (m : MapEngine) :
  edge_density (snd (rebuild gs m)) = edge_density m.
Proof using nx_shortest_path.
  clear abs_shortest_path abs_shortest_path_length hypot atan2_deg.
  assert (H0 : weights_from (edge_density m) (phys_path_cache m) empty_graph).
  { intros x y w H. discriminate. }
  pose proof (build_fold_inv (connections gs) empty_graph m H0) as Hr.
  cbv zeta in Hr. destruct Hr as [_ Hm]. unfold rebuild.
  destruct (fold_left build_step (connections gs) (empty_graph, m)) as [G m'].
  cbn [snd] in *. now rewrite Hm.
Qed.

Lemma same_key_edge (G : Graph) (u v x y : node) :
  graph_symmetric G ->
  sorted_pair u v = sorted_pair x y ->
  is_Some (edge_weight G u v) -> is_Some (edge_weight G x y).
Proof.
  intros Hs Hk H. destruct (sorted_pair_inj _ _ _ _ Hk) as [[-> ->]|[-> ->]].
  - exact H.
  - now rewrite Hs.
Qed.

(** Rebuilding again from the engine a rebuild left, under any density map,
    connects the same pairs over the same cached paths. *)
Lemma rebuild_again_same_edges (gs : AbstractGraph) (m : MapEngine)
    (d2 : gmap edge_key Z) :
  let r1 := rebuild gs m in
  let r2 := rebuild gs (with_density d2 (snd r1)) in
  same_edges (fst r1) (fst r2) /\
  phys_path_cache (snd r1) ⊆ phys_path_cache (snd r2).
Proof using nx_shortest_path.
  clear abs_shortest_path abs_shortest_path_length hypot atan2_deg.
  intros r1 r2.
  destruct (rebuild_inv gs m) as ((Hsym1 & Hsnd1 & Hcmp1 & _) & HR1 & _).
  destruct (rebuild_inv gs (with_density d2 (snd r1)))
    as ((Hsym2 & Hsnd2 & Hcmp2 & Hprv2) & _ & Hsub & _).
  pose proof (rebuild_weights gs m) as Hw1.
  pose proof (rebuild_weights gs (with_density d2 (snd r1))) as Hw2.
  fold r1 in Hsym1, Hsnd1, Hcmp1, HR1, Hw1.
  fold r2 in Hsym2, Hsnd2, Hcmp2, Hprv2, Hsub, Hw2.
  cbn [G_proj phys_path_cache with_density] in Hcmp2, Hprv2, Hsub.
  rewrite HR1 in Hcmp2, Hprv2.
  split; [| exact Hsub].
  intros x y. split; intros [w Hw].
  - destruct (Hw1 x y w Hw) as (p & Hp & Hne & _).
    destruct (Hsnd1 x y (ex_intro _ w Hw)) as (u & v & Hin & Hk).
    specialize (Hcmp2 u v Hin).
    rewrite Hk, (lookup_weaken _ _ _ _ Hp Hsub) in Hcmp2.
    destruct p as [|x0 l]; [congruence |].
    now apply (same_key_edge _ u v).
  - destruct (Hw2 x y w Hw) as (p & Hp & Hne & _).
    destruct (Hsnd2 x y (ex_intro _ w Hw)) as (u & v & Hin & Hk).
    pose proof (Hcmp1 u v Hin) as Hc. rewrite Hk in Hc.
    destruct (phys_path_cache (snd r1) !! sorted_pair x y) as [[|x0 l]|] eqn:H1.
    + apply (lookup_weaken _ _ _ _ H1) in Hsub. congruence.
    + now apply (same_key_edge _ u v).
    + destruct (Hprv2 _ _ Hp) as [Hold|(a & b & Hab & Hkab & Hsp)]; [congruence |].
      pose proof (Hcmp1 a b Hab) as Hc'. rewrite Hkab, H1 in Hc'. congruence.
Qed.

(** The weights of one pair before and after such a second rebuild are the
    costs of the same cached path under the two density maps. *)
Lemma rebuild_twice_weights (gs : AbstractGraph) (m : MapEngine)
    (d2 : gmap edge_key Z) (u v : node) (w1 w2 : Z) :
  let r1 := rebuild gs m in
  let r2 := rebuild gs (with_density d2 (snd r1)) in
  edge_weight (fst r1) u v = Some w1 ->
  edge_weight (fst r2) u v = Some w2 ->
  exists p : path,
    phys_path_cache (snd r1) !! sorted_pair u v = Some p /\ p <> [] /\
    w1 = edge_cost (edge_density m) p /\ w2 = edge_cost d2 p.
Proof using nx_shortest_path.
  clear abs_shortest_path abs_shortest_path_length hypot atan2_deg.
  intros r1 r2 H1 H2.
  destruct (rebuild_again_same_edges gs m d2) as [_ Hsub].
  fold r1 in Hsub. fold r2 in Hsub.
  destruct (rebuild_weights gs m u v w1 H1) as (p & Hp & Hn & ->).
  destruct (rebuild_weights gs (with_density d2 (snd r1)) u v w2 H2)
    as (p2 & Hp2 & _ & ->).
  fold r1 in Hp. fold r2 in Hp2.
  rewrite (lookup_weaken _ _ _ _ Hp Hsub) in Hp2. injection Hp2 as <-.
  exists p. now repeat split.
Qed.

Lemma build_rebuilds (gs : AbstractGraph) (force : bool) (m : MapEngine) :
  force = true \/ last_edge_density_snapshot m <> edge_density m \/
  G_abs_cached m = None ->
  build_abstract_graph gs force m = rebuild gs m.
Proof.
  unfold build_abstract_graph. intros [->|[Hs| Hc]].
  - reflexivity.
  - rewrite bool_decide_eq_false_2 by assumption. now rewrite andb_false_r.
  - rewrite Hc. now destruct (negb force && _).
Qed.

(** C4: whenever a build recomputes the graph (forced, stale snapshot, or no
    cached graph), the weight of every abstract edge is [n * (1 + d^3)],
    where [n] is the node count of the physical path cached for its endpoints
    and [d] the summed density along that path under the current density
    map.  For that path the weight is strictly increasing in the density:
    when the graph is rebuilt under another density map the edge rides on
    the same path, its weight is [n * (1 + d2^3)] for the summed density
    [d2] under the new map, and it is larger whenever [d2] is; the formula
    grows strictly in [d], in particular from 0 to 1 to 2. *)
Theorem abstract_edge_weight_cubic (gs : AbstractGraph) (force : bool)
    (m : MapEngine) (u v : node) (w : Z) :
  force = true \/ last_edge_density_snapshot m <> edge_density m \/
  G_abs_cached m = None ->
  edge_weight (fst (build_abstract_graph gs force m)) u v = Some w ->
  exists p : path,
    phys_path_cache (snd (build_abstract_graph gs force m)) !! sorted_pair u v = Some p /\
    (0 < length p)%nat /\
    w = Z.of_nat (length p) * (1 + summed_density (edge_density m) p ^ 3) /\
    (forall (d2 : gmap edge_key Z) (w2 : Z),
       edge_weight
         (fst (rebuild gs (with_density d2 (snd (build_abstract_graph gs force m)))))
         u v = Some w2 ->
       w2 = Z.of_nat (length p) * (1 + summed_density d2 p ^ 3) /\
       (summed_density (edge_density m) p < summed_density d2 p -> w < w2)) /\
    (forall d1 d2 : Z, d1 < d2 ->
       Z.of_nat (length p) * (1 + d1 ^ 3) < Z.of_nat (length p) * (1 + d2 ^ 3)) /\
    Z.of_nat (length p) * (1 + 0 ^ 3) < Z.of_nat (length p) * (1 + 1 ^ 3) /\
    Z.of_nat (length p) * (1 + 1 ^ 3) < Z.of_nat (length p) * (1 + 2 ^ 3).
Proof using nx_shortest_path.
  clear abs_shortest_path abs_shortest_path_length hypot atan2_deg.
  intros Hre. rewrite (build_rebuilds gs force m Hre). intros Hw.
  destruct (rebuild_weights gs m u v w Hw) as (p & Hp & Hne & Hwp).
  assert (Hlen : (0 < length p)%nat) by (destruct p; [congruence | cbn; lia]).
  assert (Hmono : forall d1 d2 : Z, d1 < d2 ->
            Z.of_nat (length p) * (1 + d1 ^ 3) < Z.of_nat (length p) * (1 + d2 ^ 3)).
  { intros d1 d2 Hd. exact (congestion_cost_lt (length p) d1 d2 Hlen Hd). }
  exists p. split; [exact Hp |]. split; [exact Hlen |].
  split; [rewrite Hwp; apply edge_cost_summed |].
  split; [| split; [exact Hmono | split; apply Hmono; lia]].
  intros d2 w2 Hw2.
  destruct (rebuild_twice_weights gs m d2 u v w w2 Hw Hw2) as (q & Hq & _ & Hw1 & ->).
  rewrite Hp in Hq. injection Hq as <-.
  split; [apply edge_cost_summed |].
  intros Hlt. rewrite Hw1, !edge_cost_summed. now apply Hmono.
Qed.

(** C1, amended: with the snapshot equal to the current density map and a
    cached graph present, an unforced build returns that graph and leaves the
    engine as it is.  After a rebuild, when the density map is replaced and
    differs from the snapshot, the next unforced build rebuilds; the new graph
    connects the same pairs over the same cached paths, each weight is
    [n * (1 + d^3)] for the node count [n] of the path and its summed
    density [d] under the map in force, and an edge's weight differs from
    its previous weight exactly when the summed density along its cached
    physical path differs between the two maps. *)
Theorem snapshot_reuse_and_refresh (gs : AbstractGraph) (m : MapEngine) :
  (forall G, G_abs_cached m = Some G ->
             last_edge_density_snapshot m = edge_density m ->
             build_abstract_graph gs false m = (G, m)) /\
  (forall d2,
     let r1 := rebuild gs m in
     let r2 := build_abstract_graph gs false (with_density d2 (snd r1)) in
     (d2 <> edge_density m -> r2 = rebuild gs (with_density d2 (snd r1))) /\
     same_edges (fst r1) (fst r2) /\
     forall u v w1 w2,
       edge_weight (fst r1) u v = Some w1 ->
       edge_weight (fst r2) u v = Some w2 ->
       exists p : path,
         phys_path_cache (snd r1) !! sorted_pair u v = Some p /\
         w1 = Z.of_nat (length p) * (1 + summed_density (edge_density m) p ^ 3) /\
         w2 = Z.of_nat (length p) * (1 + summed_density d2 p ^ 3) /\
         (w1 = w2 <-> summed_density (edge_density m) p = summed_density d2 p)).
Proof using nx_shortest_path.
  clear abs_shortest_path abs_shortest_path_length hypot atan2_deg.
  split.
  - intros G HG Hs. unfold build_abstract_graph.
    rewrite bool_decide_eq_true_2 by assumption. cbn. now rewrite HG.
  - intros d2 r1 r2.
    destruct (rebuild_inv gs m) as (_ & _ & _ & Hcached & Hsnap).
    pose proof (rebuild_density gs m) as Hdens.
    pose proof (rebuild_weights gs m) as Hw1.
    fold r1 in Hcached, Hsnap, Hdens, Hw1.
    destruct (decide (d2 = edge_density m)) as [->|Hne].
    + assert (Hr2 : r2 = (fst r1, with_density (edge_density m) (snd r1))).
      { subst r2. unfold build_abstract_graph. cbn [last_edge_density_snapshot
          edge_density G_abs_cached with_density negb andb].
        rewrite bool_decide_eq_true_2 by congruence. now rewrite Hcached. }
      rewrite Hr2. cbn [fst snd]. split; [congruence | split; [now intros x y |]].
      intros u v w1 w2 H1 H2.
      destruct (Hw1 u v w1 H1) as (p & Hp & _ & Hwp).
      exists p. split; [exact Hp |].
      assert (E : w1 = w2) by congruence. subst w2.
      rewrite Hwp, edge_cost_summed. now repeat split.
    + assert (Hr2 : r2 = rebuild gs (with_density d2 (snd r1))).
      { subst r2. apply build_rebuilds. right. left. cbn. congruence. }
      split; [now intros _ |].
      destruct (rebuild_again_same_edges gs m d2) as [Hse Hsub].
      fold r1 in Hse, Hsub. rewrite <- Hr2 in Hse, Hsub.
      split; [exact Hse |].
      intros u v w1 w2 H1 H2.
      rewrite Hr2 in H2.
      destruct (rebuild_twice_weights gs m d2 u v w1 w2 H1 H2)
        as (p & Hp & Hn & -> & ->).
      exists p. split; [exact Hp |].
      rewrite !edge_cost_summed. split; [reflexivity | split; [reflexivity |]].
      split.
      * intros He. apply (congestion_cost_inj (length p)); [| exact He].
        destruct p; [congruence | cbn; lia].
      * now intros ->.
Qed.

(** ** The planner *)

(** C6: [calculate_mission_and_go] asks for an unforced build; when the
    current node or the destination is missing from that graph it asks once
    more with [force=True], and when one of them is still missing it returns
    normally with the alert "No Route!" and the vehicle deactivated, every
    other field of the vehicle (state label and events included) as before.
    The engine is the one left by exactly those two builds. *)
Theorem plan_no_route_after_forced_rebuild (m : MapEngine) (av : AV) :
  let r0 := build_abstract_graph (graph_sys m) false m in
  let r1 := build_abstract_graph (graph_sys m) true (snd r0) in
  absent (fst r0) av = true ->
  absent (fst r1) av = true ->
  let out := calculate_mission_and_go m av in
  out = (snd r1, alert_exit "No Route!" av) /\
  alert (snd out) = "No Route!" /\
  active (snd out) = false /\
  state (snd out) = state av /\
  events (snd out) = events av /\
  current_node (snd out) = current_node av /\
  final_dest (snd out) = final_dest av.
Proof.
  intros r0 r1 H0 H1 out.
  assert (Ho : out = (snd r1, alert_exit "No Route!" av)).
  { subst out. unfold calculate_mission_and_go. fold r0.
    destruct r0 as [G0 m0] eqn:E0. cbn [fst snd] in *. rewrite H0.
    fold r1. destruct r1 as [G1 m1] eqn:E1. cbn [fst snd] in *. now rewrite H1. }
  rewrite Ho. now cbn.
Qed.

(** When both endpoints are in the first graph there is no forced rebuild;
    when the retry finds them, planning goes on from the rebuilt graph. *)
Lemma plan_build_cases (m : MapEngine) (av : AV) :
  let r0 := build_abstract_graph (graph_sys m) false m in
  let r1 := build_abstract_graph (graph_sys m) true (snd r0) in
  (absent (fst r0) av = false ->
   calculate_mission_and_go m av = plan_on (fst r0) (snd r0) av) /\
  (absent (fst r0) av = true -> absent (fst r1) av = false ->
   calculate_mission_and_go m av = plan_on (fst r1) (snd r1) av).
Proof.
  intros r0 r1. unfold calculate_mission_and_go. fold r0.
  destruct r0 as [G0 m0] eqn:E0. cbn [fst snd] in *. split.
  - now intros ->.
  - intros ->. fold r1. destruct r1 as [G1 m1]. cbn [fst snd]. now intros ->.
Qed.

(** The physical leg never touches the route decision. *)
Lemma physical_leg_route (m : MapEngine) (av : AV) :
  let av' := snd (physical_leg m av) in
  next_node_target av' = next_node_target av /\
  projected_path av' = projected_path av /\
  current_node av' = current_node av /\
  final_dest av' = final_dest av.
Proof. unfold physical_leg. repeat case_match; now cbn. Qed.

(** ** The vehicle tick *)

Lemma check_dynamic_reroute_frame (m : MapEngine) (av av' : AV) (b : bool) (m' : MapEngine) :
  check_dynamic_reroute m av = (m', Some (av', b)) ->
  events av' = events av /\ active av' = active av /\ state av' = state av /\
  final_dest av' = final_dest av /\ current_node av' = current_node av /\
  last_recalc_t av' = last_recalc_t av.
Proof.
  unfold check_dynamic_reroute.
  repeat case_match; intros [= <- <- <-]; now cbn.
Qed.

Lemma periodic_check_frame (now : Q) (m : MapEngine) (av : AV) :
  let av' := snd (periodic_check now m av) in
  events av' = events av /\ active av' = active av /\ state av' = state av /\
  final_dest av' = final_dest av /\ current_node av' = current_node av.
Proof.
  unfold periodic_check.
  destruct (Qltb _ _); [| now cbn].
  destruct (check_dynamic_reroute m (with_last_recalc now av))
    as [m' [[av' b]|]] eqn:E; [| now cbn].
  apply check_dynamic_reroute_frame in E. cbn in E |- *.
  destruct E as (He & Ha & Hs & Hf & Hc & _). now repeat split.
Qed.

(** Queries and rebuilds leave the landmark table of the engine alone. *)
Lemma build_fold_sys (conns : list (node * node)) :
  forall (G : Graph) (m : MapEngine),
    graph_sys (snd (fold_left build_step conns (G, m))) = graph_sys m.
Proof.
  induction conns as [|[u v] conns IH]; intros G m; cbn [fold_left]; [reflexivity |].
  unfold build_step at 2. cbn [fst snd].
  destruct (get_phys_path_frame m u v) as [_ Hm'].
  destruct (get_phys_path m u v) as [[[|x r]|] m']; cbn [snd] in Hm';
    rewrite IH, Hm'; reflexivity.
Qed.

Lemma build_sys (gs : AbstractGraph) (force : bool) (m : MapEngine) :
  graph_sys (snd (build_abstract_graph gs force m)) = graph_sys m.
Proof.
  assert (Hr : graph_sys (snd (rebuild gs m)) = graph_sys m).
  { unfold rebuild. pose proof (build_fold_sys (connections gs) empty_graph m) as H.
    destruct (fold_left build_step (connections gs) (empty_graph, m)). exact H. }
  unfold build_abstract_graph.
  destruct (negb force && _); [| exact Hr].
  destruct (G_abs_cached m); [reflexivity | exact Hr].
Qed.

Lemma get_phys_path_sys (m : MapEngine) (u v : node) :
  graph_sys (snd (get_phys_path m u v)) = graph_sys m.
Proof. destruct (get_phys_path_frame m u v) as [_ ->]. reflexivity. Qed.

Lemma check_dynamic_reroute_sys (m : MapEngine) (av : AV) :
  graph_sys (fst (check_dynamic_reroute m av)) = graph_sys m.
Proof.
  unfold check_dynamic_reroute.
  pose proof (build_sys (graph_sys m) false m) as Hb.
  destruct (build_abstract_graph (graph_sys m) false m) as [G m1]. cbn [snd] in Hb.
  repeat case_match; cbn [fst]; try exact Hb;
    match goal with
    | H : get_phys_path m1 ?u ?v = (_, ?m2) |- graph_sys ?m2 = _ =>
        pose proof (get_phys_path_sys m1 u v) as Hg; rewrite H in Hg;
        cbn [snd] in Hg; now rewrite Hg
    end.
Qed.

Lemma periodic_check_sys (now : Q) (m : MapEngine) (av : AV) :
  graph_sys (fst (periodic_check now m av)) = graph_sys m.
Proof.
  unfold periodic_check. destruct (Qltb _ _); [| reflexivity].
  pose proof (check_dynamic_reroute_sys m (with_last_recalc now av)) as H.
  destruct (check_dynamic_reroute m (with_last_recalc now av)) as [m' [[av' b]|]];
    exact H.
Qed.

(** C7: in a MOVING tick, once the periodic check has run and the cursor is
    at the end of the leg's coordinates, the vehicle takes the leg's target as
    its current node.  If that node is the final destination the vehicle ends
    FINISHED and inactive with the arrival event as the one event appended;
    otherwise it ends WAITING with the timer at 1.0, still active, with the
    "Reached Node" event as the one event appended. *)
Theorem leg_end_transition (speed : Q) (dt : Z) (now : Q) (m : MapEngine) (av : AV) :
  active av = true ->
  state av = "MOVING" ->
  let r := periodic_check now m av in
  at_leg_end (snd r) = true ->
  let reached := next_node_target (snd r) in
  exists av',
    update speed dt now m av = Some (fst r, av') /\
    current_node av' = reached /\
    (reached = final_dest av ->
       state av' = "FINISHED" /\ active av' = false /\ alert av' = "Arrived" /\
       events av' = events av ++ [arrival_event]) /\
    (reached <> final_dest av ->
       state av' = "WAITING" /\ active av' = true /\ wait_timer av' = 1%Q /\
       events av' =
         events av ++ [("Reached Node " +:+ label_of (graph_sys m) reached,
                        (255, 255, 0))]).
Proof.
  intros Hact Hst r Hend reached.
  destruct (periodic_check_frame now m av) as (Hev & Ha & Hs & Hf & _).
  pose proof (periodic_check_sys now m av) as Hsys.
  fold r in Hev, Ha, Hs, Hf, Hsys. subst reached.
  destruct r as [m1 av1] eqn:Er. cbn [fst snd] in *.
  exists (arrive m1 av1). split; [| split; [| split]].
  - unfold update. rewrite Hact, Hst. cbn [negb String.eqb].
    change (String.eqb "MOVING" "WAITING") with false.
    change (String.eqb "MOVING" "MOVING") with true. cbv iota.
    fold r. rewrite Er, Hend. reflexivity.
  - unfold arrive. case_bool_decide; reflexivity.
  - intros Hr. unfold arrive. cbn [current_node final_dest with_current].
    rewrite bool_decide_eq_true_2 by congruence.
    cbn. now rewrite Hev.
  - intros Hr. unfold arrive. cbn [current_node final_dest with_current].
    rewrite bool_decide_eq_false_2 by congruence.
    cbn. now rewrite Hev, Ha, Hact, Hsys.
Qed.

(** ** The lookahead on an exact tie *)

Lemma cost_ltb_le_trans (a b c : cost) :
  cost_ltb a b = true -> cost_ltb c b = false -> cost_ltb a c = true.
Proof.
  destruct a as [x|], b as [y|], c as [z|]; cbn; try congruence;
    rewrite ?Z.ltb_lt, ?Z.ltb_ge; lia.
Qed.

Lemma cost_ltb_trans (a b c : cost) :
  cost_ltb a b = true -> cost_ltb b c = true -> cost_ltb a c = true.
Proof.
  destruct a as [x|], b as [y|], c as [z|]; cbn; try congruence;
    rewrite ?Z.ltb_lt; lia.
Qed.

Lemma cost_ltb_irrefl (a : cost) : cost_ltb a a = false.
Proof. destruct a; cbn; [apply Z.ltb_irrefl | reflexivity]. Qed.

Lemma lookahead_step_total (G : Graph) (fin : node)
    (best : option (cost * node)) (e : node * Z) :
  lookahead_step G fin best e =
  match best with
  | None => Some (lookahead_total G fin e, fst e)
  | Some (best_total, _) =>
      if cost_ltb (lookahead_total G fin e) best_total
      then Some (lookahead_total G fin e, fst e) else best
  end.
Proof. now destruct e. Qed.

(** The loop returns the first entry that attains the least total: entries
    before it are strictly worse, entries after it are not better. *)
Lemma lookahead_fold_spec (G : Graph) (fin : node) (l : adjacency) :
  forall best t n,
    fold_left (lookahead_step G fin) l best = Some (t, n) ->
    (best = Some (t, n) /\
     Forall (fun e => cost_ltb (lookahead_total G fin e) t = false) l) \/
    (exists l1 w l2,
       l = l1 ++ (n, w) :: l2 /\ t = lookahead_total G fin (n, w) /\
       Forall (fun e => cost_ltb t (lookahead_total G fin e) = true) l1 /\
       Forall (fun e => cost_ltb (lookahead_total G fin e) t = false) l2 /\
       match best with
       | Some (t0, _) => cost_ltb t t0 = true
       | None => True
       end).
Proof.
  induction l as [|e l IH]; intros best t n; cbn [fold_left].
  - intros ->. left. split; [reflexivity | constructor].
  - rewrite lookahead_step_total. intros Hf.
    destruct best as [[t0 n0]|].
    + destruct (cost_ltb (lookahead_total G fin e) t0) eqn:Hlt.
      * destruct (IH _ _ _ Hf) as [[[= <- <-] Hall]|(l1 & w & l2 & -> & -> & H1 & H2 & Hb)].
        -- right. exists [], (snd e), l. destruct e as [a b]. cbn [fst snd].
           repeat split; [constructor | exact Hall | exact Hlt].
        -- right. exists (e :: l1), w, l2.
           repeat split; try assumption.
           ++ constructor; assumption.
           ++ eauto using cost_ltb_trans.
      * destruct (IH _ _ _ Hf) as [[[= <- <-] Hall]|(l1 & w & l2 & -> & -> & H1 & H2 & Hb)].
        -- left. split; [reflexivity | constructor; assumption].
        -- right. exists (e :: l1), w, l2.
           repeat split; try assumption.
           constructor; [| assumption]. eauto using cost_ltb_le_trans.
    + destruct (IH _ _ _ Hf) as [[[= <- <-] Hall]|(l1 & w & l2 & -> & -> & H1 & H2 & Hb)].
      * right. exists [], (snd e), l. destruct e as [a b]. cbn [fst snd].
        repeat split; [constructor | exact Hall].
      * right. exists (e :: l1), w, l2.
        repeat split; try assumption. constructor; assumption.
Qed.

(** What does hold of the claim: a base hop whose total is strictly below
    that of every other neighbour is kept. *)
Lemma strictly_best_hop_is_kept (G : Graph) (m : MapEngine) (cur fin chosen : node)
    (w : Z) (adj : adjacency) (raw_proj : list node) :
  alist_get cur G = Some adj ->
  (chosen, w) ∈ adj ->
  (forall e, e ∈ adj -> fst e <> chosen ->
     cost_ltb (lookahead_total G fin (chosen, w)) (lookahead_total G fin e) = true) ->
  choose_route G m cur fin raw_proj chosen = (m, (chosen, raw_proj, false)).
Proof.
  intros Hadj Hin Hbest. unfold choose_route, best_neighbor, lookahead.
  rewrite Hadj. change (default [] (Some adj)) with adj.
  destruct (fold_left (lookahead_step G fin) adj None) as [[t n]|] eqn:Hf;
    [| reflexivity].
  cbn [fmap option_fmap option_map snd].
  case_bool_decide as Hne; [| reflexivity]. exfalso.
  destruct (lookahead_fold_spec _ _ _ _ _ _ Hf)
    as [[[=] _]|(l1 & w' & l2 & -> & -> & H1 & H2 & _)].
  assert (Hlt : cost_ltb (lookahead_total G fin (chosen, w))
                         (lookahead_total G fin (n, w')) = true).
  { apply Hbest; [| exact Hne]. apply elem_of_app. right. left. }
  rewrite Forall_forall in H1, H2.
  apply elem_of_app in Hin. destruct Hin as [Hin|Hin].
  - specialize (H1 _ Hin). pose proof (cost_ltb_trans _ _ _ H1 Hlt) as Hc.
    rewrite cost_ltb_irrefl in Hc. discriminate.
  - apply elem_of_cons in Hin. destruct Hin as [[= -> ->]|Hin]; [congruence |].
    specialize (H2 _ Hin). congruence.
Qed.

(** And what does not: an entry that ties with the base hop and comes
    earlier in the adjacency order takes its place. *)

Lemma choose_route_switch (G : Graph) (m m' : MapEngine) (cur fin bn chosen x : node)
    (r tl raw_proj : list node) :
  best_neighbor G cur fin = Some bn ->
  bn <> chosen ->
  get_phys_path m cur bn = (Some (x :: r), m') ->
  abs_shortest_path G bn fin = Some tl ->
  choose_route G m cur fin raw_proj chosen = (m', (bn, cur :: tl, true)).
Proof.
  intros Hb Hne Hp Ht. unfold choose_route.
  rewrite Hb, bool_decide_eq_true_2 by assumption. now rewrite Hp, Ht.
Qed.

Lemma tri_build :
  build_abstract_graph tri_sys false tri_engine = (tri_graph, tri_engine_built).
Proof. vm_compute. reflexivity. Qed.

Lemma tri_build_again :
  build_abstract_graph tri_sys false tri_engine_built = (tri_graph, tri_engine_built).
Proof. vm_compute. reflexivity. Qed.

Lemma tri_phys_12 :
  get_phys_path tri_engine_built 1 2 = (Some [1; 2], tri_engine_built).
Proof. apply get_phys_path_hit. reflexivity. Qed.

(** C3, as the code behaves: on the triangle the direct edge 1-3 and the way
    round through 2 have the same total, 4.  The loop keeps the first
    neighbour that reaches the minimum, which is 2; when the base path is the
    direct hop [1; 3], planning commits to 2 and projects [1; 2; 3], and the
    periodic check moves a vehicle already under way on 1-3 over to 2. *)
Theorem tie_switches_next_hop :
  abs_shortest_path tri_graph 1 3 = Some [1; 3] ->
  abs_shortest_path tri_graph 2 3 = Some [2; 3] ->
  abs_shortest_path_length tri_graph 2 3 = Some 2 ->
  abs_shortest_path_length tri_graph 3 3 = Some 0 ->
  cost_plus 2 (Fin 2) = cost_plus 4 (Fin 0) /\
  lookahead tri_graph 1 3 = Some (Fin 4, 2) /\
  (let av' := snd (calculate_mission_and_go tri_engine tri_av) in
   next_node_target av' = Some 2 /\ projected_path av' = [1; 2; 3]) /\
  (exists m' av',
     check_dynamic_reroute tri_engine_built tri_av_moving = (m', Some (av', true)) /\
     next_node_target tri_av_moving = Some 3 /\
     next_node_target av' = Some 2 /\
     coord_idx av' = 0%nat /\
     path_coords av' = [(0, 0)%Q; (300, 300)%Q]).
Proof.
  intros P13 P23 L23 L33.
  assert (Hl : lookahead tri_graph 1 3 = Some (Fin 4, 2)).
  { unfold lookahead.
    change (default [] (alist_get 1 tri_graph)) with [(2, 2); (3, 4)].
    cbn [fold_left]. unfold lookahead_step. rewrite L23, L33. reflexivity. }
  assert (Hb : best_neighbor tri_graph 1 3 = Some 2).
  { unfold best_neighbor. now rewrite Hl. }
  split; [reflexivity | split; [exact Hl | split]].
  - cbv zeta. unfold calculate_mission_and_go.
    change (graph_sys tri_engine) with tri_sys. rewrite tri_build.
    change (absent tri_graph tri_av) with false. cbv iota.
    unfold plan_on. cbn [current_node final_dest tri_av]. rewrite P13.
    rewrite (choose_route_switch tri_graph tri_engine_built tri_engine_built
               1 3 2 3 1 [2] [2; 3] [1; 3] Hb ltac:(lia) tri_phys_12 P23).
    match goal with
    | |- context [physical_leg ?m ?a] =>
        destruct (physical_leg_route m a) as (Hn & Hp & _)
    end.
    cbv zeta in Hn, Hp. rewrite Hn, Hp. now cbn.
  - eexists _, _. split.
    + unfold check_dynamic_reroute.
      change (graph_sys tri_engine_built) with tri_sys. rewrite tri_build_again.
      cbn [current_node final_dest tri_av_moving].
      change (graph_has_node tri_graph 1) with true. cbn [negb].
      rewrite P13, Hb, bool_decide_eq_true_2 by lia.
      rewrite tri_phys_12.
      change (coords_of tri_engine_built [1; 2])
        with (Some [(0, 0)%Q; (300, 300)%Q]).
      reflexivity.
    + now cbn.
Qed.

(** ** Landmark selection *)

Lemma insert_desc_perm (key : node -> nat) (x : node) (l : list node) :
  insert_desc key x l ≡ₚ x :: l.
Proof.
  induction l as [|y r IH]; cbn [insert_desc]; [reflexivity |].
  destruct (key x <? key y)%nat; [| reflexivity].
  rewrite IH. apply Permutation_swap.
Qed.

Lemma sorted_desc_perm (key : node -> nat) (l : list node) :
  sorted_desc key l ≡ₚ l.
Proof.
  induction l as [|x r IH]; cbn [sorted_desc foldr]; [reflexivity |].
  rewrite insert_desc_perm. now rewrite IH.
Qed.

Lemma insert_desc_sorted (key : node -> nat) (x : node) (l : list node) :
  desc_sorted key l -> desc_sorted key (insert_desc key x l).
Proof.
  induction l as [|y r IH]; cbn [insert_desc desc_sorted]; [now split |].
  intros [Hy Hr].
  destruct (Nat.ltb_spec (key x) (key y)) as [Hlt|Hge]; cbn [desc_sorted].
  - split; [| now apply IH].
    rewrite insert_desc_perm. constructor; [lia | exact Hy].
  - split; [| now split].
    constructor; [exact Hge |].
    eapply Forall_impl; [exact Hy |]. cbn. intros z Hz. lia.
Qed.

Lemma sorted_desc_sorted (key : node -> nat) (l : list node) :
  desc_sorted key (sorted_desc key l).
Proof.
  induction l as [|x r IH]; cbn [sorted_desc foldr]; [exact I |].
  now apply insert_desc_sorted.
Qed.

Lemma desc_sorted_sublist (key : node -> nat) (l1 l2 : list node) :
  l1 `sublist_of` l2 -> desc_sorted key l2 -> desc_sorted key l1.
Proof.
  induction 1 as [|x l1 l2 Hs IH|x l1 l2 Hs IH]; cbn.
  - trivial.
  - intros [Hx Hr]. split; [| now apply IH].
    rewrite Forall_forall in *. intros y Hy. apply Hx.
    eapply elem_of_sublist; eassumption.
  - intros [_ Hr]. now apply IH.
Qed.

Lemma spaced_snoc (xy : gmap node coord) (l : list node) (c : node) :
  spaced xy l -> Forall (fun s => apart xy s c) l -> spaced xy (l ++ [c]).
Proof.
  induction l as [|s r IH]; cbn.
  - intros _ _. split; [constructor | exact I].
  - intros [Hs Hr] Hc. apply Forall_cons in Hc as [Hsc Hrc]. split.
    + apply Forall_app. split; [exact Hs | now constructor].
    + now apply IH.
Qed.

Lemma spaced_lookup (xy : gmap node coord) (l : list node) (i j : nat) (s c : node) :
  spaced xy l -> (i < j)%nat -> l !! i = Some s -> l !! j = Some c -> apart xy s c.
Proof.
  revert i j. induction l as [|x r IH]; intros i j; cbn; [discriminate 3 |].
  intros [Hx Hr] Hij Hi Hj. destruct j as [|j]; [lia |].
  destruct i as [|i]; cbn in Hi, Hj.
  - injection Hi as ->. rewrite Forall_forall in Hx. apply Hx.
    eapply list_elem_of_lookup_2; eassumption.
  - apply (IH i j); [assumption | lia | assumption | assumption].
Qed.

Lemma far_from_all_true (xy : gmap node coord) (c : node) (cc : coord)
    (sel : list node) :
  xy !! c = Some cc ->
  far_from_all xy cc sel = Some true ->
  Forall (fun s => apart xy s c) sel.
Proof.
  intros Hc. induction sel as [|s r IH]; cbn; [constructor |].
  destruct (xy !! s) as [sc|] eqn:Hs; [| discriminate].
  destruct (Qltb min_dist _) eqn:Hfar; [| discriminate].
  intros H. constructor; [| now apply IH].
  exists sc, cc. now repeat split.
Qed.

Lemma select_landmarks_spec (xy : gmap node coord) (max_nodes : Z) (cands : list node) :
  forall sel out,
    select_landmarks xy max_nodes cands sel = Some out ->
    exists added,
      out = sel ++ added /\
      added `sublist_of` cands /\
      Z.of_nat (length out) <= Z.max max_nodes (Z.of_nat (length sel)) /\
      Forall (fun n => is_Some (xy !! n)) added /\
      (spaced xy sel -> spaced xy out).
Proof.
  induction cands as [|c rest IH]; intros sel out; cbn.
  - intros [= <-]. exists []. rewrite app_nil_r.
    repeat split; [constructor | lia | constructor | trivial].
  - destruct (Z.leb_spec max_nodes (Z.of_nat (length sel))) as [Hfull|Hroom].
    + intros [= <-]. exists []. rewrite app_nil_r.
      repeat split; [apply sublist_nil_l | lia | constructor | trivial].
    + destruct (xy !! c) as [cc|] eqn:Hc; [| discriminate].
      destruct (far_from_all xy cc sel) as [[|]|] eqn:Hfar; [| | discriminate].
      * intros H. destruct (IH _ _ H) as (added & -> & Hsub & Hlen & Hxy & Hsp).
        exists (c :: added).
        split; [now rewrite <- app_assoc |].
        split; [now constructor |].
        split; [rewrite !length_app in Hlen |- *; cbn [length] in Hlen |- *; lia |].
        split.
        -- constructor; [now exists cc | exact Hxy].
        -- intros Hsel. apply Hsp. apply spaced_snoc; [exact Hsel |].
           now apply (far_from_all_true xy c cc).
      * intros H. destruct (IH _ _ H) as (added & -> & Hsub & Hlen & Hxy & Hsp).
        exists added. repeat split; try assumption.
        now constructor.
Qed.

Lemma candidates_spec (G : RoadGraph) (road_nodes : list node) :
  desc_sorted (road_degree G) (candidates G road_nodes) /\
  candidates G road_nodes ≡ₚ filter (fun n => (2 < road_degree G n)%nat) road_nodes.
Proof. split; [apply sorted_desc_sorted | apply sorted_desc_perm]. Qed.

Lemma generate_abstraction_landmarks (road_nodes : list node) (max_nodes : Z)
    (m m' : MapEngine) (ns : list node) (gs : AbstractGraph) :
  generate_abstraction road_nodes max_nodes m = Some (ns, gs, m') ->
  ns `sublist_of` candidates (G_proj m) road_nodes /\
  Z.of_nat (length ns) <= Z.max max_nodes 0 /\
  Forall (fun n => is_Some (nodes m !! n)) ns /\
  spaced (nodes m) ns.
Proof.
  unfold generate_abstraction.
  destruct (select_landmarks _ _ _ _) as [sel|] eqn:Hsel; [| discriminate].
  destruct (label_nodes 0 sel ∅) as [mp|]; [| discriminate].
  destruct (connect_all sel ([], m)) as [conns m1]. intros [= <- <- <-].
  destruct (select_landmarks_spec _ _ _ _ _ Hsel) as (added & -> & Hsub & Hlen & Hxy & Hsp).
  cbn in *. repeat split; try assumption. now apply Hsp.
Qed.

Lemma landmarks_NoDup (road_nodes : list node) (max_nodes : Z)
    (m m' : MapEngine) (ns : list node) (gs : AbstractGraph) :
  generate_abstraction road_nodes max_nodes m = Some (ns, gs, m') ->
  NoDup road_nodes -> NoDup ns.
Proof.
  intros H Hnd. destruct (generate_abstraction_landmarks _ _ _ _ _ _ H) as (Hsub & _).
  destruct (candidates_spec (G_proj m) road_nodes) as [_ Hperm].
  eapply sublist_NoDup; [| exact Hsub]. rewrite Hperm. now apply NoDup_filter.
Qed.

(** X1: the landmarks [generate_abstraction] selects are road nodes of
    degree above 2, listed by non-increasing degree, at most [max_nodes] of
    them (none for a negative bound), each with coordinates, and without
    repetition when the node list has none. *)
Theorem landmarks_bounded_and_ordered (road_nodes : list node) (max_nodes : Z)
    (m m' : MapEngine) (ns : list node) (gs : AbstractGraph) :
  generate_abstraction road_nodes max_nodes m = Some (ns, gs, m') ->
  Z.of_nat (length ns) <= Z.max max_nodes 0 /\
  (forall n, n ∈ ns ->
     n ∈ road_nodes /\ (2 < road_degree (G_proj m) n)%nat /\ is_Some (nodes m !! n)) /\
  desc_sorted (road_degree (G_proj m)) ns /\
  (NoDup road_nodes -> NoDup ns).
Proof.
  intros H. destruct (generate_abstraction_landmarks _ _ _ _ _ _ H)
    as (Hsub & Hlen & Hxy & _).
  destruct (candidates_spec (G_proj m) road_nodes) as [Hsorted Hperm].
  repeat split.
  - exact Hlen.
  - assert (Hn : n ∈ filter (fun n => (2 < road_degree (G_proj m) n)%nat) road_nodes).
    { rewrite <- Hperm. eapply elem_of_sublist; eassumption. }
    apply list_elem_of_filter in Hn. tauto.
  - assert (Hn : n ∈ filter (fun n => (2 < road_degree (G_proj m) n)%nat) road_nodes).
    { rewrite <- Hperm. eapply elem_of_sublist; eassumption. }
    apply list_elem_of_filter in Hn. tauto.
  - rewrite Forall_forall in Hxy. now apply Hxy.
  - eapply desc_sorted_sublist; eassumption.
  - intros Hnd. exact (landmarks_NoDup _ _ _ _ _ _ H Hnd).
Qed.

(** X2: any two landmarks are more than 250 apart: for positions [i < j] the
    distance [math.hypot] gives between the two coordinates exceeds
    [min_dist]. *)
Theorem landmarks_are_spread (road_nodes : list node) (max_nodes : Z)
    (m m' : MapEngine) (ns : list node) (gs : AbstractGraph)
    (i j : nat) (s c : node) :
  generate_abstraction road_nodes max_nodes m = Some (ns, gs, m') ->
  (i < j)%nat -> ns !! i = Some s -> ns !! j = Some c ->
  exists sc cc,
    nodes m !! s = Some sc /\ nodes m !! c = Some cc /\
    Qltb min_dist (hypot (fst cc - fst sc) (snd cc - snd sc)) = true.
Proof.
  intros H Hij Hi Hj.
  destruct (generate_abstraction_landmarks _ _ _ _ _ _ H) as (_ & _ & _ & Hsp).
  exact (spaced_lookup _ _ _ _ _ _ Hsp Hij Hi Hj).
Qed.

Lemma ascii_uppercase_NoDup : NoDup ascii_uppercase.
Proof. apply (bool_decide_unpack (NoDup ascii_uppercase)). vm_compute. exact I. Qed.

Lemma label_nodes_spec (ns : list node) :
  forall i acc mp,
    label_nodes i ns acc = Some mp ->
    ((i <= 26)%nat -> (i + length ns <= 26)%nat) /\
    (forall n, n ∉ ns -> mp !! n = acc !! n) /\
    (NoDup ns -> forall j n, ns !! j = Some n ->
       mp !! n = ascii_uppercase !! (i + j)%nat).
Proof.
  induction ns as [|x r IH]; intros i acc mp; cbn [label_nodes].
  - intros [= <-]. repeat split.
    + cbn. lia.
    + intros _ j n Hj. discriminate.
  - destruct (ascii_uppercase !! i) as [l|] eqn:Hi; [| discriminate].
    intros H. destruct (IH _ _ _ H) as (Hlen & Hout & Hin).
    pose proof (lookup_lt_Some _ _ _ Hi) as Hlt.
    change (length ascii_uppercase) with 26%nat in Hlt.
    repeat split.
    + cbn [length]. lia.
    + intros n Hn. rewrite Hout by (intros Hr; apply Hn; now right).
      apply lookup_insert_ne. intros ->. apply Hn. now left.
    + intros Hnd j n Hj. apply NoDup_cons in Hnd as [Hx Hr].
      destruct j as [|j]; cbn in Hj.
      * injection Hj as <-. rewrite Hout by assumption.
        now rewrite lookup_insert_eq, Nat.add_0_r.
      * rewrite (Hin Hr j n Hj). f_equal. lia.
Qed.

Lemma label_nodes_total (ns : list node) :
  forall i acc, (i + length ns <= 26)%nat -> is_Some (label_nodes i ns acc).
Proof.
  induction ns as [|x r IH]; intros i acc Hlen; cbn [label_nodes]; [eauto |].
  cbn [length] in Hlen.
  destruct (ascii_uppercase !! i) as [l|] eqn:Hi.
  - apply IH. lia.
  - apply lookup_ge_None in Hi. change (length ascii_uppercase) with 26%nat in Hi. lia.
Qed.

Lemma label_nodes_overflow (ns : list node) :
  forall i acc, (26 < i + length ns)%nat -> ns <> [] -> label_nodes i ns acc = None.
Proof.
  induction ns as [|x r IH]; intros i acc Hlen Hne; [congruence |].
  cbn [label_nodes]. cbn [length] in Hlen.
  destruct (ascii_uppercase !! i) as [l|] eqn:Hi; [| reflexivity].
  pose proof (lookup_lt_Some _ _ _ Hi) as Hlt.
  change (length ascii_uppercase) with 26%nat in Hlt.
  apply IH; [lia |]. intros ->. cbn in Hlen. lia.
Qed.

(** X3: every landmark gets the capital letter at its position in the
    landmark list, nothing else gets a label, and no two landmarks share a
    letter; construction goes through only with at most 26 landmarks. *)
Theorem landmark_labels (road_nodes : list node) (max_nodes : Z)
    (m m' : MapEngine) (ns : list node) (gs : AbstractGraph) :
  NoDup road_nodes ->
  generate_abstraction road_nodes max_nodes m = Some (ns, gs, m') ->
  (length ns <= 26)%nat /\
  (forall j n, ns !! j = Some n -> node_mapping gs !! n = ascii_uppercase !! j) /\
  (forall n, n ∉ ns -> node_mapping gs !! n = None) /\
  (forall a b l, node_mapping gs !! a = Some l -> node_mapping gs !! b = Some l ->
     a = b).
Proof.
  intros Hnd H.
  pose proof (landmarks_NoDup _ _ _ _ _ _ H Hnd) as Hns.
  revert H. unfold generate_abstraction.
  destruct (select_landmarks _ _ _ _) as [sel|]; [| discriminate].
  destruct (label_nodes 0 sel ∅) as [mp|] eqn:Hl; [| discriminate].
  destruct (connect_all sel ([], m)) as [conns m1]. intros [= -> <- <-].
  cbn [node_mapping].
  destruct (label_nodes_spec _ _ _ _ Hl) as (Hlen & Hout & Hin).
  assert (Hpos : forall n l, mp !! n = Some l ->
            exists j, ns !! j = Some n /\ ascii_uppercase !! j = Some l).
  { intros n l Hn. destruct (decide (n ∈ ns)) as [Hel|Hnel].
    - apply list_elem_of_lookup in Hel as [j Hj]. exists j. split; [exact Hj |].
      rewrite (Hin Hns j n Hj) in Hn. exact Hn.
    - rewrite (Hout n Hnel), lookup_empty in Hn. discriminate. }
  repeat split.
  - apply (Hlen ltac:(lia)).
  - intros j n Hj. exact (Hin Hns j n Hj).
  - intros n Hn. now rewrite (Hout n Hn), lookup_empty.
  - intros a b l Ha Hb.
    destruct (Hpos _ _ Ha) as (ja & Hja & Hla).
    destruct (Hpos _ _ Hb) as (jb & Hjb & Hlb).
    assert (ja = jb) by exact (NoDup_lookup _ _ _ _ ascii_uppercase_NoDup Hla Hlb).
    subst jb. congruence.
Qed.

Lemma conn_ok_mono (c c' : gmap edge_key path) (uv : node * node) :
  c ⊆ c' -> conn_ok c uv -> conn_ok c' uv.
Proof.
  intros Hsub (p & Hp & Hlen). exists p. split; [| exact Hlen].
  eapply lookup_weaken; eassumption.
Qed.

Lemma connect_step_spec (u v : node) (cs : list (node * node)) (m : MapEngine) :
  let r := connect_step u (cs, m) v in
  snd r = with_cache (phys_path_cache (snd r)) m /\
  phys_path_cache m ⊆ phys_path_cache (snd r) /\
  (fst r = cs \/ (fst r = cs ++ [(u, v)] /\ conn_ok (phys_path_cache (snd r)) (u, v))).
Proof.
  cbv zeta. unfold connect_step. cbn [fst snd].
  destruct (get_phys_path_frame m u v) as [Hsub Hm'].
  destruct (get_phys_path m u v) as [[[|x r]|] m'] eqn:E; cbn [fst snd] in Hsub, Hm' |- *.
  - auto.
  - destruct (Nat.ltb_spec (length (x :: r)) 70) as [Hlt|Hge]; cbn [fst snd]; [| auto].
    split; [exact Hm' | split; [exact Hsub |]]. right. split; [reflexivity |].
    exists (x :: r). split; [exact (get_phys_path_stores _ _ _ _ _ E) |].
    cbn [length] in *. lia.
  - auto.
Qed.

Lemma connect_row_spec (u : node) (vs : list node) :
  forall (cs : list (node * node)) (m : MapEngine),
    let r := fold_left (connect_step u) vs (cs, m) in
    snd r = with_cache (phys_path_cache (snd r)) m /\
    phys_path_cache m ⊆ phys_path_cache (snd r) /\
    exists new,
      fst r = cs ++ new /\
      Forall (fun ab => fst ab = u /\ snd ab ∈ vs /\
                        conn_ok (phys_path_cache (snd r)) ab) new.
Proof.
  induction vs as [|v vs IH]; intros cs m; cbn [fold_left].
  - cbn. split; [now destruct m | split; [reflexivity |]].
    exists []. now rewrite app_nil_r.
  - destruct (connect_step_spec u v cs m) as (Hm1 & Hs1 & Hc1).
    destruct (connect_step u (cs, m) v) as [cs1 m1]. cbn [fst snd] in Hm1, Hs1, Hc1.
    destruct (IH cs1 m1) as (Hm2 & Hs2 & new & Hnew & Hall).
    cbv zeta in *.
    split; [rewrite Hm2 at 1; rewrite Hm1; reflexivity |].
    split; [now transitivity (phys_path_cache m1) |].
    assert (Hall' : Forall (fun ab => fst ab = u /\ snd ab ∈ v :: vs /\
                conn_ok (phys_path_cache (snd (fold_left (connect_step u) vs (cs1, m1)))) ab)
              new).
    { eapply Forall_impl; [exact Hall |]. cbn. intros ab (? & ? & ?).
      repeat split; [assumption | now right | assumption]. }
    destruct Hc1 as [->|[-> Hok]].
    + exists new. now split.
    + exists ((u, v) :: new). split; [now rewrite Hnew, <- app_assoc |].
      constructor; [| exact Hall'].
      repeat split; [now left |]. eapply conn_ok_mono; eassumption.
Qed.

Lemma connect_all_spec (ns : list node) :
  forall (cs : list (node * node)) (m : MapEngine),
    let r := connect_all ns (cs, m) in
    snd r = with_cache (phys_path_cache (snd r)) m /\
    phys_path_cache m ⊆ phys_path_cache (snd r) /\
    exists new,
      fst r = cs ++ new /\
      Forall (fun ab =>
                (exists i j, (i < j)%nat /\ ns !! i = Some (fst ab) /\
                             ns !! j = Some (snd ab)) /\
                conn_ok (phys_path_cache (snd r)) ab) new.
Proof.
  induction ns as [|u rest IH]; intros cs m; cbn [connect_all].
  - cbn. split; [now destruct m | split; [reflexivity |]].
    exists []. now rewrite app_nil_r.
  - destruct (connect_row_spec u rest cs m) as (Hm1 & Hs1 & new1 & Hn1 & Hall1).
    destruct (fold_left (connect_step u) rest (cs, m)) as [cs1 m1].
    cbn [fst snd] in Hm1, Hs1, Hn1, Hall1.
    destruct (IH cs1 m1) as (Hm2 & Hs2 & new2 & Hn2 & Hall2). cbv zeta in *.
    split; [rewrite Hm2 at 1; rewrite Hm1; reflexivity |].
    split; [now transitivity (phys_path_cache m1) |].
    exists (new1 ++ new2). split; [now rewrite Hn2, Hn1, <- app_assoc |].
    apply Forall_app. split.
    + eapply Forall_impl; [exact Hall1 |]. cbn. intros [a b] (Ha & Hb & Hok).
      cbn [fst snd] in *. subst a. split; [| eapply conn_ok_mono; eassumption].
      apply list_elem_of_lookup in Hb as [j Hj].
      exists 0%nat, (S j). repeat split; [lia | assumption].
    + eapply Forall_impl; [exact Hall2 |]. cbn.
      intros ab [(i & j & Hij & Hi & Hj) Hok]. split; [| exact Hok].
      exists (S i), (S j). repeat split; [lia | assumption | assumption].
Qed.

(** X4: every connection [generate_abstraction] records joins a landmark to
    one later in the landmark list, and the path cached for the pair has
    between 1 and 69 nodes; the pairing changes nothing in the engine but the
    cache, which only grows.  With repetition-free road nodes a connection
    never joins a landmark to itself and never appears in both directions. *)
Theorem connections_are_short_cached_pairs (road_nodes : list node) (max_nodes : Z)
    (m m' : MapEngine) (ns : list node) (gs : AbstractGraph) :
  generate_abstraction road_nodes max_nodes m = Some (ns, gs, m') ->
  m' = with_cache (phys_path_cache m') m /\
  phys_path_cache m ⊆ phys_path_cache m' /\
  (forall u v, (u, v) ∈ connections gs ->
     (exists i j, (i < j)%nat /\ ns !! i = Some u /\ ns !! j = Some v) /\
     (exists p, phys_path_cache m' !! sorted_pair u v = Some p /\
                (0 < length p)%nat /\ (length p < 70)%nat) /\
     (NoDup road_nodes -> u <> v /\ (v, u) ∉ connections gs)).
Proof.
  intros H. pose proof (fun Hnd => landmarks_NoDup _ _ _ _ _ _ H Hnd) as Hns.
  revert H. unfold generate_abstraction.
  destruct (select_landmarks _ _ _ _) as [sel|]; [| discriminate].
  destruct (label_nodes 0 sel ∅) as [mp|]; [| discriminate].
  destruct (connect_all_spec sel [] m) as (Hm' & Hsub & new & Hnew & Hall).
  destruct (connect_all sel ([], m)) as [conns m1]. cbn [fst snd app] in *.
  intros [= -> <- <-]. subst new. cbn [connections].
  split; [exact Hm' | split; [exact Hsub |]].
  rewrite Forall_forall in Hall.
  assert (Hpos : forall u v, (u, v) ∈ conns ->
            exists i j, (i < j)%nat /\ ns !! i = Some u /\ ns !! j = Some v).
  { intros u v Huv. exact (proj1 (Hall _ Huv)). }
  intros u v Huv. destruct (Hall _ Huv) as [_ Hok].
  split; [now apply Hpos | split; [exact Hok |]].
  intros Hnd. specialize (Hns Hnd).
  destruct (Hpos _ _ Huv) as (i & j & Hij & Hi & Hj). split.
  - intros ->. pose proof (NoDup_lookup _ _ _ _ Hns Hi Hj). lia.
  - intros Hvu. destruct (Hpos _ _ Hvu) as (i' & j' & Hij' & Hi' & Hj').
    pose proof (NoDup_lookup _ _ _ _ Hns Hi Hj').
    pose proof (NoDup_lookup _ _ _ _ Hns Hj Hi'). lia.
Qed.

Lemma far_from_all_total (xy : gmap node coord) (cc : coord) (sel : list node) :
  Forall (fun n => is_Some (xy !! n)) sel -> is_Some (far_from_all xy cc sel).
Proof.
  induction 1 as [|s r [sc Hs] _ IH]; cbn [far_from_all]; [eauto |].
  rewrite Hs. destruct (Qltb min_dist _); eauto.
Qed.

Lemma select_landmarks_total (xy : gmap node coord) (max_nodes : Z) (cands : list node) :
  Forall (fun n => is_Some (xy !! n)) cands ->
  forall sel, Forall (fun n => is_Some (xy !! n)) sel ->
              is_Some (select_landmarks xy max_nodes cands sel).
Proof.
  induction 1 as [|c rest [cc Hc] _ IH]; intros sel Hsel; cbn [select_landmarks];
    [eauto |].
  destruct (max_nodes <=? Z.of_nat (length sel)); [eauto |].
  rewrite Hc. destruct (far_from_all_total xy cc sel Hsel) as [[|] ->].
  - apply IH. apply Forall_app. split; [exact Hsel |]. constructor; [eauto | constructor].
  - now apply IH.
Qed.

(** X5: when every road node has coordinates and [max_nodes] is at most 26
    (the default is 12), [generate_abstraction] completes: no lookup fails
    and the alphabet suffices. *)
Theorem generation_completes (road_nodes : list node) (max_nodes : Z) (m : MapEngine) :
  (forall n, n ∈ road_nodes -> is_Some (nodes m !! n)) ->
  max_nodes <= 26 ->
  is_Some (generate_abstraction road_nodes max_nodes m).
Proof.
  intros Hxy Hmax. unfold generate_abstraction.
  assert (Hc : Forall (fun n => is_Some (nodes m !! n)) (candidates (G_proj m) road_nodes)).
  { apply Forall_forall. intros n Hn. apply Hxy.
    destruct (candidates_spec (G_proj m) road_nodes) as [_ Hperm].
    rewrite Hperm in Hn. apply list_elem_of_filter in Hn. tauto. }
  destruct (select_landmarks_total _ max_nodes _ Hc [] (Forall_nil_2 _)) as [sel Hsel].
  rewrite Hsel.
  destruct (select_landmarks_spec _ _ _ _ _ Hsel) as (added & -> & _ & Hlen & _).
  cbn [app length] in Hlen |- *.
  destruct (label_nodes_total added 0 ∅) as [mp ->]; [cbn; lia |].
  destruct (connect_all added ([], m)). eauto.
Qed.

(** X6: the first build after construction.  Starting from an engine without
    a cached graph, building over the connections just generated, under any
    density map [d], stores no new path (every query is a cache hit); each
    connection becomes an edge, in both directions, of weight [n * (1 + t^3)]
    for the node count [n] of its cached path and the summed density [t] of
    [d] along that path; and there are no other edges. *)
Theorem first_build_uses_cached_pairs (road_nodes : list node) (max_nodes : Z)
    (m m' : MapEngine) (ns : list node) (gs : AbstractGraph)
    (d : gmap edge_key Z) (force : bool) :
  G_abs_cached m = None ->
  generate_abstraction road_nodes max_nodes m = Some (ns, gs, m') ->
  let r := build_abstract_graph gs force (with_density d (with_graph_sys gs m')) in
  phys_path_cache (snd r) = phys_path_cache m' /\
  (forall u v, (u, v) ∈ connections gs ->
     exists p, phys_path_cache m' !! sorted_pair u v = Some p /\
               edge_weight (fst r) u v
                 = Some (Z.of_nat (length p) * (1 + summed_density d p ^ 3)) /\
               edge_weight (fst r) v u
                 = Some (Z.of_nat (length p) * (1 + summed_density d p ^ 3))) /\
  (forall x y, is_Some (edge_weight (fst r) x y) ->
     (x, y) ∈ connections gs \/ (y, x) ∈ connections gs).
Proof using nx_shortest_path hypot.
  clear abs_shortest_path abs_shortest_path_length atan2_deg.
  intros Hnone H r.
  destruct (connections_are_short_cached_pairs _ _ _ _ _ _ H) as (Hm' & _ & Hconn).
  set (m0 := with_density d (with_graph_sys gs m')) in *.
  assert (Hr : r = rebuild gs m0).
  { subst r. apply build_rebuilds. right. right. subst m0. cbn. now rewrite Hm'. }
  rewrite Hr. clear Hr r.
  destruct (rebuild_inv gs m0) as ((Hsym & Hsnd & Hcmp & Hprv) & _ & Hsub & _).
  pose proof (rebuild_weights gs m0) as Hw.
  change (phys_path_cache m0) with (phys_path_cache m') in *.
  change (edge_density m0) with d in *.
  assert (Hcached : forall u v, (u, v) ∈ connections gs ->
            exists x l, phys_path_cache m' !! sorted_pair u v = Some (x :: l)).
  { intros u v Huv. destruct (Hconn u v Huv) as (_ & (p & Hp & Hlen & _) & _).
    destruct p as [|x l]; [cbn in Hlen; lia | eauto]. }
  assert (Hsame : phys_path_cache (snd (rebuild gs m0)) = phys_path_cache m').
  { apply map_eq. intros k.
    destruct (phys_path_cache (snd (rebuild gs m0)) !! k) as [p|] eqn:Hk.
    - destruct (Hprv _ _ Hk) as [Hold|(u & v & Huv & <- & _)]; [now rewrite Hold |].
      destruct (Hcached u v Huv) as (x & l & Hp).
      rewrite Hp. rewrite (lookup_weaken _ _ _ _ Hp Hsub) in Hk. now symmetry.
    - destruct (phys_path_cache m' !! k) as [p|] eqn:Hold; [| reflexivity].
      rewrite (lookup_weaken _ _ _ _ Hold Hsub) in Hk. discriminate. }
  split; [exact Hsame | split].
  - intros u v Huv. destruct (Hcached u v Huv) as (x & l & Hp).
    exists (x :: l). split; [exact Hp |].
    specialize (Hcmp u v Huv). rewrite Hsame, Hp in Hcmp.
    destruct Hcmp as [w Hwuv].
    destruct (Hw u v w Hwuv) as (p' & Hp' & _ & ->).
    rewrite Hsame, Hp in Hp'. injection Hp' as <-.
    rewrite edge_cost_summed in Hwuv.
    split; [exact Hwuv | now rewrite <- Hsym].
  - intros x y Hxy. destruct (Hsnd x y Hxy) as (u & v & Huv & Hk).
    destruct (sorted_pair_inj _ _ _ _ Hk) as [[-> ->]|[-> ->]]; auto.
Qed.

(** ** Camera, picking and sliders *)

Lemma Qltb_lt (a b : Q) : Qltb a b = true <-> (a < b)%Q.
Proof.
  unfold Qltb. rewrite negb_true_iff. split.
  - intros H. apply Qnot_le_lt. intros Hle. apply Qle_bool_iff in Hle. congruence.
  - intros H. destruct (Qle_bool b a) eqn:E; [| reflexivity].
    apply Qle_bool_iff in E. exfalso. now apply (Qlt_not_le a b).
Qed.

Lemma Qltb_ge (a b : Q) : Qltb a b = false <-> (b <= a)%Q.
Proof.
  unfold Qltb. rewrite negb_false_iff. apply Qle_bool_iff.
Qed.

Lemma Qmin2_spec (a b : Q) : (Qmin2 a b <= b)%Q /\ ((a <= b)%Q -> Qmin2 a b = a) /\
  (forall c, (c <= a)%Q -> (c <= b)%Q -> (c <= Qmin2 a b)%Q).
Proof.
  unfold Qmin2. destruct (Qle_bool a b) eqn:E.
  - apply Qle_bool_iff in E. repeat split; auto.
  - repeat split; [apply Qle_refl | | auto].
    intros H. apply Qle_bool_iff in H. congruence.
Qed.

Lemma Qmax2_spec (a b : Q) : (b <= Qmax2 a b)%Q /\
  (forall c, (a <= c)%Q -> (b <= c)%Q -> (Qmax2 a b <= c)%Q).
Proof.
  unfold Qmax2. destruct (Qle_bool b a) eqn:E.
  - apply Qle_bool_iff in E. split; auto.
  - split; [apply Qle_refl | auto].
Qed.

Lemma zoom_about_zoom (cam cam' : Camera) (pos : Z * Z) (z' : Q) :
  zoom_about cam pos z' = Some cam' -> zoom cam' = z'.
Proof.
  unfold zoom_about. destruct (to_world cam _ _); [| discriminate].
  now intros [= <-].
Qed.

Lemma zoom_about_total (cam : Camera) (pos : Z * Z) (z' : Q) :
  zoom_in_range cam -> is_Some (zoom_about cam pos z').
Proof.
  intros [Hlo _]. unfold zoom_about, to_world.
  destruct (Qeq_bool (zoom cam) 0) eqn:E; [| eauto].
  apply Qeq_bool_iff in E. rewrite E in Hlo. exfalso.
  revert Hlo. unfold Qle. cbn. lia.
Qed.

Lemma camera_step_in_range (in_map : bool) (ev : ui_event) (cam : Camera) :
  zoom_in_range cam ->
  exists cam', camera_handle_input in_map ev cam = Some cam' /\ zoom_in_range cam'.
Proof.
  intros Hr. pose proof Hr as [Hlo Hhi].
  destruct ev as [button pos| |pos|]; cbn [camera_handle_input]; eauto.
  - destruct in_map; [| eauto].
    destruct (button =? 2); [eauto |].
    destruct (button =? 4).
    + destruct (zoom_about_total cam pos (Qmin2 (zoom cam * (11 # 10)) 5) Hr) as [c Hc].
      exists c. split; [exact Hc |]. unfold zoom_in_range.
      rewrite (zoom_about_zoom _ _ _ _ Hc).
      destruct (Qmin2_spec (zoom cam * (11 # 10)) 5) as (Hle & _ & Hge).
      split; [| exact Hle]. apply Hge.
      * revert Hlo. unfold Qle. cbn. lia.
      * unfold Qle. cbn. lia.
    + destruct (button =? 5); [| eauto].
      destruct (zoom_about_total cam pos (Qmax2 (zoom cam * (9 # 10)) (1 # 2)) Hr) as [c Hc].
      exists c. split; [exact Hc |]. unfold zoom_in_range.
      rewrite (zoom_about_zoom _ _ _ _ Hc).
      destruct (Qmax2_spec (zoom cam * (9 # 10)) (1 # 2)) as (Hge & Hle).
      split; [exact Hge |]. apply Hle.
      * revert Hhi. unfold Qle. cbn. lia.
      * unfold Qle. cbn. lia.
  - destruct (drag_start cam); eauto.
Qed.

(** X7: whatever events reach the camera, starting from a new one, handling
    never raises and the zoom stays within [0.5, 5.0]; so [to_world] never
    divides by zero. *)
Theorem camera_zoom_stays_clamped (evs : list (bool * ui_event)) :
  exists cam, camera_run evs new_Camera = Some cam /\ zoom_in_range cam /\
              forall sx sy, is_Some (to_world cam sx sy).
Proof using.
  clear.
  assert (H : forall evs cam, zoom_in_range cam ->
            exists cam', camera_run evs cam = Some cam' /\ zoom_in_range cam').
  { clear evs. induction evs as [|[b ev] rest IH]; intros cam Hr; cbn [camera_run]; [eauto |].
    destruct (camera_step_in_range b ev cam Hr) as (c & -> & Hc). now apply IH. }
  destruct (H evs new_Camera) as (cam & Hrun & Hr).
  { split; unfold Qle; cbn; lia. }
  exists cam. split; [exact Hrun | split; [exact Hr |]].
  intros sx sy. unfold to_world.
  destruct (Qeq_bool (zoom cam) 0) eqn:E; [| eauto].
  apply Qeq_bool_iff in E. destruct Hr as [Hlo _]. rewrite E in Hlo. exfalso.
  revert Hlo. unfold Qle. cbn. lia.
Qed.

Lemma nearest_scan_spec (xy : gmap node coord) (w : coord) (ns : list node) :
  forall best d0 best' d',
    nearest_scan xy w ns best d0 = Some (best', d') ->
    (d' <= d0)%Q /\
    (forall n dn, n ∈ ns -> node_dist xy w n = Some dn -> (d' <= dn)%Q) /\
    ((best' = best /\ d' = d0) \/
     (exists n, best' = Some n /\ n ∈ ns /\ node_dist xy w n = Some d' /\ (d' < d0)%Q)).
Proof.
  induction ns as [|n r IH]; intros best d0 best' d'; cbn [nearest_scan].
  - intros [= <- <-]. split; [apply Qle_refl |]. split; [| now left].
    intros n dn Hn. now apply elem_of_nil in Hn.
  - unfold node_dist in *.
    destruct (xy !! n) as [nc|] eqn:Hn; [| discriminate].
    set (d := hypot (fst nc - fst w) (snd nc - snd w)) in *.
    destruct (Qltb d d0) eqn:Hlt; intros H;
      destruct (IH _ _ _ _ H) as (Hle & Hall & Hbest).
    + apply Qltb_lt in Hlt.
      split; [apply Qlt_le_weak; eapply Qle_lt_trans; eassumption |]. split.
      * intros n' dn Hin Hd. apply elem_of_cons in Hin as [->|Hin]; [| eauto].
        rewrite Hn in Hd. injection Hd as <-. exact Hle.
      * right. destruct Hbest as [[-> ->]|(n2 & -> & Hin & Hd & Hlt2)].
        -- exists n. repeat split; [now left | now rewrite Hn | exact Hlt].
        -- exists n2. repeat split; [now right | exact Hd |].
           eapply Qlt_trans; eassumption.
    + apply Qltb_ge in Hlt. split; [exact Hle |]. split.
      * intros n' dn Hin Hd. apply elem_of_cons in Hin as [->|Hin]; [| eauto].
        rewrite Hn in Hd. injection Hd as <-. eapply Qle_trans; eassumption.
      * destruct Hbest as [[-> ->]|(n2 & -> & Hin & Hd & Hlt2)]; [now left |].
        right. exists n2. repeat split; [now right | exact Hd | exact Hlt2].
Qed.

(** X8: [get_abstract_node_at] returns only landmarks.  The one it returns
    lies closer to the clicked world point than [60 / zoom] and no landmark is
    closer still; it returns no node exactly when every landmark is at least
    [60 / zoom] away. *)
Theorem picked_node_is_nearest_landmark (ns : list node) (m : MapEngine)
    (pos : Z * Z) (cam : Camera) (res : option node) :
  get_abstract_node_at ns m pos cam = Some res ->
  exists w, to_world cam (inject_Z (fst pos)) (inject_Z (snd pos)) = Some w /\
    match res with
    | Some n =>
        n ∈ ns /\
        exists d, node_dist (nodes m) w n = Some d /\ (d < 60 / zoom cam)%Q /\
          forall n' d', n' ∈ ns -> node_dist (nodes m) w n' = Some d' -> (d <= d')%Q
    | None =>
        forall n' d', n' ∈ ns -> node_dist (nodes m) w n' = Some d' ->
                      (60 / zoom cam <= d')%Q
    end.
Proof.
  unfold get_abstract_node_at.
  destruct (to_world cam _ _) as [w|]; [| discriminate].
  destruct (nearest_scan (nodes m) w ns None (60 / zoom cam)%Q) as [[best d]|] eqn:Hs;
    [| discriminate].
  cbn. intros [= <-]. exists w. split; [reflexivity |].
  destruct (nearest_scan_spec _ _ _ _ _ _ _ Hs) as (Hle & Hall & Hbest).
  destruct Hbest as [[-> ->]|(n & -> & Hin & Hd & Hlt)].
  - exact Hall.
  - split; [exact Hin |]. exists d. now repeat split.
Qed.

(** ** The waypoint selection *)

Lemma remove_node_spec (n : node) (l : list node) :
  NoDup l -> NoDup (remove_node n l) /\
  forall x, x ∈ remove_node n l <-> x ∈ l /\ x <> n.
Proof.
  induction l as [|y r IH]; cbn [remove_node].
  - intros _. split; [constructor |]. intros x. split; [intros H | intros [H _]];
      now apply elem_of_nil in H.
  - intros Hnd. apply NoDup_cons in Hnd as [Hy Hr].
    destruct (Z.eqb_spec y n) as [->|Hne].
    + split; [exact Hr |]. intros x. rewrite elem_of_cons. split.
      * intros Hx. split; [now right | intros ->; contradiction].
      * intros [[->|Hx] Hxn]; [contradiction | exact Hx].
    + destruct (IH Hr) as [Hnd' Hmem]. split.
      * apply NoDup_cons. split; [| exact Hnd']. rewrite Hmem. tauto.
      * intros x. rewrite !elem_of_cons, Hmem. split.
        -- intros [->|[Hx Hxn]]; auto.
        -- intros [[->|Hx] Hxn]; auto.
Qed.

(** X9: toggling keeps the selection free of repetitions; it flips the
    membership of the picked node and of no other; a missing pick, and the
    node id 0, which Python takes for false, change nothing. *)
Theorem toggle_selection_flips_one (picked : option node) (sel : list node) :
  NoDup sel ->
  NoDup (toggle_selection picked sel) /\
  (forall x, Some x <> picked -> (x ∈ toggle_selection picked sel <-> x ∈ sel)) /\
  (forall n, picked = Some n -> n <> 0 ->
     (n ∈ toggle_selection picked sel <-> n ∉ sel)) /\
  (picked = None \/ picked = Some 0 -> toggle_selection picked sel = sel).
Proof using.
  clear. intros Hnd. unfold toggle_selection.
  destruct picked as [n|].
  2:{ split; [exact Hnd |]. split; [tauto |]. split; [discriminate | reflexivity]. }
  destruct (Z.eqb_spec n 0) as [->|Hn0].
  { split; [exact Hnd |]. split; [tauto |]. split; [| reflexivity].
    intros n' [= <-] H. congruence. }
  destruct (remove_node_spec n sel Hnd) as [Hnd' Hmem].
  case_bool_decide as Hin.
  - split; [exact Hnd' |]. split; [| split].
    + intros x Hx. rewrite Hmem. split; [tauto |].
      intros H. split; [exact H | congruence].
    + intros n' [= <-] _. rewrite Hmem. tauto.
    + intros [H|H]; [discriminate | congruence].
  - split; [| split; [| split]].
    + apply NoDup_app. split; [exact Hnd |]. split; [| apply NoDup_singleton].
      intros x Hx Hx'. apply list_elem_of_singleton in Hx'. congruence.
    + intros x Hx. rewrite elem_of_app, list_elem_of_singleton. split.
      * intros [H|H]; [exact H | congruence].
      * now left.
    + intros n' [= <-] _. rewrite elem_of_app, list_elem_of_singleton. tauto.
    + intros [H|H]; [discriminate | congruence].
Qed.

(** ** Sliders *)

Lemma slider_motion_value (lo hi a w : Z) :
  0 < w -> lo <= hi -> 0 <= a <= w ->
  (inject_Z lo <= inject_Z lo + inject_Z a / inject_Z w * inject_Z (hi - lo))%Q /\
  (inject_Z lo + inject_Z a / inject_Z w * inject_Z (hi - lo) <= inject_Z hi)%Q.
Proof.
  intros Hw Hlh Ha. destruct w as [|p|p]; try lia.
  unfold Qle, Qplus, Qmult, Qdiv, Qinv, inject_Z. cbn.
  split; nia.
Qed.

Lemma slider_step_ok (hit : bool) (ev : ui_event) (s : SimpleSlider) :
  slider_ok s ->
  exists s', slider_handle_event hit ev s = Some s' /\ slider_ok s' /\
             s_left s' = s_left s /\ s_width s' = s_width s /\
             min_val s' = min_val s /\ max_val s' = max_val s.
Proof.
  intros (Hw & Hmm & Hlo & Hhi).
  destruct ev as [button pos| |pos|]; cbn [slider_handle_event].
  - destruct hit; eexists; (split; [reflexivity |]); now repeat split.
  - eexists. split; [reflexivity |]. now repeat split.
  - destruct (dragging s).
    + destruct (Z.eqb_spec (s_width s) 0) as [H0|_]; [lia |].
      eexists. split; [reflexivity |]. cbn.
      destruct (slider_motion_value (min_val s) (max_val s)
                  (Z.max (s_left s) (Z.min (fst pos) (s_left s + s_width s)) - s_left s)
                  (s_width s) Hw Hmm ltac:(lia)) as [H1 H2].
      now repeat split.
    + eexists. split; [reflexivity |]. now repeat split.
  - eexists. split; [reflexivity |]. now repeat split.
Qed.

(** X10: on a slider of positive width with [min_val <= max_val], no
    sequence of mouse events raises or takes the value outside
    [[min_val, max_val]]; position, width and bounds never change. *)
Theorem slider_value_stays_in_bounds (evs : list (bool * ui_event)) (s : SimpleSlider) :
  slider_ok s ->
  exists s', slider_run evs s = Some s' /\
    (inject_Z (min_val s) <= val s')%Q /\ (val s' <= inject_Z (max_val s))%Q /\
    s_left s' = s_left s /\ s_width s' = s_width s.
Proof using.
  clear. revert s. induction evs as [|[hit ev] rest IH]; intros s Hok; cbn [slider_run].
  - exists s. destruct Hok as (_ & _ & Hlo & Hhi). now repeat split.
  - destruct (slider_step_ok hit ev s Hok) as (s1 & -> & Hok1 & Hl & Hw & Hmin & Hmax).
    destruct (IH s1 Hok1) as (s' & Hrun & Hlo & Hhi & Hl' & Hw').
    exists s'. rewrite Hmin in Hlo. rewrite Hmax in Hhi.
    repeat split; try assumption; congruence.
Qed.

(** ** Background traffic *)

Lemma elem_of_first_occurrences (x : node) (seen l : list node) :
  x ∈ first_occurrences seen l <-> x ∈ l /\ x ∉ seen.
Proof.
  revert seen. induction l as [|y r IH]; intros seen; cbn [first_occurrences].
  - split; [intros H; inversion H | intros [H _]; inversion H].
  - case_bool_decide as Hy.
    + rewrite IH, elem_of_cons. split.
      * intros [H1 H2]. auto.
      * intros [[->|H1] H2]; [contradiction | auto].
    + rewrite elem_of_cons, IH, !elem_of_cons. split.
      * intros [->|[H1 H2]]; [auto |]. split; [auto |].
        intros H3. apply H2. now right.
      * intros [[->|H1] H2]; [now left |].
        destruct (decide (x = y)) as [->|Hne]; [now left | right].
        split; [assumption |]. intros [?|?]; [now apply Hne | now apply H2].
Qed.

Lemma elem_of_successors (G : RoadGraph) (u t : node) :
  t ∈ successors G u <-> exists e, e ∈ G /\ e_u e = u /\ e_v e = t.
Proof.
  unfold successors. rewrite elem_of_first_occurrences, list_elem_of_fmap.
  split.
  - intros [(e & -> & He) _]. apply list_elem_of_filter in He as [Hu He].
    now exists e.
  - intros (e & He & Hu & Hv). split; [| apply not_elem_of_nil].
    exists e. split; [now symmetry |]. apply list_elem_of_filter. now split.
Qed.

Lemma bots_on_cons (k : edge_key) (b : TrafficBot) (bs : list TrafficBot) :
  bots_on k (b :: bs) = (if decide (bot_key b = Some k) then 1 else 0) + bots_on k bs.
Proof.
  unfold bots_on. rewrite filter_cons.
  destruct (decide (bot_key b = Some k)); cbn [length]; lia.
Qed.

Lemma bots_on_app (k : edge_key) (bs1 bs2 : list TrafficBot) :
  bots_on k (bs1 ++ bs2) = bots_on k bs1 + bots_on k bs2.
Proof.
  unfold bots_on. rewrite filter_app, length_app. lia.
Qed.

Lemma bots_on_bounds (k : edge_key) (bs : list TrafficBot) :
  0 <= bots_on k bs <= Z.of_nat (length bs).
Proof.
  unfold bots_on. pose proof (length_filter (fun b => bot_key b = Some k) bs). lia.
Qed.

Lemma count_bot_density (pre : list TrafficBot) (b : TrafficBot) (d : gmap edge_key Z) :
  (forall k, d !! k = density_of pre k) ->
  forall k, count_bot d b !! k = density_of (pre ++ [b]) k.
Proof.
  intros Hd k. unfold density_of.
  rewrite bots_on_app, bots_on_cons.
  change (bots_on k []) with 0.
  pose proof (bots_on_bounds k pre) as Hb.
  pose proof (Hd k) as Hk. unfold density_of in Hk.
  unfold count_bot, bot_key.
  destruct (has_target b); [destruct (b_target b) as [t|] |].
  - destruct (decide (Some (sorted_pair (b_curr b) t) = Some k)) as [[= <-]|Hne].
    + rewrite lookup_insert_eq, Hk.
      destruct (Z.eqb_spec (bots_on (sorted_pair (b_curr b) t) pre) 0) as [E|E];
        destruct (Z.eqb_spec (bots_on (sorted_pair (b_curr b) t) pre + (1 + 0)) 0);
        try lia; cbn; f_equal; lia.
    + rewrite lookup_insert_ne by congruence.
      rewrite Hk. now replace (bots_on k pre + (0 + 0)) with (bots_on k pre) by lia.
  - destruct (decide (None = Some k)); [discriminate |].
    rewrite Hk. now replace (bots_on k pre + (0 + 0)) with (bots_on k pre) by lia.
  - destruct (decide (None = Some k)); [discriminate |].
    rewrite Hk. now replace (bots_on k pre + (0 + 0)) with (bots_on k pre) by lia.
Qed.

Lemma traffic_loop_spec (m : MapEngine) (speed : Q) (draws : nat -> nat)
    (bs : list TrafficBot) :
  forall (i : nat) (d : gmap edge_key Z) (pre bs' : list TrafficBot) (d' : gmap edge_key Z),
    (forall k, d !! k = density_of pre k) ->
    traffic_loop m speed draws i bs d = Some (bs', d') ->
    (forall k, d' !! k = density_of (pre ++ bs') k) /\
    Forall2 (fun b b' => exists j, bot_update m speed j b = Some b') bs bs'.
Proof.
  induction bs as [|b rest IH]; intros i d pre bs' d' Hd Hrun; cbn [traffic_loop] in Hrun.
  - injection Hrun as <- <-. rewrite app_nil_r. split; [assumption | constructor].
  - destruct (bot_update m speed (draws i) b) as [b1|] eqn:Hb; [| discriminate].
    destruct (traffic_loop m speed draws (S i) rest (count_bot d b1)) as [[bs1 d1]|] eqn:Hr;
      [| discriminate].
    injection Hrun as <- <-.
    destruct (IH (S i) (count_bot d b1) (pre ++ [b1]) bs1 d1
                (count_bot_density pre b1 d Hd) Hr) as [H1 H2].
    split.
    + intros k. rewrite (H1 k), <- app_assoc. reflexivity.
    + constructor; [now exists (draws i) |].
      exact H2.
Qed.

Lemma bot_drive_on_road (m : MapEngine) (speed : Q) (t : node) (b b' : TrafficBot) :
  is_Some (nodes m !! b_curr b) ->
  t ∈ successors (G_proj m) (b_curr b) ->
  bot_drive m speed t b = Some b' -> on_road m b'.
Proof using hypot.
  clear nx_shortest_path abs_shortest_path abs_shortest_path_length atan2_deg.
  intros Hc Ht. unfold bot_drive.
  destruct (nodes m !! t : option coord) as [txy|] eqn:Hn; [| discriminate].
  destruct (Qltb _ _).
  - intros [= <-]. split; cbn.
    + rewrite Hn. now eexists.
    + discriminate.
  - destruct (Qeq_bool _ _); [discriminate |].
    intros [= <-]. split; cbn; [assumption |].
    now intros t' [= <-].
Qed.

Lemma bot_retarget_on_road (m : MapEngine) (speed : Q) (draw : nat) (b b' : TrafficBot) :
  on_road m b -> bot_retarget m speed draw b = Some b' -> on_road m b'.
Proof using hypot.
  clear nx_shortest_path abs_shortest_path abs_shortest_path_length atan2_deg.
  intros Hb. unfold bot_retarget.
  destruct (nodes m !! b_curr b : option coord) as [xy|] eqn:Hc; [| discriminate].
  destruct (random_choice draw (successors (G_proj m) (b_curr b))) as [t|] eqn:Hr.
  - apply bot_drive_on_road.
    + rewrite Hc. now eexists.
    + unfold random_choice in Hr. now apply list_elem_of_lookup_2 in Hr.
  - now intros [= <-].
Qed.

Lemma bot_update_on_road (m : MapEngine) (speed : Q) (draw : nat) (b b' : TrafficBot) :
  on_road m b -> bot_update m speed draw b = Some b' -> on_road m b'.
Proof using hypot.
  clear nx_shortest_path abs_shortest_path abs_shortest_path_length atan2_deg.
  intros Hb. unfold bot_update.
  destruct (b_target b) as [t|] eqn:Ht.
  - destruct (t =? 0).
    + now apply bot_retarget_on_road.
    + destruct Hb as [Hc Hs]. apply bot_drive_on_road; auto.
  - now apply bot_retarget_on_road.
Qed.

Lemma spawn_bots_spec (m : MapEngine) (k : nat) (fresh : nat -> node) :
  forall (i : nat) (new : list TrafficBot),
    spawn_bots m k fresh i = Some new ->
    length new = k /\ Forall (on_road m) new.
Proof.
  induction k as [|k IH]; intros i new; cbn [spawn_bots].
  - intros [= <-]. split; [reflexivity | constructor].
  - unfold new_bot.
    destruct (nodes m !! fresh i) as [xy|] eqn:Hn; cbn [fmap option_fmap option_map];
      [| discriminate].
    destruct (spawn_bots m k fresh (S i)) as [bs|] eqn:Hs; [| discriminate].
    intros [= <-]. destruct (IH (S i) bs Hs) as [Hl Hf].
    split; [cbn; now f_equal |].
    constructor; [| assumption].
    split; cbn; [rewrite Hn; now eexists | discriminate].
Qed.

Lemma spawn_bots_total (m : MapEngine) (k : nat) (fresh : nat -> node) :
  (forall i, is_Some (nodes m !! fresh i)) ->
  forall i, is_Some (spawn_bots m k fresh i).
Proof.
  intros Hf. induction k as [|k IH]; intros i; cbn [spawn_bots].
  - now eexists.
  - unfold new_bot. destruct (Hf i) as [xy ->]. cbn.
    destruct (IH (S i)) as [bs ->]. now eexists.
Qed.

Lemma resize_bots_spec (m : MapEngine) (target_bots : Z) (fresh : nat -> node)
    (bs bs1 : list TrafficBot) :
  resize_bots m target_bots fresh bs = Some bs1 ->
  0 <= target_bots /\ Z.of_nat (length bs1) = target_bots /\
  (Forall (on_road m) bs -> Forall (on_road m) bs1) /\
  (bs `prefix_of` bs1 \/ bs1 `prefix_of` bs).
Proof.
  unfold resize_bots.
  destruct (Z.ltb_spec target_bots 0) as [|Hnn]; [discriminate |].
  destruct (Nat.ltb_spec (length bs) (Z.to_nat target_bots)) as [Hlt|Hge].
  - destruct (spawn_bots m (Z.to_nat target_bots - length bs) fresh 0) as [new|] eqn:Hs;
      [| discriminate].
    cbn. intros [= <-]. destruct (spawn_bots_spec _ _ _ _ _ Hs) as [Hl Hf].
    repeat apply conj.
    + assumption.
    + rewrite length_app, Hl. lia.
    + intros Hb. apply Forall_app. now split.
    + left. now exists new.
  - intros [= <-]. repeat apply conj.
    + assumption.
    + rewrite length_take. lia.
    + intros Hb. now apply Forall_take.
    + right. apply prefix_take.
Qed.

Lemma bot_drive_total (m : MapEngine) (speed : Q) (t : node) (b : TrafficBot) :
  (0 < speed)%Q -> is_Some (nodes m !! t) -> is_Some (bot_drive m speed t b).
Proof using hypot.
  clear nx_shortest_path abs_shortest_path abs_shortest_path_length atan2_deg.
  intros Hs [txy Ht]. unfold bot_drive.
  change (nodes m !! t = Some txy) in Ht.
  destruct (nodes m !! t : option coord) as [txy'|]; [| discriminate].
  destruct (Qltb _ _) eqn:Hlt; [now eexists |].
  apply Qltb_ge in Hlt.
  destruct (Qeq_bool _ 0) eqn:Hz; [| now eexists].
  exfalso. apply Qeq_bool_iff in Hz. rewrite Hz in Hlt.
  apply (Qlt_irrefl 0). eapply Qlt_le_trans; [| exact Hlt].
  apply Qmult_lt_0_compat; [assumption | reflexivity].
Qed.

Lemma bot_update_total (m : MapEngine) (speed : Q) (draw : nat) (b : TrafficBot) :
  (0 < speed)%Q -> heads_located m -> on_road m b ->
  is_Some (bot_update m speed draw b).
Proof using hypot.
  clear nx_shortest_path abs_shortest_path abs_shortest_path_length atan2_deg.
  intros Hs Hh [Hc Ht].
  assert (Hsucc : forall t, t ∈ successors (G_proj m) (b_curr b) ->
                            is_Some (nodes m !! t)).
  { intros t (e & He & _ & <-)%elem_of_successors. now apply Hh. }
  assert (Hre : is_Some (bot_retarget m speed draw b)).
  { unfold bot_retarget. destruct Hc as [xy Hc].
    change (nodes m !! b_curr b = Some xy) in Hc.
    destruct (nodes m !! b_curr b : option coord); [| discriminate].
    destruct (random_choice draw _) as [t|] eqn:Hr; [| now eexists].
    apply bot_drive_total; [assumption |]. apply Hsucc.
    unfold random_choice in Hr. now apply list_elem_of_lookup_2 in Hr. }
  unfold bot_update. destruct (b_target b) as [t|] eqn:Hb; [| exact Hre].
  destruct (t =? 0); [exact Hre |].
  apply bot_drive_total; auto.
Qed.

Lemma traffic_loop_total (m : MapEngine) (speed : Q) (draws : nat -> nat)
    (bs : list TrafficBot) :
  (0 < speed)%Q -> heads_located m -> Forall (on_road m) bs ->
  forall i d, is_Some (traffic_loop m speed draws i bs d).
Proof using hypot.
  clear nx_shortest_path abs_shortest_path abs_shortest_path_length atan2_deg.
  intros Hs Hh Hf. induction Hf as [|b rest Hb Hrest IH]; intros i d; cbn [traffic_loop].
  - now eexists.
  - destruct (bot_update_total m speed (draws i) b Hs Hh Hb) as [b1 ->].
    destruct (IH (S i) (count_bot d b1)) as [[bs1 d1] ->]. now eexists.
Qed.

Lemma density_of_nil (k : edge_key) : density_of [] k = None.
Proof. reflexivity. Qed.

(** X11: after [MapEngine.update] the list holds exactly [target_bots] bots,
    and the density map is rebuilt from nothing: its entry for a key is the
    number of bots that now head for a target along that key, and a key no
    bot is on has no entry, whatever the map held before.  Counts lie between
    1 and the population; cache, snapshot and cached graph are left as they
    were. *)
Theorem density_counts_targeted_bots (speed : Q) (target_bots : Z)
    (fresh : nat -> node) (draws : nat -> nat) (m m' : MapEngine)
    (bs bs' : list TrafficBot) :
  map_update speed target_bots fresh draws m bs = Some (m', bs') ->
  Z.of_nat (length bs') = target_bots /\
  m' = with_density (edge_density m') m /\
  (forall k, edge_density m' !! k = density_of bs' k) /\
  (forall k c, edge_density m' !! k = Some c -> 1 <= c <= target_bots).
Proof using hypot.
  clear nx_shortest_path abs_shortest_path abs_shortest_path_length atan2_deg.
  unfold map_update.
  destruct (resize_bots m target_bots fresh bs) as [bs1|] eqn:Hr; [| discriminate].
  destruct (traffic_loop m speed draws 0 bs1 ∅) as [[bs2 d]|] eqn:Hl; [| discriminate].
  intros [= <- <-].
  destruct (resize_bots_spec _ _ _ _ _ Hr) as (Hnn & Hlen & _ & _).
  destruct (traffic_loop_spec m speed draws bs1 0 ∅ [] bs2 d
              (fun k => lookup_empty k) Hl) as [Hd Hf2].
  cbn [app] in Hd. apply Forall2_length in Hf2.
  assert (Hlen2 : Z.of_nat (length bs2) = target_bots) by lia.
  repeat apply conj.
  - exact Hlen2.
  - reflexivity.
  - exact Hd.
  - intros k c. cbn. rewrite Hd. unfold density_of.
    pose proof (bots_on_bounds k bs2).
    destruct (Z.eqb_spec (bots_on k bs2) 0); [discriminate |].
    intros [= <-]. lia.
Qed.

(** X12: bots only travel along streets.  If every bot stands at a node of
    the map and heads, if at all, for a successor of that node, the same holds
    after [MapEngine.update], and every key of the new density map is the
    sorted endpoint pair of a street of [G_proj]. *)
Theorem bots_stay_on_streets (speed : Q) (target_bots : Z)
    (fresh : nat -> node) (draws : nat -> nat) (m m' : MapEngine)
    (bs bs' : list TrafficBot) :
  Forall (on_road m) bs ->
  map_update speed target_bots fresh draws m bs = Some (m', bs') ->
  Forall (on_road m') bs' /\
  (forall k, is_Some (edge_density m' !! k) ->
             exists e, e ∈ G_proj m' /\ k = sorted_pair (e_u e) (e_v e)).
Proof using hypot.
  clear nx_shortest_path abs_shortest_path abs_shortest_path_length atan2_deg.
  intros Hbs. unfold map_update.
  destruct (resize_bots m target_bots fresh bs) as [bs1|] eqn:Hr; [| discriminate].
  destruct (traffic_loop m speed draws 0 bs1 ∅) as [[bs2 d]|] eqn:Hl; [| discriminate].
  intros [= <- <-].
  destruct (resize_bots_spec _ _ _ _ _ Hr) as (_ & _ & Hon & _).
  specialize (Hon Hbs).
  destruct (traffic_loop_spec m speed draws bs1 0 ∅ [] bs2 d
              (fun k => lookup_empty k) Hl) as [Hd Hf2].
  cbn [app] in Hd.
  assert (Hon2 : Forall (on_road m) bs2).
  { clear Hd Hl Hr. induction Hf2 as [|b b' r r' [j Hj] _ IH]; [constructor |].
    inversion Hon as [|? ? Hb Hrest]; subst.
    constructor; [exact (bot_update_on_road m speed j b b' Hb Hj) | now apply IH]. }
  split; [exact Hon2 |].
  intros k [c Hk]. cbn in Hk. rewrite Hd in Hk. unfold density_of in Hk.
  destruct (Z.eqb_spec (bots_on k bs2) 0) as [|Hpos]; [discriminate |].
  unfold bots_on in Hpos.
  destruct (filter (fun b => bot_key b = Some k) bs2) as [|b r] eqn:Hfil;
    [now cbn in Hpos |].
  assert (Hin : b ∈ filter (fun b => bot_key b = Some k) bs2)
    by (rewrite Hfil; now left).
  apply list_elem_of_filter in Hin as [Hkey Hin].
  rewrite Forall_forall in Hon2. destruct (Hon2 b Hin) as [_ Ht].
  unfold bot_key in Hkey. destruct (has_target b); [| discriminate].
  destruct (b_target b) as [t|]; [| discriminate].
  injection Hkey as <-.
  destruct (proj1 (elem_of_successors _ _ _) (Ht t eq_refl)) as (e & He & Hu & Hv).
  exists e. cbn. split; [exact He | now rewrite Hu, Hv].
Qed.

(** X13: with a positive speed and a target population that is not negative,
    [MapEngine.update] raises nothing, as long as the streets end at nodes
    with coordinates, new bots are placed on such nodes and the bots are on
    streets. *)
Theorem traffic_update_completes (speed : Q) (target_bots : Z)
    (fresh : nat -> node) (draws : nat -> nat) (m : MapEngine)
    (bs : list TrafficBot) :
  (0 < speed)%Q -> 0 <= target_bots ->
  (forall i, is_Some (nodes m !! fresh i)) ->
  heads_located m -> Forall (on_road m) bs ->
  is_Some (map_update speed target_bots fresh draws m bs).
Proof using hypot.
  clear nx_shortest_path abs_shortest_path abs_shortest_path_length atan2_deg.
  intros Hs Hnn Hfresh Hh Hbs. unfold map_update.
  assert (Hres : is_Some (resize_bots m target_bots fresh bs)).
  { unfold resize_bots. destruct (Z.ltb_spec target_bots 0); [lia |].
    destruct (length bs <? Z.to_nat target_bots)%nat; [| now eexists].
    destruct (spawn_bots_total m (Z.to_nat target_bots - length bs) fresh Hfresh 0%nat)
      as [new ->].
    now eexists. }
  destruct Hres as [bs1 Hr]. rewrite Hr.
  destruct (resize_bots_spec _ _ _ _ _ Hr) as (_ & _ & Hon & _).
  destruct (traffic_loop_total m speed draws bs1 Hs Hh (Hon Hbs) 0%nat ∅)
    as [[bs2 d] ->].
  now eexists.
Qed.

(** ** The vehicle: missions, waiting and errors *)

(** X14: [start] reads the first and the last waypoint only: whatever is
    selected in between, the call behaves as on the two-element list of the
    endpoints.  It raises when the first waypoint has no coordinates. *)
Theorem start_ignores_intermediate_waypoints (m : MapEngine) (av : AV)
    (a c : node) (mid : list node) :
  start m av (a :: mid ++ [c]) = start m av [a; c] /\
  (nodes m !! a = None -> start m av (a :: mid ++ [c]) = None).
Proof using nx_shortest_path abs_shortest_path abs_shortest_path_length.
  clear hypot atan2_deg.
  assert (Hlen : (length (a :: mid ++ [c]) <? 2)%nat = false).
  { apply Nat.ltb_ge. cbn [length]. rewrite length_app. cbn [length]. lia. }
  assert (Hlast : last (a :: mid ++ [c]) = Some c).
  { change (a :: mid ++ [c]) with ((a :: mid) ++ [c]). apply last_snoc. }
  unfold start. rewrite Hlen, Hlast. cbn [head length Nat.ltb Nat.leb last].
  split; [reflexivity |].
  intros Hn. change (nodes m !! a = None) in Hn.
  destruct (nodes m !! a) eqn:E; [discriminate | reflexivity].
Qed.

Lemma advance_in_range (speed : Q) (av : AV) :
  (0 <= speed)%Q -> at_leg_end av = false -> is_Some (advance speed av).
Proof using hypot atan2_deg.
  clear nx_shortest_path abs_shortest_path abs_shortest_path_length.
  intros Hs Hend. unfold at_leg_end in Hend. apply Z.leb_gt in Hend.
  assert (Hlt : (S (coord_idx av) < length (path_coords av))%nat) by lia.
  apply lookup_lt_is_Some_2 in Hlt. destruct Hlt as [target Ht].
  unfold advance. change (path_coords av !! S (coord_idx av) = Some target) in Ht.
  destruct (path_coords av !! S (coord_idx av)) as [tg|]; [| discriminate].
  destruct (Qle_bool _ _) eqn:Hle; [now eexists |].
  destruct (Qeq_bool _ 0) eqn:Hz; [| now eexists].
  exfalso. apply Qeq_bool_iff in Hz.
  assert (Hle' : Qle_bool (hypot (fst tg - fst (pos av)) (snd tg - snd (pos av)))
                   (speed * 2) = true).
  { apply Qle_bool_iff. rewrite Hz.
    apply Qmult_le_0_compat; [assumption | discriminate]. }
  congruence.
Qed.

(** X15: with a speed that is not negative, [AV.update] raises in exactly one
    situation: the vehicle is active and WAITING at a node without a label
    (the one lookup in [node_mapping] without a default).  A MOVING vehicle
    never reads past the end of its leg and never divides by a zero
    distance. *)
Theorem update_raises_only_when_waiting_unlabelled (speed : Q) (dt : Z) (now : Q)
    (m : MapEngine) (av : AV) :
  (0 <= speed)%Q ->
  (update speed dt now m av = None <->
   active av = true /\ state av = "WAITING" /\
   (current_node av ≫= fun n => node_mapping (graph_sys m) !! n) = None).
Proof using nx_shortest_path abs_shortest_path abs_shortest_path_length hypot atan2_deg.
  intros Hs. unfold update.
  destruct (active av) eqn:Ha; cbn [negb].
  2:{ split; [discriminate | now intros [? _]]. }
  destruct (String.eqb_spec (state av) "WAITING") as [Hw|Hw].
  - destruct (current_node av ≫= _) as [lbl|] eqn:Hl.
    + split; [| now intros (_ & _ & ?)].
      destruct (Qle_bool _ 0); discriminate.
    + split; [now intros _ | reflexivity].
  - split; [| now intros (_ & ? & _)].
    destruct (String.eqb (state av) "MOVING"); [| discriminate].
    destruct (periodic_check now m av) as [m1 av1].
    destruct (at_leg_end av1) eqn:Hend; [discriminate |].
    destruct (advance_in_range speed av1 Hs Hend) as [a ->]. discriminate.
Qed.



(** ** What planning leaves alone *)

Lemma same_world_refl (m : MapEngine) : same_world m m.
Proof. unfold same_world. now repeat split. Qed.

Lemma same_world_trans (m1 m2 m3 : MapEngine) :
  same_world m1 m2 -> same_world m2 m3 -> same_world m1 m3.
Proof.
  intros (A1 & A2 & A3 & A4 & A5 & A6) (B1 & B2 & B3 & B4 & B5 & B6).
  unfold same_world. repeat apply conj; try congruence.
  now transitivity (phys_path_cache m2).
Qed.

Lemma same_world_with_cache (m m' : MapEngine) :
  m' = with_cache (phys_path_cache m') m ->
  phys_path_cache m ⊆ phys_path_cache m' -> same_world m m'.
Proof. intros -> Hsub. unfold same_world. now repeat split. Qed.

Lemma get_phys_path_world (m : MapEngine) (u v : node) :
  same_world m (snd (get_phys_path m u v)).
Proof.
  destruct (get_phys_path_frame m u v) as [Hsub Hm].
  now apply same_world_with_cache.
Qed.

Lemma build_fold_world (conns : list (node * node)) :
  forall (G : Graph) (m : MapEngine),
    same_world m (snd (fold_left build_step conns (G, m))).
Proof.
  induction conns as [|[u v] conns IH]; intros G m; cbn [fold_left].
  - apply same_world_refl.
  - pose proof (get_phys_path_world m u v) as Hg.
    unfold build_step at 2. cbn [fst snd].
    destruct (get_phys_path m u v) as [[[|x r]|] m1]; cbn [snd] in Hg;
      (eapply same_world_trans; [exact Hg | apply IH]).
Qed.

Lemma build_world (gs : AbstractGraph) (force : bool) (m : MapEngine) :
  same_world m (snd (build_abstract_graph gs force m)).
Proof.
  assert (Hr : same_world m (snd (rebuild gs m))).
  { unfold rebuild. pose proof (build_fold_world (connections gs) empty_graph m) as H.
    destruct (fold_left build_step (connections gs) (empty_graph, m)) as [G m1].
    cbn [snd] in H |- *. exact H. }
  unfold build_abstract_graph.
  destruct (negb force && _); [| exact Hr].
  destruct (G_abs_cached m); [apply same_world_refl | exact Hr].
Qed.

Lemma annotate_costs_world (m : MapEngine) : same_world m (annotate_costs m).
Proof.
  unfold same_world, annotate_costs. cbn. repeat apply conj; try reflexivity.
  induction (G_proj m) as [|e r IH]; [reflexivity |].
  cbn. now f_equal.
Qed.

Lemma choose_route_world (G : Graph) (m : MapEngine) (cur fin : node)
    (raw_proj : list node) (chosen : node) :
  same_world m (fst (choose_route G m cur fin raw_proj chosen)).
Proof.
  unfold choose_route.
  destruct (best_neighbor G cur fin) as [bn|]; [| apply same_world_refl].
  destruct (bool_decide (bn <> chosen)); [| apply same_world_refl].
  pose proof (get_phys_path_world m cur bn) as Hg.
  destruct (get_phys_path m cur bn) as [[[|x r]|] m1]; cbn [fst snd] in *; try exact Hg.
  destruct (abs_shortest_path G bn fin); exact Hg.
Qed.

Lemma physical_leg_world (m : MapEngine) (av : AV) :
  same_world m (fst (physical_leg m av)).
Proof.
  unfold physical_leg. repeat case_match; cbn [fst]; apply annotate_costs_world.
Qed.

Lemma plan_on_world (G : Graph) (m : MapEngine) (av : AV) :
  same_world m (fst (plan_on G m av)).
Proof.
  unfold plan_on.
  destruct (current_node av) as [cur|]; [| apply same_world_refl].
  destruct (final_dest av) as [fin|]; [| apply same_world_refl].
  destruct (abs_shortest_path G cur fin) as [[|a [|chosen rest]]|];
    try apply same_world_refl.
  pose proof (choose_route_world G m cur fin (a :: chosen :: rest) chosen) as Hc.
  destruct (choose_route G m cur fin (a :: chosen :: rest) chosen)
    as [m1 [[nxt proj] sw]].
  cbn [fst] in Hc. eapply same_world_trans; [exact Hc | apply physical_leg_world].
Qed.

Lemma physical_leg_outcome (m : MapEngine) (av : AV) :
  let av' := snd (physical_leg m av) in
  mission_kept av av' /\ events av' = events av /\
  next_node_target av' = next_node_target av /\
  (active av' = false /\ state av' = state av /\ alert av' = "Road Blocked" \/
   active av' = active av /\ state av' = "MOVING" /\ coord_idx av' = 0%nat /\
   is_Some (next_node_target av')).
Proof.
  unfold physical_leg, mission_kept.
  repeat case_match; cbn; repeat apply conj; try reflexivity; auto 10.
Qed.

Lemma plan_on_outcome (G : Graph) (m : MapEngine) (av : AV) :
  let av' := snd (plan_on G m av) in
  mission_kept av av' /\
  (active av' = false /\ state av' = state av /\ events av' = events av /\
   (alert av' = "No Route!" \/ alert av' = "Road Blocked") \/
   active av' = false /\ state av' = "FINISHED" /\ alert av' = "Arrived" /\
   events av' = events av ++ [arrival_event] \/
   active av' = active av /\ state av' = "MOVING" /\ events av' = events av /\
   coord_idx av' = 0%nat /\ is_Some (next_node_target av')).
Proof.
  unfold plan_on.
  destruct (current_node av) as [cur|] eqn:Hc;
    [| unfold mission_kept; cbn; repeat apply conj; auto 10].
  destruct (final_dest av) as [fin|] eqn:Hf;
    [| unfold mission_kept; cbn; repeat apply conj; auto 10].
  destruct (abs_shortest_path G cur fin) as [[|a [|chosen rest]]|];
    try (unfold mission_kept; cbn; repeat apply conj; auto 10; fail).
  destruct (choose_route G m cur fin (a :: chosen :: rest) chosen)
    as [m1 [[nxt proj] sw]].
  set (av1 := with_route nxt proj _ av).
  destruct (physical_leg_outcome m1 av1) as (Hk & He & Hn & Hcase).
  cbv zeta in Hk, He, Hn, Hcase.
  split.
  - unfold mission_kept in Hk |- *. subst av1. cbn in Hk. exact Hk.
  - destruct Hcase as [(Ha & Hs & Hal)|(Ha & Hs & Hi & Hnx)].
    + left. subst av1. cbn in Hs, He. auto 10.
    + right. right. subst av1. cbn in Ha, He. auto 10.
Qed.

(** X17: planning never moves the vehicle or changes its mission.  After
    [calculate_mission_and_go] position, current node, destination, heading
    and timers are as before, and the outcome is one of three: stopped with
    "No Route!" or "Road Blocked" (state label and events untouched), stopped
    as FINISHED with the arrival event appended, or MOVING on a new leg with
    the cursor at 0.  In the engine only the path cache (which grows), the
    cached graph with its snapshot and the [curr_cost] of streets change. *)
Theorem planning_keeps_position_and_mission (m : MapEngine) (av : AV) :
  let m' := fst (calculate_mission_and_go m av) in
  let av' := snd (calculate_mission_and_go m av) in
  mission_kept av av' /\
  (active av' = false /\ state av' = state av /\ events av' = events av /\
   (alert av' = "No Route!" \/ alert av' = "Road Blocked") \/
   active av' = false /\ state av' = "FINISHED" /\ alert av' = "Arrived" /\
   events av' = events av ++ [arrival_event] \/
   active av' = active av /\ state av' = "MOVING" /\ events av' = events av /\
   coord_idx av' = 0%nat /\ is_Some (next_node_target av')) /\
  same_world m m'.
Proof using nx_shortest_path abs_shortest_path abs_shortest_path_length.
  clear hypot atan2_deg.
  cbv zeta. unfold calculate_mission_and_go.
  pose proof (build_world (graph_sys m) false m) as H0.
  destruct (build_abstract_graph (graph_sys m) false m) as [G0 m0]. cbn [snd] in H0.
  destruct (absent G0 av).
  - pose proof (build_world (graph_sys m) true m0) as H1.
    destruct (build_abstract_graph (graph_sys m) true m0) as [G1 m1]. cbn [snd] in H1.
    destruct (absent G1 av).
    + cbn [fst snd]. split; [| split].
      * unfold mission_kept. now cbn.
      * left. cbn. auto 10.
      * eapply same_world_trans; eassumption.
    + destruct (plan_on_outcome G1 m1 av) as [Hk Hc].
      split; [exact Hk | split; [exact Hc |]].
      eapply same_world_trans; [exact H0 |].
      eapply same_world_trans; [exact H1 | apply plan_on_world].
  - destruct (plan_on_outcome G0 m0 av) as [Hk Hc].
    split; [exact Hk | split; [exact Hc |]].
    eapply same_world_trans; [exact H0 | apply plan_on_world].
Qed.

(** X18: what a mid-leg check does.  When [check_dynamic_reroute] returns
    False the vehicle is untouched.  It returns True only for a vehicle whose
    current node is in the graph [G] of the unforced build: then the route it
    records is the base path [nx.shortest_path(G, current, final)], the new
    next hop is the best neighbour of the lookahead, which is not the second
    node of that base path, the leg's coordinates are those of the sequence
    [get_phys_path(current, hop)] returns, which is the cache entry of the
    sorted pair in the order stored, the cursor is back at 0 and the alert
    names the hop.  Nothing else in the vehicle changes, and the engine
    changes as for any query. *)
Theorem midleg_reroute_effects (m m' : MapEngine) (av av' : AV) (b : bool) :
  check_dynamic_reroute m av = (m', Some (av', b)) ->
  same_world m m' /\
  (b = false -> av' = av) /\
  (b = true ->
   let G := fst (build_abstract_graph (graph_sys m) false m) in
   let m1 := snd (build_abstract_graph (graph_sys m) false m) in
   exists (cur fin bn hd chosen : node) (rest : list node) (p : path),
     current_node av = Some cur /\ final_dest av = Some fin /\
     graph_has_node G cur = true /\
     abs_shortest_path G cur fin = Some (projected_path av') /\
     projected_path av' = hd :: chosen :: rest /\
     best_neighbor G cur fin = Some bn /\ bn <> chosen /\
     next_node_target av' = Some bn /\
     get_phys_path m1 cur bn = (Some p, m') /\
     phys_path_cache m' !! sorted_pair cur bn = Some p /\ p <> [] /\
     coords_of m' p = Some (path_coords av') /\
     coord_idx av' = 0%nat /\
     alert av' = ("Rerouted -> " +:+ label_of (graph_sys m) (Some bn) +:+ " (mid-leg)")%string /\
     av' = with_route bn (projected_path av') (alert av')
             (with_leg (path_coords av') (alert av) (state av) av)).
Proof using nx_shortest_path abs_shortest_path abs_shortest_path_length.
  clear hypot atan2_deg.
  unfold check_dynamic_reroute.
  pose proof (build_world (graph_sys m) false m) as H0.
  destruct (build_abstract_graph (graph_sys m) false m) as [G m1]. cbn [fst snd] in *.
  destruct (current_node av) as [cur|] eqn:Hcur.
  2:{ intros [= <- <- <-]. split; [exact H0 | split; [reflexivity | discriminate]]. }
  destruct (final_dest av) as [fin|] eqn:Hfin.
  2:{ intros [= <- <- <-]. split; [exact H0 | split; [reflexivity | discriminate]]. }
  destruct (graph_has_node G cur) eqn:HinG; cbn [negb].
  2:{ intros [= <- <- <-]. split; [exact H0 | split; [reflexivity | discriminate]]. }
  destruct (abs_shortest_path G cur fin) as [[|hd [|chosen rest]]|] eqn:Hbase;
    try discriminate.
  2:{ intros [= <- <- <-]. split; [exact H0 | split; [reflexivity | discriminate]]. }
  destruct (best_neighbor G cur fin) as [bn|] eqn:Hbest.
  2:{ intros [= <- <- <-]. split; [exact H0 | split; [reflexivity | discriminate]]. }
  case_bool_decide as Hne.
  2:{ intros [= <- <- <-]. split; [exact H0 | split; [reflexivity | discriminate]]. }
  pose proof (get_phys_path_world m1 cur bn) as Hg.
  destruct (get_phys_path m1 cur bn) as [[[|x r]|] m2] eqn:Eg; cbn [snd] in Hg.
  - intros [= <- <- <-].
    split; [eapply same_world_trans; eassumption | split; [reflexivity | discriminate]].
  - destruct (coords_of m2 (x :: r)) as [pc|] eqn:Ec; [| discriminate].
    intros [= <- <- <-].
    split; [eapply same_world_trans; eassumption |].
    split; [discriminate |]. intros _.
    exists cur, fin, bn, hd, chosen, rest, (x :: r). cbn.
    split; [reflexivity |]. split; [reflexivity |]. split; [exact HinG |].
    split; [exact Hbase |]. split; [reflexivity |]. split; [exact Hbest |].
    split; [exact Hne |]. split; [reflexivity |]. split; [exact Eg |].
    split; [exact (get_phys_path_stores _ _ _ _ _ Eg) |].
    split; [discriminate |]. split; [exact Ec |].
    repeat split.
  - intros [= <- <- <-].
    split; [eapply same_world_trans; eassumption | split; [reflexivity | discriminate]].
Qed.

(** ** Blocking as a toggle *)

Lemma remove_first_spec (e : node * node * Z) (l : list (node * node * Z)) :
  NoDup l -> NoDup (remove_first e l) /\
  forall x, x ∈ remove_first e l <-> x ∈ l /\ x <> e.
Proof.
  induction l as [|y r IH]; cbn [remove_first].
  - intros _. split; [constructor |]. intros x. split; [intros H | intros [H _]];
      now apply elem_of_nil in H.
  - intros Hnd. apply NoDup_cons in Hnd as [Hy Hr].
    case_bool_decide as Hye.
    + subst y. split; [exact Hr |]. intros x. rewrite elem_of_cons. split.
      * intros Hx. split; [now right | intros ->; contradiction].
      * intros [[->|Hx] Hxn]; [contradiction | exact Hx].
    + destruct (IH Hr) as [Hnd' Hmem]. split.
      * apply NoDup_cons. split; [| exact Hnd']. rewrite Hmem.
        intros [Hin _]. contradiction.
      * intros x. rewrite !elem_of_cons, Hmem. split.
        -- intros [->|[Hx Hxn]]; auto.
        -- intros [[->|Hx] Hxn]; auto.
Qed.

Lemma remove_first_snoc (e : node * node * Z) (l : list (node * node * Z)) :
  e ∉ l -> remove_first e (l ++ [e]) = l.
Proof.
  induction l as [|y r IH]; intros Hn; cbn [remove_first app].
  - now rewrite bool_decide_eq_true_2.
  - apply not_elem_of_cons in Hn as [Hne Hr].
    rewrite bool_decide_eq_false_2 by congruence.
    now rewrite IH.
Qed.

Lemma remove_first_perm (e : node * node * Z) (l : list (node * node * Z)) :
  e ∈ l -> remove_first e l ++ [e] ≡ₚ l.
Proof.
  induction l as [|y r IH]; intros Hin; [now apply elem_of_nil in Hin |].
  cbn [remove_first]. case_bool_decide as Hye.
  - subst y. symmetry. apply Permutation_cons_append.
  - apply elem_of_cons in Hin as [->|Hin]; [contradiction |].
    cbn [app]. now rewrite (IH Hin).
Qed.

(** X19: [block_at] is a toggle on the blocked list.  On a list without
    repetitions it flips the membership of the edge found and of no other
    and keeps the list free of repetitions; toggling twice gives back the
    same set of blocked edges (the same list, if the edge was not blocked
    before).  Each toggle empties the path cache and drops the cached graph,
    so the next build recomputes even when not forced; streets, coordinates
    and densities are not touched. *)
Theorem block_at_toggles_one_edge (gs : AbstractGraph) (e : node * node * Z)
    (m : MapEngine) :
  NoDup (blocked_edges m) ->
  let m' := block_at (Some e) m in
  NoDup (blocked_edges m') /\
  (e ∈ blocked_edges m' <-> e ∉ blocked_edges m) /\
  (forall x, x <> e -> (x ∈ blocked_edges m' <-> x ∈ blocked_edges m)) /\
  blocked_edges (block_at (Some e) m') ≡ₚ blocked_edges m /\
  (e ∉ blocked_edges m -> blocked_edges (block_at (Some e) m') = blocked_edges m) /\
  m' = invalidate_phys_cache
         (mk_MapEngine (G_proj m) (nodes m) (graph_sys m) (edge_density m)
            (blocked_edges m') (phys_path_cache m) (G_abs_cached m)
            (last_edge_density_snapshot m)) /\
  build_abstract_graph gs false m' = rebuild gs m'.
Proof using nx_shortest_path.
  clear abs_shortest_path abs_shortest_path_length hypot atan2_deg.
  intros Hnd. cbv zeta.
  destruct (remove_first_spec e (blocked_edges m) Hnd) as [Hnd' Hmem].
  assert (Hbl : blocked_edges (block_at (Some e) m) =
                if bool_decide (e ∈ blocked_edges m)
                then remove_first e (blocked_edges m)
                else blocked_edges m ++ [e]) by reflexivity.
  assert (Hbl2 : forall m1, blocked_edges (block_at (Some e) m1) =
                 if bool_decide (e ∈ blocked_edges m1)
                 then remove_first e (blocked_edges m1)
                 else blocked_edges m1 ++ [e]) by reflexivity.
  assert (Hlast : e ∈ blocked_edges m ++ [e]) by (apply elem_of_app; right; now left).
  destruct (decide (e ∈ blocked_edges m)) as [Hin|Hin].
  - rewrite (bool_decide_eq_true_2 _ Hin) in Hbl.
    assert (Hout : e ∉ blocked_edges (block_at (Some e) m)).
    { rewrite Hbl, Hmem. now intros [_ ?]. }
    split; [| split; [| split; [| split; [| split; [| split]]]]].
    + rewrite Hbl. exact Hnd'.
    + split; [intros ?; contradiction | intros ?; contradiction].
    + intros x Hx. rewrite Hbl, Hmem. split; [now intros [? _] | now intros ?].
    + rewrite Hbl2, (bool_decide_eq_false_2 _ Hout), Hbl.
      now apply remove_first_perm.
    + intros ?. contradiction.
    + reflexivity.
    + apply build_rebuilds. right. right. reflexivity.
  - rewrite (bool_decide_eq_false_2 _ Hin) in Hbl.
    assert (Hnow : e ∈ blocked_edges (block_at (Some e) m)) by now rewrite Hbl.
    split; [| split; [| split; [| split; [| split; [| split]]]]].
    + rewrite Hbl. apply NoDup_app. split; [exact Hnd |].
      split; [| apply NoDup_singleton].
      intros x Hx Hx'. apply list_elem_of_singleton in Hx'. now subst x.
    + split; [now intros _ | now intros _].
    + intros x Hx. rewrite Hbl, elem_of_app, list_elem_of_singleton.
      split; [intros [?|?]; [assumption | contradiction] | now left].
    + rewrite Hbl2, (bool_decide_eq_true_2 _ Hnow), Hbl.
      now rewrite remove_first_snoc.
    + intros _. rewrite Hbl2, (bool_decide_eq_true_2 _ Hnow), Hbl.
      now apply remove_first_snoc.
    + reflexivity.
    + apply build_rebuilds. right. right. reflexivity.
Qed.

(** ** Fitting the map into its panel *)

Lemma fold_min_spec (r : list Q) :
  forall x, (fold_left Qmin2 r x <= x)%Q /\
            Forall (fun y => (fold_left Qmin2 r x <= y)%Q) r.
Proof.
  induction r as [|y r IH]; intros x; cbn [fold_left].
  - split; [apply Qle_refl | constructor].
  - destruct (IH (Qmin2 x y)) as [H1 H2].
    destruct (Qmin2_spec x y) as (Hb & _ & _).
    assert (Ha : (Qmin2 x y <= x)%Q).
    { unfold Qmin2. destruct (Qle_bool x y) eqn:E; [apply Qle_refl |].
      apply Qlt_le_weak, Qnot_le_lt. intros Hle. apply Qle_bool_iff in Hle. congruence. }
    split; [eapply Qle_trans; eassumption |].
    constructor; [eapply Qle_trans; eassumption | exact H2].
Qed.

Lemma fold_max_spec (r : list Q) :
  forall x, (x <= fold_left Qmax2 r x)%Q /\
            Forall (fun y => (y <= fold_left Qmax2 r x)%Q) r.
Proof.
  induction r as [|y r IH]; intros x; cbn [fold_left].
  - split; [apply Qle_refl | constructor].
  - destruct (IH (Qmax2 x y)) as [H1 H2].
    assert (Ha : (x <= Qmax2 x y)%Q /\ (y <= Qmax2 x y)%Q).
    { unfold Qmax2. destruct (Qle_bool y x) eqn:E.
      - split; [apply Qle_refl | now apply Qle_bool_iff].
      - split; [| apply Qle_refl].
        apply Qlt_le_weak, Qnot_le_lt. intros Hle. apply Qle_bool_iff in Hle. congruence. }
    destruct Ha as [Ha Hb].
    split; [eapply Qle_trans; eassumption |].
    constructor; [eapply Qle_trans; eassumption | exact H2].
Qed.

Lemma py_min_spec (l : list Q) (mn : Q) :
  py_min l = Some mn -> Forall (fun y => (mn <= y)%Q) l.
Proof.
  destruct l as [|x r]; [discriminate |]. intros [= <-].
  destruct (fold_min_spec r x) as [H1 H2]. now constructor.
Qed.

Lemma py_max_spec (l : list Q) (mx : Q) :
  py_max l = Some mx -> Forall (fun y => (y <= mx)%Q) l.
Proof.
  destruct l as [|x r]; [discriminate |]. intros [= <-].
  destruct (fold_max_spec r x) as [H1 H2]. now constructor.
Qed.

Lemma scaled_extent (W span k : Q) :
  (0 < span)%Q -> (k <= W / span)%Q -> (span * (k * (9 # 10)) <= (9 # 10) * W)%Q.
Proof.
  intros Hs Hk.
  assert (H1 : (span * k <= span * (W / span))%Q).
  { rewrite !(Qmult_comm span). apply Qmult_le_compat_r; [exact Hk |].
    now apply Qlt_le_weak. }
  assert (H2 : (span * (W / span) == W)%Q).
  { apply Qmult_div_r. intros H0. rewrite H0 in Hs. now apply Qlt_irrefl in Hs. }
  rewrite H2 in H1.
  assert (E : (span * (k * (9 # 10)) == (9 # 10) * (span * k))%Q) by ring.
  rewrite E. lra.
Qed.

Lemma placed_inside (W span s off v mn mx : Q) :
  (0 < s)%Q -> (mn <= v)%Q -> (v <= mx)%Q -> (span == mx - mn)%Q ->
  (span * s <= (9 # 10) * W)%Q -> (off == (W - span * s) / 2)%Q ->
  ((1 # 20) * W <= (v - mn) * s + off)%Q /\ ((v - mn) * s + off <= (19 # 20) * W)%Q.
Proof.
  intros Hs Hlo Hhi Hspan Hext Hoff.
  assert (H0 : (0 <= (v - mn) * s)%Q).
  { apply Qmult_le_0_compat; [lra | now apply Qlt_le_weak]. }
  assert (H1 : ((v - mn) * s <= span * s)%Q).
  { apply Qmult_le_compat_r; [lra | now apply Qlt_le_weak]. }
  assert (Hoff' : (off == (W - span * s) * (1 # 2))%Q) by (rewrite Hoff; reflexivity).
  lra.
Qed.

Lemma fold_place_lookup (screen_h : Z) (pl : Placement) (nd : list (node * coord)) :
  forall (acc : gmap node coord) (n : node),
    let r := fold_left (fun acc d => <[fst d := place screen_h pl (snd d)]> acc) nd acc in
    (n ∉ nd.*1 -> r !! n = acc !! n) /\
    (n ∈ nd.*1 -> exists xy, (n, xy) ∈ nd /\ r !! n = Some (place screen_h pl xy)).
Proof.
  induction nd as [|[k xy] nd IH]; intros acc n; cbn [fold_left fmap list_fmap fst snd].
  - split; [reflexivity | intros H; now apply elem_of_nil in H].
  - destruct (IH (<[k := place screen_h pl xy]> acc) n) as [Hout Hin].
    cbv zeta in Hout, Hin. split.
    + intros Hn. apply not_elem_of_cons in Hn as [Hne Hn].
      rewrite (Hout Hn). now apply lookup_insert_ne.
    + intros Hn. destruct (decide (n ∈ nd.*1)) as [Hd|Hd].
      * destruct (Hin Hd) as (xy0 & Hmem & Hl).
        exists xy0. split; [now right | exact Hl].
      * apply elem_of_cons in Hn as [->|Hn]; [| contradiction].
        exists xy. split; [now left |].
        rewrite (Hout Hd). apply lookup_insert_eq.
Qed.

(** X20: [normalize_coords] fits the map into its panel.  When it returns,
    the extent it records is the least and the greatest [x] and [y] of the
    road graph's nodes, the scale is positive, every node of the road graph
    has screen coordinates computed from its projected ones by the one
    placement (entries of other keys are left alone), and every such point
    lies strictly inside the panel of [max(200, map_w)] by
    [max(200, screen_h)], more than a twenty-fifth of the extent away from
    each border.  (The scale leaves a twentieth on each side; the outermost
    nodes sit on that line up to rounding, which is why the bound stated is
    the smaller one.)  Of the engine's fields kept in [MapEngine] only
    [nodes] changes; the other attributes assigned are the placement. *)
Theorem normalized_nodes_fit_panel (map_w screen_h : Z) (nd : list (node * coord))
    (m m' : MapEngine) (pl : Placement) :
  normalize_coords map_w screen_h nd m = Some (pl, m') ->
  (py_min ((fun d => fst (snd d)) <$> nd) = Some (p_min_x pl) /\
   py_max ((fun d => fst (snd d)) <$> nd) = Some (p_max_x pl) /\
   py_min ((fun d => snd (snd d)) <$> nd) = Some (p_min_y pl) /\
   py_max ((fun d => snd (snd d)) <$> nd) = Some (p_max_y pl)) /\
  (0 < p_scale pl)%Q /\
  m' = with_nodes (nodes m') m /\
  (forall n, n ∉ nd.*1 -> nodes m' !! n = nodes m !! n) /\
  (forall n, n ∈ nd.*1 ->
     exists xy, (n, xy) ∈ nd /\ nodes m' !! n = Some (place screen_h pl xy)) /\
  (forall n xy, (n, xy) ∈ nd ->
     inside_margins screen_h (inject_Z (Z.max 200 map_w))
       (inject_Z (Z.max 200 screen_h)) (place screen_h pl xy)).
Proof using.
  clear.
  unfold normalize_coords.
  destruct (py_min ((fun d => fst (snd d)) <$> nd)) as [min_x|] eqn:Hminx; [| discriminate].
  destruct (py_max ((fun d => fst (snd d)) <$> nd)) as [max_x|] eqn:Hmaxx; [| discriminate].
  destruct (py_min ((fun d => snd (snd d)) <$> nd)) as [min_y|] eqn:Hminy; [| discriminate].
  destruct (py_max ((fun d => snd (snd d)) <$> nd)) as [max_y|] eqn:Hmaxy; [| discriminate].
  destruct (Qeq_bool (max_x - min_x) 0) eqn:Hzx; [discriminate |].
  destruct (Qeq_bool (max_y - min_y) 0) eqn:Hzy; [discriminate |].
  intros [= <- <-].
  split; [cbn [p_min_x p_max_x p_min_y p_max_y]; repeat split; reflexivity |].
  assert (Hne : exists d, d ∈ nd).
  { destruct nd as [|d nd]; [discriminate | exists d; now left]. }
  destruct Hne as [d0 Hd0].
  apply py_min_spec in Hminx. apply py_max_spec in Hmaxx.
  apply py_min_spec in Hminy. apply py_max_spec in Hmaxy.
  rewrite Forall_fmap in Hminx, Hmaxx, Hminy, Hmaxy.
  rewrite Forall_forall in Hminx, Hmaxx, Hminy, Hmaxy.
  apply Qeq_bool_neq in Hzx. apply Qeq_bool_neq in Hzy.
  set (W := inject_Z (Z.max 200 map_w)).
  set (H := inject_Z (Z.max 200 screen_h)).
  assert (HW : (0 < W)%Q).
  { unfold W. change 0%Q with (inject_Z 0). rewrite <- Zlt_Qlt. lia. }
  assert (HH : (0 < H)%Q).
  { unfold H. change 0%Q with (inject_Z 0). rewrite <- Zlt_Qlt. lia. }
  assert (Hsx : (0 < max_x - min_x)%Q).
  { pose proof (Hminx d0 Hd0) as A. pose proof (Hmaxx d0 Hd0) as B. cbn in A, B.
    destruct (Qlt_le_dec 0 (max_x - min_x)) as [|Hle]; [assumption |].
    exfalso. apply Hzx. lra. }
  assert (Hsy : (0 < max_y - min_y)%Q).
  { pose proof (Hminy d0 Hd0) as A. pose proof (Hmaxy d0 Hd0) as B. cbn in A, B.
    destruct (Qlt_le_dec 0 (max_y - min_y)) as [|Hle]; [assumption |].
    exfalso. apply Hzy. lra. }
  set (a := (W / (max_x - min_x))%Q).
  set (b := (H / (max_y - min_y))%Q).
  assert (Ha : (0 < a)%Q).
  { unfold a, Qdiv. apply Qmult_lt_0_compat; [exact HW | now apply Qinv_lt_0_compat]. }
  assert (Hb : (0 < b)%Q).
  { unfold b, Qdiv. apply Qmult_lt_0_compat; [exact HH | now apply Qinv_lt_0_compat]. }
  destruct (Qmin2_spec a b) as (Hmb & _ & _).
  assert (Hma : (Qmin2 a b <= a)%Q).
  { unfold Qmin2. destruct (Qle_bool a b) eqn:E; [apply Qle_refl |].
    apply Qlt_le_weak, Qnot_le_lt. intros Hle. apply Qle_bool_iff in Hle. congruence. }
  assert (Hmpos : (0 < Qmin2 a b)%Q).
  { unfold Qmin2. now destruct (Qle_bool a b). }
  set (scale := (Qmin2 a b * (9 # 10))%Q).
  assert (Hscale : (0 < scale)%Q).
  { unfold scale. apply Qmult_lt_0_compat; [exact Hmpos | reflexivity]. }
  pose proof (scaled_extent W (max_x - min_x) (Qmin2 a b) Hsx Hma) as Hex.
  pose proof (scaled_extent H (max_y - min_y) (Qmin2 a b) Hsy Hmb) as Hey.
  fold scale in Hex, Hey.
  cbn [p_scale nodes with_nodes].
  split; [exact Hscale |].
  split; [reflexivity |].
  match goal with
  | |- context [fold_left ?f nd (nodes m)] =>
      pose proof (fun n => fold_place_lookup screen_h
                    (mk_Placement min_x max_x min_y max_y scale
                       ((W - (max_x - min_x) * scale) / 2)
                       ((H - (max_y - min_y) * scale) / 2)) nd (nodes m) n) as Hfold
  end.
  cbv zeta in Hfold.
  split; [intros n Hn; exact (proj1 (Hfold n) Hn) |].
  split; [intros n Hn; exact (proj2 (Hfold n) Hn) |].
  intros n xy Hin. unfold inside_margins, place. cbn [fst snd p_min_x p_min_y p_scale p_off_x p_off_y].
  pose proof (Hminx _ Hin) as A1. pose proof (Hmaxx _ Hin) as A2.
  pose proof (Hminy _ Hin) as B1. pose proof (Hmaxy _ Hin) as B2.
  cbn [fst snd] in A1, A2, B1, B2.
  destruct (placed_inside W (max_x - min_x) scale ((W - (max_x - min_x) * scale) / 2)
              (fst xy) min_x max_x Hscale A1 A2 (Qeq_refl _) Hex (Qeq_refl _)) as [X1 X2].
  destruct (placed_inside H (max_y - min_y) scale ((H - (max_y - min_y) * scale) / 2)
              (snd xy) min_y max_y Hscale B1 B2 (Qeq_refl _) Hey (Qeq_refl _)) as [Y1 Y2].
  assert (E : (inject_Z screen_h -
       (inject_Z screen_h - ((snd xy - min_y) * scale + (H - (max_y - min_y) * scale) / 2))
       == (snd xy - min_y) * scale + (H - (max_y - min_y) * scale) / 2)%Q) by ring.
  split; [lra |]. split; [lra |]. rewrite E. split; lra.
Qed.

Lemma fold_min_attained (r : list Q) : forall x, fold_left Qmin2 r x ∈ x :: r.
Proof.
  induction r as [|y r IH]; intros x; cbn [fold_left]; [now left |].
  specialize (IH (Qmin2 x y)). apply elem_of_cons in IH as [->|IH].
  - unfold Qmin2. destruct (Qle_bool x y); [now left | right; now left].
  - right. now right.
Qed.

Lemma fold_max_attained (r : list Q) : forall x, fold_left Qmax2 r x ∈ x :: r.
Proof.
  induction r as [|y r IH]; intros x; cbn [fold_left]; [now left |].
  specialize (IH (Qmax2 x y)). apply elem_of_cons in IH as [->|IH].
  - unfold Qmax2. destruct (Qle_bool y x); [now left | right; now left].
  - right. now right.
Qed.

Lemma extent_zero_iff (l : list Q) (mn mx : Q) :
  py_min l = Some mn -> py_max l = Some mx ->
  (Qeq_bool (mx - mn) 0 = true <-> forall a b, a ∈ l -> b ∈ l -> (a == b)%Q).
Proof.
  intros Hmn Hmx.
  pose proof (py_min_spec l mn Hmn) as Hlo. pose proof (py_max_spec l mx Hmx) as Hhi.
  rewrite Forall_forall in Hlo, Hhi.
  destruct l as [|x r]; [discriminate |].
  injection Hmn as <-. injection Hmx as <-.
  pose proof (fold_min_attained r x) as Hamin.
  pose proof (fold_max_attained r x) as Hamax.
  rewrite Qeq_bool_iff. split.
  - intros Hz a b Ha Hb.
    pose proof (Hlo a Ha). pose proof (Hlo b Hb).
    pose proof (Hhi a Ha). pose proof (Hhi b Hb). lra.
  - intros Hall. pose proof (Hall _ _ Hamax Hamin). lra.
Qed.

(** X21: [normalize_coords] raises exactly on a road graph it cannot scale:
    one without nodes ([min] of an empty list), or one whose nodes all share
    the same [x] or all share the same [y] (division by a zero extent). *)
Theorem normalize_coords_raises_on_flat_map (map_w screen_h : Z)
    (nd : list (node * coord)) (m : MapEngine) :
  normalize_coords map_w screen_h nd m = None <->
  nd = [] \/
  (forall d1 d2, d1 ∈ nd -> d2 ∈ nd -> (fst (snd d1) == fst (snd d2))%Q) \/
  (forall d1 d2, d1 ∈ nd -> d2 ∈ nd -> (snd (snd d1) == snd (snd d2))%Q).
Proof using.
  clear.
  destruct nd as [|d0 nd0] eqn:End; [split; [now left | reflexivity] |].
  rewrite <- End.
  assert (Hne : nd <> []) by (rewrite End; discriminate).
  unfold normalize_coords.
  destruct (py_min ((fun d => fst (snd d)) <$> nd)) as [min_x|] eqn:Hminx;
    [| rewrite End in Hminx; discriminate].
  destruct (py_max ((fun d => fst (snd d)) <$> nd)) as [max_x|] eqn:Hmaxx;
    [| rewrite End in Hmaxx; discriminate].
  destruct (py_min ((fun d => snd (snd d)) <$> nd)) as [min_y|] eqn:Hminy;
    [| rewrite End in Hminy; discriminate].
  destruct (py_max ((fun d => snd (snd d)) <$> nd)) as [max_y|] eqn:Hmaxy;
    [| rewrite End in Hmaxy; discriminate].
  pose proof (extent_zero_iff _ _ _ Hminx Hmaxx) as Hx.
  pose proof (extent_zero_iff _ _ _ Hminy Hmaxy) as Hy.
  assert (Hx' : Qeq_bool (max_x - min_x) 0 = true <->
                forall d1 d2, d1 ∈ nd -> d2 ∈ nd -> (fst (snd d1) == fst (snd d2))%Q).
  { rewrite Hx. split.
    - intros Hall d1 d2 H1 H2. apply Hall; apply list_elem_of_fmap; eauto.
    - intros Hall a b (d1 & -> & H1)%list_elem_of_fmap (d2 & -> & H2)%list_elem_of_fmap.
      now apply Hall. }
  assert (Hy' : Qeq_bool (max_y - min_y) 0 = true <->
                forall d1 d2, d1 ∈ nd -> d2 ∈ nd -> (snd (snd d1) == snd (snd d2))%Q).
  { rewrite Hy. split.
    - intros Hall d1 d2 H1 H2. apply Hall; apply list_elem_of_fmap; eauto.
    - intros Hall a b (d1 & -> & H1)%list_elem_of_fmap (d2 & -> & H2)%list_elem_of_fmap.
      now apply Hall. }
  destruct (Qeq_bool (max_x - min_x) 0) eqn:Hzx.
  - split; [intros _ | reflexivity]. right. left. now apply Hx'.
  - destruct (Qeq_bool (max_y - min_y) 0) eqn:Hzy.
    + split; [intros _ | reflexivity]. right. right. now apply Hy'.
    + split; [discriminate |].
      intros [?|[Hall|Hall]]; [contradiction | |].
      * apply Hx' in Hall. discriminate.
      * apply Hy' in Hall. discriminate.
Qed.

(** ** Wheel steps and drags of the camera *)

Lemma zoom_about_drag (cam cam' : Camera) (pos : Z * Z) (z' : Q) :
  zoom_about cam pos z' = Some cam' -> drag_start cam' = drag_start cam.
Proof.
  unfold zoom_about. destruct (to_world cam _ _); [| discriminate].
  now intros [= <-].
Qed.

(** X23: a wheel step moves the zoom one way only.  For a camera whose zoom
    lies between 0.5 and 5, a wheel event inside the map does not raise and
    leaves the drag state alone; wheel up (button 4) gives a zoom that is
    still in range and greater than before unless it was 5 already, wheel
    down (button 5) one that is smaller than before unless it was 0.5
    already.  Outside the map the event changes nothing. *)
Theorem wheel_step_moves_zoom_one_way (button : Z) (pos : Z * Z) (cam : Camera) :
  zoom_in_range cam -> button = 4 \/ button = 5 ->
  camera_handle_input false (MouseButtonDown button pos) cam = Some cam /\
  exists cam',
    camera_handle_input true (MouseButtonDown button pos) cam = Some cam' /\
    drag_start cam' = drag_start cam /\ zoom_in_range cam' /\
    (button = 4 ->
     (zoom cam <= zoom cam')%Q /\ ((zoom cam < 5)%Q -> (zoom cam < zoom cam')%Q)) /\
    (button = 5 ->
     (zoom cam' <= zoom cam)%Q /\ ((1 # 2 < zoom cam)%Q -> (zoom cam' < zoom cam)%Q)).
Proof using.
  clear. intros Hr Hb.
  split; [reflexivity |].
  destruct (camera_step_in_range true (MouseButtonDown button pos) cam Hr)
    as (cam' & Hstep & Hr').
  exists cam'. split; [exact Hstep |].
  pose proof Hr as [Hlo Hhi].
  set (z' := if button =? 4 then Qmin2 (zoom cam * (11 # 10)) 5
             else Qmax2 (zoom cam * (9 # 10)) (1 # 2)).
  assert (Hza : zoom_about cam pos z' = Some cam').
  { unfold z'. cbn [camera_handle_input] in Hstep.
    destruct Hb as [-> | ->]; exact Hstep. }
  split; [exact (zoom_about_drag _ _ _ _ Hza) |].
  split; [exact Hr' |].
  rewrite (zoom_about_zoom _ _ _ _ Hza).
  split.
  - intros ->. unfold z'. cbn [Z.eqb Pos.eqb]. unfold Qmin2.
    destruct (Qle_bool (zoom cam * (11 # 10)) 5); split; intros; lra.
  - intros ->. unfold z'. cbn [Z.eqb Pos.eqb]. unfold Qmax2.
    destruct (Qle_bool (1 # 2) (zoom cam * (9 # 10))); split; intros; lra.
Qed.

Lemma drag_motions (moves : list (Z * Z)) :
  forall (cam : Camera) (d : Z * Z),
    drag_start cam = Some d ->
    exists cam',
      camera_run (((fun p => (true, MouseMotion p)) <$> moves) ++ [(true, MouseButtonUp)]) cam
        = Some cam' /\
      zoom cam' = zoom cam /\ drag_start cam' = None /\
      off_x cam' = fold_left (fun a dl => (a + inject_Z (fst dl))%Q)
                     (drag_deltas d moves) (off_x cam) /\
      off_y cam' = fold_left (fun a dl => (a + inject_Z (snd dl))%Q)
                     (drag_deltas d moves) (off_y cam).
Proof.
  induction moves as [|p moves IH]; intros cam d Hd.
  - cbn. eexists. split; [reflexivity |]. cbn. repeat split.
  - cbn [fmap list_fmap app camera_run camera_handle_input]. rewrite Hd.
    destruct (IH (mk_Camera (off_x cam + inject_Z (fst p - fst d))%Q
                            (off_y cam + inject_Z (snd p - snd d))%Q
                            (zoom cam) (Some p)) p eq_refl)
      as (cam' & Hrun & Hz & Hds & Hx & Hy).
    exists cam'. split; [exact Hrun |]. cbn [zoom off_x off_y] in Hz, Hx, Hy.
    split; [exact Hz |]. split; [exact Hds |].
    cbn [drag_deltas fold_left fst snd]. split; assumption.
Qed.

(** X24: a drag moves the view by the steps of the mouse.  After the middle
    button goes down inside the map at [p0], any number of motions and the
    release, the run has not raised, the zoom is as before, the drag is
    over, and each offset is the old one with the displacements between
    successive mouse positions added one after the other, in the order of
    the motions.  A motion while no drag is on changes nothing. *)
Theorem drag_adds_successive_displacements (cam : Camera) (p0 : Z * Z)
    (moves : list (Z * Z)) :
  (forall in_map pos, drag_start cam = None ->
     camera_handle_input in_map (MouseMotion pos) cam = Some cam) /\
  exists cam',
    camera_run (drag_gesture p0 moves) cam = Some cam' /\
    zoom cam' = zoom cam /\ drag_start cam' = None /\
    off_x cam' = fold_left (fun a dl => (a + inject_Z (fst dl))%Q)
                   (drag_deltas p0 moves) (off_x cam) /\
    off_y cam' = fold_left (fun a dl => (a + inject_Z (snd dl))%Q)
                   (drag_deltas p0 moves) (off_y cam).
Proof using.
  clear. split.
  { intros in_map pos Hd. cbn [camera_handle_input]. now rewrite Hd. }
  unfold drag_gesture. cbn [camera_run camera_handle_input Z.eqb Pos.eqb].
  destruct (drag_motions moves (mk_Camera (off_x cam) (off_y cam) (zoom cam) (Some p0))
              p0 eq_refl) as (cam' & Hrun & Hz & Hd & Hx & Hy).
  exists cam'. split; [exact Hrun |]. split; [exact Hz |]. split; [exact Hd |].
  split; assumption.
Qed.

(** ** The dashboard feeds the traffic update *)

Lemma Qtrunc_bounds (x : Q) (hi : Z) :
  (0 <= x)%Q -> (x <= inject_Z hi)%Q -> 0 <= Qtrunc x <= hi.
Proof.
  destruct x as [n d]. unfold Qle, Qtrunc, inject_Z. cbn. intros H0 H1.
  rewrite Z.mul_1_r in H0.
  rewrite Z.quot_div_nonneg by lia.
  split; [apply Z.div_pos; lia |].
  apply Z.div_le_upper_bound; lia.
Qed.

Lemma dash_step_ok (hits : bool * bool) (ev : ui_event) (dash : Dashboard) :
  slider_ok (slider_speed dash) -> slider_ok (slider_crowd dash) ->
  exists dash', dash_handle_input hits ev dash = Some dash' /\
    slider_ok (slider_speed dash') /\ slider_ok (slider_crowd dash') /\
    min_val (slider_speed dash') = min_val (slider_speed dash) /\
    max_val (slider_speed dash') = max_val (slider_speed dash) /\
    min_val (slider_crowd dash') = min_val (slider_crowd dash) /\
    max_val (slider_crowd dash') = max_val (slider_crowd dash).
Proof.
  intros H1 H2. unfold dash_handle_input.
  destruct (slider_step_ok (fst hits) ev _ H1) as (s1 & -> & Hs1 & _ & _ & Ha & Hb).
  destruct (slider_step_ok (snd hits) ev _ H2) as (s2 & -> & Hs2 & _ & _ & Hc & Hd).
  eexists. split; [reflexivity |]. cbn.
  split; [exact Hs1 |]. split; [exact Hs2 |]. now repeat split.
Qed.

Lemma dash_run_ok (evs : list (bool * bool * ui_event)) :
  forall dash,
    slider_ok (slider_speed dash) -> slider_ok (slider_crowd dash) ->
    exists dash', dash_run evs dash = Some dash' /\
      slider_ok (slider_speed dash') /\ slider_ok (slider_crowd dash') /\
      min_val (slider_speed dash') = min_val (slider_speed dash) /\
      max_val (slider_speed dash') = max_val (slider_speed dash) /\
      min_val (slider_crowd dash') = min_val (slider_crowd dash) /\
      max_val (slider_crowd dash') = max_val (slider_crowd dash).
Proof.
  induction evs as [|[hits ev] rest IH]; intros dash H1 H2; cbn [dash_run].
  - exists dash. split; [reflexivity |].
    split; [exact H1 |]. split; [exact H2 |]. now repeat split.
  - destruct (dash_step_ok hits ev dash H1 H2)
      as (d1 & -> & K1 & K2 & E1 & E2 & E3 & E4).
    destruct (IH d1 K1 K2) as (d2 & Hrun & L1 & L2 & F1 & F2 & F3 & F4).
    exists d2. split; [exact Hrun |].
    split; [exact L1 |]. split; [exact L2 |].
    repeat split; congruence.
Qed.

(** X25: the dashboard cannot make the traffic update fail.  With a
    dashboard panel wider than 60 pixels, whatever events the two sliders
    have handled, the speed read at the head of the main loop lies in
    [[1, 10]] and the crowd size [int(val)] in [[0, 200]]; so on a map whose
    streets end at located nodes, with bots on streets, [map_eng.update]
    returns, with at most 200 bots. *)
Theorem dashboard_keeps_traffic_update_safe (rx rw : Z)
    (evs : list (bool * bool * ui_event)) (fresh : nat -> node) (draws : nat -> nat)
    (m : MapEngine) (bs : list TrafficBot) :
  60 < rw -> heads_located m -> (forall i, is_Some (nodes m !! fresh i)) ->
  Forall (on_road m) bs ->
  exists dash m' bs',
    dash_run evs (new_Dashboard rx rw) = Some dash /\
    (1 <= val (slider_speed dash))%Q /\ (val (slider_speed dash) <= 10)%Q /\
    0 <= Qtrunc (val (slider_crowd dash)) <= 200 /\
    frame_traffic dash fresh draws m bs = Some (m', bs') /\
    Z.of_nat (length bs') = Qtrunc (val (slider_crowd dash)).
Proof using hypot.
  clear nx_shortest_path abs_shortest_path abs_shortest_path_length atan2_deg.
  intros Hw Hh Hfresh Hbs.
  assert (K1 : slider_ok (slider_speed (new_Dashboard rx rw))).
  { unfold slider_ok. cbn. repeat split; try lia; unfold Qle; cbn; lia. }
  assert (K2 : slider_ok (slider_crowd (new_Dashboard rx rw))).
  { unfold slider_ok. cbn. repeat split; try lia; unfold Qle; cbn; lia. }
  destruct (dash_run_ok evs _ K1 K2) as (dash & Hrun & L1 & L2 & F1 & F2 & F3 & F4).
  cbn in F1, F2, F3, F4.
  destruct L1 as (_ & _ & Hlo1 & Hhi1). destruct L2 as (_ & _ & Hlo2 & Hhi2).
  rewrite F1 in Hlo1. rewrite F2 in Hhi1. rewrite F3 in Hlo2. rewrite F4 in Hhi2.
  assert (Hsp : (0 < val (slider_speed dash))%Q).
  { eapply Qlt_le_trans; [| exact Hlo1]. reflexivity. }
  pose proof (Qtrunc_bounds _ 200 Hlo2 Hhi2) as Ht.
  set (speed := val (slider_speed dash)) in *.
  set (target := Qtrunc (val (slider_crowd dash))) in *.
  assert (Hres : is_Some (resize_bots m target fresh bs)).
  { unfold resize_bots. destruct (Z.ltb_spec target 0); [lia |].
    destruct (length bs <? Z.to_nat target)%nat; [| now eexists].
    destruct (spawn_bots_total m (Z.to_nat target - length bs) fresh Hfresh 0%nat)
      as [new ->].
    now eexists. }
  destruct Hres as [bs1 Hr].
  destruct (resize_bots_spec _ _ _ _ _ Hr) as (_ & Hlen & Hon & _).
  destruct (traffic_loop_total m speed draws bs1 Hsp Hh (Hon Hbs) 0%nat ∅)
    as [[bs2 d] Hl].
  assert (Hmu : frame_traffic dash fresh draws m bs = Some (with_density d m, bs2)).
  { unfold frame_traffic, map_update. fold speed target. now rewrite Hr, Hl. }
  destruct (traffic_loop_spec m speed draws bs1 0 ∅ [] bs2 d
              (fun k => lookup_empty k) Hl) as [_ Hf2].
  apply Forall2_length in Hf2.
  exists dash, (with_density d m), bs2.
  split; [exact Hrun |]. split; [exact Hlo1 |]. split; [exact Hhi1 |].
  split; [exact Ht |]. split; [exact Hmu |]. lia.
Qed.

(** ** The connectivity matrix *)

(** X26: the matrix is symmetric wherever a path is found.  If the query
    for the cell of row [u] and column [v] yields a path (from the cache or
    from the search), the cell of row [v] and column [u] drawn afterwards has
    the same colour and text and leaves the engine as it is. *)
Theorem matrix_cells_mirror (conns : list (node * node)) (m m1 : MapEngine)
    (u v : node) (c : cell_color * string) :
  is_Some (fst (get_phys_path m u v)) ->
  matrix_cell conns m u v = (c, m1) ->
  matrix_cell conns m1 v u = (c, m1).
Proof using nx_shortest_path.
  clear abs_shortest_path abs_shortest_path_length hypot atan2_deg.
  intros [p Hp]. unfold matrix_cell.
  rewrite (Z.eqb_sym v u), (orb_comm (bool_decide ((v, u) ∈ conns))).
  destruct (u =? v); [now intros [= <- <-] |].
  destruct (bool_decide ((u, v) ∈ conns) || bool_decide ((v, u) ∈ conns));
    [| now intros [= <- <-]].
  destruct (get_phys_path m u v) as [pp m'] eqn:Eg. cbn [fst] in Hp. subst pp.
  pose proof (get_phys_path_stores _ _ _ _ _ Eg) as Hst.
  rewrite sorted_pair_comm in Hst.
  destruct p as [|x r]; intros [= <- <-];
    rewrite (get_phys_path_hit _ _ _ _ Hst); reflexivity.
Qed.

(** ** What a run of the main loop keeps *)













(** ** The connections are all the short cached pairs *)

Lemma connect_step_complete (u v : node) (cs : list (node * node)) (m : MapEngine) :
  let r := connect_step u (cs, m) v in
  decided (phys_path_cache (snd r)) (fst r) (u, v) /\
  (forall k, k <> sorted_pair u v ->
             phys_path_cache (snd r) !! k = phys_path_cache m !! k) /\
  (forall x, x ∈ cs -> x ∈ fst r).
Proof.
  cbv zeta. unfold connect_step, get_phys_path, decided. cbn [fst snd].
  destruct (phys_path_cache m !! sorted_pair u v) as [q|] eqn:Hc.
  - destruct q as [|x r]; cbn [fst snd].
    + repeat split; auto. intros p Hp. rewrite Hc in Hp. injection Hp as <-.
      intros Hne. contradiction.
    + destruct (Nat.ltb_spec (length (x :: r)) 70) as [Hlt|Hge]; cbn [fst snd].
      * repeat split; auto.
        -- intros _ _ _ _. apply elem_of_app. right. now left.
        -- intros y Hy. apply elem_of_app. now left.
      * repeat split; auto. intros p Hp. rewrite Hc in Hp. injection Hp as <-.
        intros _ Hlt. lia.
  - destruct (nx_shortest_path (G_proj m) W_length u v) as [q|] eqn:Hsp.
    + destruct q as [|x r]; cbn [fst snd phys_path_cache with_cache].
      * repeat split; auto.
        -- intros p Hp. rewrite lookup_insert_eq in Hp. injection Hp as <-.
           intros Hne. contradiction.
        -- intros k Hk. now apply lookup_insert_ne.
      * destruct (Nat.ltb_spec (length (x :: r)) 70) as [Hlt|Hge];
          cbn [fst snd phys_path_cache with_cache].
        -- repeat split.
           ++ intros _ _ _ _. apply elem_of_app. right. now left.
           ++ intros k Hk. now apply lookup_insert_ne.
           ++ intros y Hy. apply elem_of_app. now left.
        -- repeat split; auto.
           ++ intros p Hp. rewrite lookup_insert_eq in Hp. injection Hp as <-.
              intros _ Hlt. lia.
           ++ intros k Hk. now apply lookup_insert_ne.
    + cbn [fst snd]. repeat split; auto.
      intros p Hp. rewrite Hc in Hp. discriminate.
Qed.

Lemma decided_keep (c c' : gmap edge_key path) (cs cs' : list (node * node))
    (uv : node * node) :
  c' !! sorted_pair (fst uv) (snd uv) = c !! sorted_pair (fst uv) (snd uv) ->
  (forall x, x ∈ cs -> x ∈ cs') ->
  decided c cs uv -> decided c' cs' uv.
Proof.
  intros Hk Hsub Hd p Hp Hne Hlen. apply Hsub. apply (Hd p); auto. now rewrite <- Hk.
Qed.

Lemma pair_key_differs (u v a b : node) :
  u <> a \/ v <> b -> u <> b \/ v <> a -> sorted_pair a b <> sorted_pair u v.
Proof.
  intros H1 H2 E. apply sorted_pair_inj in E as [[-> ->]|[-> ->]].
  - destruct H1; congruence.
  - destruct H2; congruence.
Qed.

Lemma connect_row_complete (u : node) (vs : list node) :
  forall (cs : list (node * node)) (m : MapEngine),
    u ∉ vs -> NoDup vs ->
    let r := fold_left (connect_step u) vs (cs, m) in
    (forall v, v ∈ vs -> decided (phys_path_cache (snd r)) (fst r) (u, v)) /\
    (forall k, (forall v, v ∈ vs -> k <> sorted_pair u v) ->
               phys_path_cache (snd r) !! k = phys_path_cache m !! k) /\
    (forall x, x ∈ cs -> x ∈ fst r).
Proof.
  induction vs as [|v vs IH]; intros cs m Hu Hnd; cbn [fold_left].
  - cbn. repeat split; auto. intros v Hv. now apply elem_of_nil in Hv.
  - apply not_elem_of_cons in Hu as [Huv Hu]. apply NoDup_cons in Hnd as [Hv Hnd].
    destruct (connect_step_complete u v cs m) as (Hd1 & Hk1 & Hs1).
    destruct (connect_step u (cs, m) v) as [cs1 m1]. cbn [fst snd] in Hd1, Hk1, Hs1.
    destruct (IH cs1 m1 Hu Hnd) as (Hd2 & Hk2 & Hs2). cbv zeta in *.
    repeat split.
    + intros w Hw. apply elem_of_cons in Hw as [->|Hw]; [| now apply Hd2].
      eapply decided_keep; [| exact Hs2 | exact Hd1]. cbn [fst snd].
      apply Hk2. intros w Hw. apply pair_key_differs.
      * right. intros ->. contradiction.
      * left. congruence.
    + intros k Hk. rewrite Hk2.
      * apply Hk1. apply Hk. now left.
      * intros w Hw. apply Hk. now right.
    + intros x Hx. apply Hs2, Hs1, Hx.
Qed.

Lemma elem_of_ordered_pairs (ns : list node) (a b : node) :
  (a, b) ∈ ordered_pairs ns -> a ∈ ns /\ b ∈ ns.
Proof.
  induction ns as [|u r IH]; cbn [ordered_pairs]; [intros H; now apply elem_of_nil in H |].
  rewrite elem_of_app, list_elem_of_fmap. intros [(w & [= -> ->] & Hw)|H].
  - split; [now left | now right].
  - destruct (IH H). split; now right.
Qed.

Lemma connect_all_complete (ns : list node) :
  forall (cs : list (node * node)) (m : MapEngine),
    NoDup ns ->
    let r := connect_all ns (cs, m) in
    (forall uv, uv ∈ ordered_pairs ns -> decided (phys_path_cache (snd r)) (fst r) uv) /\
    (forall k, (forall uv, uv ∈ ordered_pairs ns -> k <> sorted_pair (fst uv) (snd uv)) ->
               phys_path_cache (snd r) !! k = phys_path_cache m !! k) /\
    (forall x, x ∈ cs -> x ∈ fst r).
Proof.
  induction ns as [|u rest IH]; intros cs m Hnd; cbn [connect_all ordered_pairs].
  - cbn. repeat split; auto. intros uv H. now apply elem_of_nil in H.
  - apply NoDup_cons in Hnd as [Hu Hnd].
    destruct (connect_row_complete u rest cs m Hu Hnd) as (Hd1 & Hk1 & Hs1).
    destruct (fold_left (connect_step u) rest (cs, m)) as [cs1 m1].
    cbn [fst snd] in Hd1, Hk1, Hs1.
    destruct (IH cs1 m1 Hnd) as (Hd2 & Hk2 & Hs2). cbv zeta in *.
    repeat split.
    + intros uv Huv. apply elem_of_app in Huv as [Huv|Huv]; [| now apply Hd2].
      apply list_elem_of_fmap in Huv as (v & -> & Hv).
      eapply decided_keep; [| exact Hs2 | exact (Hd1 v Hv)]. cbn [fst snd].
      apply Hk2. intros [a b] Hab. cbn [fst snd].
      apply elem_of_ordered_pairs in Hab as [Ha Hb].
      apply pair_key_differs; [left | right]; intros ->; contradiction.
    + intros k Hk. rewrite Hk2.
      * apply Hk1. intros v Hv. apply (Hk (u, v)).
        apply elem_of_app. left. apply list_elem_of_fmap. eauto.
      * intros uv Huv. apply Hk. apply elem_of_app. now right.
    + intros x Hx. apply Hs2, Hs1, Hx.
Qed.

Lemma ordered_pairs_lookup (ns : list node) :
  forall (i j : nat) (u v : node),
    (i < j)%nat -> ns !! i = Some u -> ns !! j = Some v -> (u, v) ∈ ordered_pairs ns.
Proof.
  induction ns as [|x r IH]; intros i j u v Hij Hi Hj; [discriminate |].
  cbn [ordered_pairs]. apply elem_of_app.
  destruct j as [|j]; [lia |]. cbn in Hj.
  destruct i as [|i].
  - cbn in Hi. injection Hi as ->. left.
    apply list_elem_of_fmap. exists v. split; [reflexivity |].
    eapply list_elem_of_lookup_2; eassumption.
  - right. cbn in Hi. apply (IH i j); [lia | assumption | assumption].
Qed.

(** X28: no short pair is left out.  When the node list has no repetition,
    every landmark paired with a later one is in [connections] as soon as the
    cache of the resulting engine holds for the pair a path of 1 to 69
    nodes; with the converse above, [connections] is exactly the set of such
    pairs. *)
Theorem connections_are_complete (road_nodes : list node) (max_nodes : Z)
    (m m' : MapEngine) (ns : list node) (gs : AbstractGraph)
    (i j : nat) (u v : node) (p : path) :
  NoDup road_nodes ->
  generate_abstraction road_nodes max_nodes m = Some (ns, gs, m') ->
  (i < j)%nat -> ns !! i = Some u -> ns !! j = Some v ->
  phys_path_cache m' !! sorted_pair u v = Some p ->
  (0 < length p)%nat -> (length p < 70)%nat ->
  (u, v) ∈ connections gs.
Proof using nx_shortest_path hypot.
  clear abs_shortest_path abs_shortest_path_length atan2_deg.
  intros Hnd Hgen Hij Hi Hj Hp Hpos Hlen.
  pose proof (landmarks_NoDup _ _ _ _ _ _ Hgen Hnd) as Hns.
  unfold generate_abstraction in Hgen.
  destruct (select_landmarks _ _ _ _) as [sel|]; [| discriminate].
  destruct (label_nodes 0 sel ∅) as [mp|]; [| discriminate].
  pose proof (connect_all_complete sel [] m) as Hcomp.
  destruct (connect_all sel ([], m)) as [conns m1]. injection Hgen as <- <- <-.
  destruct (Hcomp Hns) as (Hd & _ & _).
  cbn [fst snd connections] in Hd |- *.
  apply (Hd (u, v) (ordered_pairs_lookup _ _ _ _ _ Hij Hi Hj) p Hp); [| exact Hlen].
  intros ->. cbn in Hpos. lia.
Qed.

End Engine.

(** ** Closed instances

    The routines above are run with the reference shortest-path functions;
    the kinematics play no part and are set to zero. *)

Local Abbreviation flat := (fun _ _ : Q => 0%Q).



(** C10 at the detour network: node 9 is on no street, the query fails and
    the engine is untouched. *)
Lemma failed_query_not_memoized_witness :
  cache_genuine ref_shortest_path (G_proj detour_engine) (phys_path_cache detour_engine) /\
  get_phys_path ref_shortest_path detour_engine 1 9 = (None, detour_engine).
Proof.
  assert (Hg : cache_genuine ref_shortest_path (G_proj detour_engine)
                 (phys_path_cache detour_engine)).
  { intros k p H. vm_compute in H. discriminate. }
  split; [exact Hg |].
  apply (proj1 (failed_query_not_memoized ref_shortest_path detour_engine 1 9 Hg));
    vm_compute; reflexivity.
Defined.

(** C2 on the detour network and on the lone street.  The cached route from
    1 to 3 runs over street 1-2.  After that street is toggled blocked the
    cache is empty and the edge is on the blocked list, yet the next query
    returns the same route over the blocked street, although the network
    without it still connects 1 and 3.  On the lone street, blocking the only
    connection of 1 and 2 still yields the path over it instead of [None]. *)
Theorem blocked_edge_stays_on_route :
  let m1 := snd (get_phys_path ref_shortest_path detour_engine 1 3) in
  let m2 := block_at (Some (1, 2, 0)) m1 in
  phys_path_cache m1 !! sorted_pair 1 3 = Some [1; 2; 3] /\
  uses_street 1 2 [1; 2; 3] = true /\
  blocked_edges m2 = [(1, 2, 0)] /\
  phys_path_cache m2 = ∅ /\
  ref_shortest_path (without_street 1 2 (G_proj m2)) W_length 1 3 = Some [1; 3] /\
  fst (get_phys_path ref_shortest_path m2 1 3) = Some [1; 2; 3] /\
  (let n1 := snd (get_phys_path ref_shortest_path lone_engine 1 2) in
   let n2 := block_at (Some (1, 2, 0)) n1 in
   ref_shortest_path (without_street 1 2 (G_proj n2)) W_length 1 2 = None /\
   fst (get_phys_path ref_shortest_path n2 1 2) = Some [1; 2]).
Proof.
  cbv zeta. repeat apply conj; vm_compute; reflexivity.
Qed.

(** C1 as stated fails: on the quiet network the count on street 3-4 goes
    from nothing to 1, the unforced build does rebuild, and no abstract edge
    changes its weight. *)
Lemma density_change_without_weight_change :
  let m1 := with_density far_traffic quiet_engine_built in
  build_abstract_graph ref_shortest_path quiet_sys false quiet_engine
    = (quiet_graph, quiet_engine_built) /\
  edge_density m1 <> edge_density quiet_engine_built /\
  build_abstract_graph ref_shortest_path quiet_sys false m1
    = rebuild ref_shortest_path quiet_sys m1 /\
  ~ (exists u v,
       edge_weight (fst (build_abstract_graph ref_shortest_path quiet_sys false m1)) u v
       <> edge_weight quiet_graph u v).
Proof.
  cbv zeta. split; [vm_compute; reflexivity |]. split; [| split].
  - intros H. apply (f_equal (fun d => d !! (3, 4))) in H.
    vm_compute in H. discriminate.
  - vm_compute. reflexivity.
  - intros (u & v & H). apply H. vm_compute. reflexivity.
Qed.

(** C1, amended.  At the quiet network the second unforced build under the
    same density map hands back the cached graph and the engine as it was.
    At the triangle, built without traffic, two bots then appear on the
    streets between 1 and 3: the unforced build rebuilds, the edge 1-3 over
    the path [1; 10; 11; 3] goes from 4 = 4 * (1 + 0^3) to 36 = 4 * (1 + 2^3),
    and the edge 1-2, whose street carries nothing, stays at 2. *)
Lemma snapshot_reuse_and_refresh_witness :
  let r1 := rebuild ref_shortest_path tri_sys tri_engine in
  let r2 := build_abstract_graph ref_shortest_path tri_sys false
              (with_density tri_jam2 (snd r1)) in
  (G_abs_cached quiet_engine_built = Some quiet_graph /\
   last_edge_density_snapshot quiet_engine_built = edge_density quiet_engine_built /\
   build_abstract_graph ref_shortest_path quiet_sys false quiet_engine_built
     = (quiet_graph, quiet_engine_built)) /\
  tri_jam2 <> edge_density tri_engine /\
  r2 = rebuild ref_shortest_path tri_sys (with_density tri_jam2 (snd r1)) /\
  phys_path_cache (snd r1) !! sorted_pair 1 3 = Some [1; 10; 11; 3] /\
  summed_density (edge_density tri_engine) [1; 10; 11; 3] = 0 /\
  summed_density tri_jam2 [1; 10; 11; 3] = 2 /\
  edge_weight (fst r1) 1 3 = Some 4 /\ edge_weight (fst r2) 1 3 = Some 36 /\
  edge_weight (fst r1) 1 2 = Some 2 /\ edge_weight (fst r2) 1 2 = Some 2 /\
  (exists p : path,
     phys_path_cache (snd r1) !! sorted_pair 1 3 = Some p /\
     4 = Z.of_nat (length p) * (1 + summed_density (edge_density tri_engine) p ^ 3) /\
     36 = Z.of_nat (length p) * (1 + summed_density tri_jam2 p ^ 3) /\
     (4 = 36 <-> summed_density (edge_density tri_engine) p = summed_density tri_jam2 p)).
Proof.
  cbv zeta.
  destruct (snapshot_reuse_and_refresh ref_shortest_path tri_sys tri_engine)
    as [_ Hfresh].
  destruct (Hfresh tri_jam2) as (Hre & _ & Hw). cbv zeta in Hre, Hw.
  assert (Hne : tri_jam2 <> edge_density tri_engine).
  { intros H. apply (f_equal (fun d => d !! (1, 10))) in H.
    vm_compute in H. discriminate. }
  assert (H13 : edge_weight (fst (rebuild ref_shortest_path tri_sys tri_engine)) 1 3
                = Some 4) by (vm_compute; reflexivity).
  assert (H13' : edge_weight
                   (fst (build_abstract_graph ref_shortest_path tri_sys false
                           (with_density tri_jam2
                              (snd (rebuild ref_shortest_path tri_sys tri_engine)))))
                   1 3 = Some 36) by (vm_compute; reflexivity).
  split.
  { split; [reflexivity | split; [reflexivity |]].
    apply (proj1 (snapshot_reuse_and_refresh ref_shortest_path quiet_sys
                    quiet_engine_built)); reflexivity. }
  split; [exact Hne |]. split; [exact (Hre Hne) |].
  split; [vm_compute; reflexivity |]. split; [reflexivity |]. split; [reflexivity |].
  split; [exact H13 |]. split; [exact H13' |].
  split; [vm_compute; reflexivity |]. split; [vm_compute; reflexivity |].
  exact (Hw 1 3 4 36 H13 H13').
Defined.

(** C4 at the triangle: the abstract edge 1-3 rides on the four-node path
    through 10 and 11.  Without traffic its weight is 4 = 4 * (1 + 0^3);
    rebuilt with one bot on street 1-10 it is 8 = 4 * (1 + 1^3), and with a
    second bot on street 11-3 it is 36 = 4 * (1 + 2^3). *)
Lemma abstract_edge_weight_cubic_witness :
  let b := build_abstract_graph ref_shortest_path tri_sys true tri_engine in
  (true = true \/
   last_edge_density_snapshot tri_engine <> edge_density tri_engine \/
   G_abs_cached tri_engine = None) /\
  phys_path_cache (snd b) !! sorted_pair 1 3 = Some [1; 10; 11; 3] /\
  summed_density (edge_density tri_engine) [1; 10; 11; 3] = 0 /\
  summed_density tri_jam1 [1; 10; 11; 3] = 1 /\
  summed_density tri_jam2 [1; 10; 11; 3] = 2 /\
  edge_weight (fst b) 1 3 = Some 4 /\
  edge_weight (fst (rebuild ref_shortest_path tri_sys (with_density tri_jam1 (snd b))))
    1 3 = Some 8 /\
  edge_weight (fst (rebuild ref_shortest_path tri_sys (with_density tri_jam2 (snd b))))
    1 3 = Some 36 /\
  (exists p : path,
     phys_path_cache (snd b) !! sorted_pair 1 3 = Some p /\
     4 = Z.of_nat (length p) * (1 + summed_density (edge_density tri_engine) p ^ 3) /\
     8 = Z.of_nat (length p) * (1 + summed_density tri_jam1 p ^ 3) /\
     36 = Z.of_nat (length p) * (1 + summed_density tri_jam2 p ^ 3) /\
     (summed_density (edge_density tri_engine) p < summed_density tri_jam1 p -> 4 < 8) /\
     (summed_density (edge_density tri_engine) p < summed_density tri_jam2 p -> 4 < 36)).
Proof.
  cbv zeta.
  assert (Hre : true = true \/
                last_edge_density_snapshot tri_engine <> edge_density tri_engine \/
                G_abs_cached tri_engine = None) by (left; reflexivity).
  assert (H : edge_weight
                (fst (build_abstract_graph ref_shortest_path tri_sys true tri_engine))
                1 3 = Some 4) by (vm_compute; reflexivity).
  assert (H1 : edge_weight
                 (fst (rebuild ref_shortest_path tri_sys
                         (with_density tri_jam1
                            (snd (build_abstract_graph ref_shortest_path tri_sys true
                                    tri_engine))))) 1 3 = Some 8)
    by (vm_compute; reflexivity).
  assert (H2 : edge_weight
                 (fst (rebuild ref_shortest_path tri_sys
                         (with_density tri_jam2
                            (snd (build_abstract_graph ref_shortest_path tri_sys true
                                    tri_engine))))) 1 3 = Some 36)
    by (vm_compute; reflexivity).
  split; [exact Hre |]. split; [vm_compute; reflexivity |].
  split; [reflexivity |]. split; [reflexivity |]. split; [reflexivity |].
  split; [exact H |]. split; [exact H1 |]. split; [exact H2 |].
  destruct (abstract_edge_weight_cubic ref_shortest_path tri_sys true tri_engine
              1 3 4 Hre H)
    as (p & Hp & _ & Hw & Hd & _).
  destruct (Hd tri_jam1 8 H1) as [Hw1 Hlt1].
  destruct (Hd tri_jam2 36 H2) as [Hw2 Hlt2].
  exists p. repeat split; assumption.
Defined.

(** C6 at an engine with no landmark connections: both builds give the empty
    graph, so planning from node 1 to node 3 ends in "No Route!". *)
Lemma plan_no_route_witness :
  let m := mk_engine detour_roads ∅ (mk_AbstractGraph [] ∅) ∅ ∅ in
  let r0 := build_abstract_graph ref_shortest_path (graph_sys m) false m in
  let r1 := build_abstract_graph ref_shortest_path (graph_sys m) true (snd r0) in
  absent (fst r0) tri_av = true /\
  absent (fst r1) tri_av = true /\
  calculate_mission_and_go ref_shortest_path ref_abs_path ref_abs_length m tri_av
    = (snd r1, alert_exit "No Route!" tri_av).
Proof.
  cbv zeta. split; [reflexivity | split; [reflexivity |]].
  apply (plan_no_route_after_forced_rebuild ref_shortest_path ref_abs_path
           ref_abs_length (mk_engine detour_roads ∅ (mk_AbstractGraph [] ∅) ∅ ∅)
           tri_av); reflexivity.
Defined.

(** C7 at the triangle: the vehicle on leg 1-3 with its cursor on the last of
    the four coordinates arrives at 3, its destination, and finishes. *)
Lemma leg_end_transition_witness :
  let av := with_motion (600, 0)%Q 3%nat 0%Q tri_av_moving in
  let r := periodic_check ref_shortest_path ref_abs_path ref_abs_length 0%Q
             tri_engine_built av in
  active av = true /\
  state av = "MOVING" /\
  at_leg_end (snd r) = true /\
  exists av',
    update ref_shortest_path ref_abs_path ref_abs_length flat flat 4%Q 16 0%Q
      tri_engine_built av = Some (fst r, av') /\
    state av' = "FINISHED" /\ active av' = false /\
    events av' = events av ++ [arrival_event].
Proof.
  cbv zeta. split; [reflexivity | split; [reflexivity | split; [reflexivity |]]].
  destruct (leg_end_transition ref_shortest_path ref_abs_path ref_abs_length
              flat flat 4%Q 16 0%Q tri_engine_built
              (with_motion (600, 0)%Q 3%nat 0%Q tri_av_moving)
              eq_refl eq_refl eq_refl)
    as (av' & Hu & _ & Hfin & _).
  exists av'. destruct (Hfin eq_refl) as (Hs & Ha & _ & He).
  repeat apply conj; assumption.
Defined.

(** C8 at a fresh vehicle: one waypoint, nothing happens. *)
Lemma start_needs_two_waypoints_witness :
  (length [1] < 2)%nat /\
  start ref_shortest_path ref_abs_path ref_abs_length tri_engine (new_AV 0) [1]
    = Some (tri_engine, new_AV 0).
Proof.
  split; [apply Nat.lt_succ_diag_r |].
  apply (start_needs_two_waypoints ref_shortest_path ref_abs_path ref_abs_length).
  apply Nat.lt_succ_diag_r.
Defined.

(** C9 at a cancelled vehicle under way on the triangle: a tick with fresh
    traffic on street 1-2 leaves it where it is. *)
Lemma inactive_vehicle_is_frozen_witness :
  active (cancel tri_av_moving) = false /\
  update ref_shortest_path ref_abs_path ref_abs_length flat flat 4%Q 16 1%Q
    tri_engine_built (cancel tri_av_moving)
    = Some (tri_engine_built, cancel tri_av_moving).
Proof.
  split; [reflexivity |].
  apply (proj1 (inactive_vehicle_is_frozen ref_shortest_path ref_abs_path
                  ref_abs_length flat flat tri_engine_built (cancel tri_av_moving)
                  eq_refl)).
Defined.

(** C3 with the reference routines: Dijkstra's answers on the triangle are
    the ones assumed, so planning from 1 to 3 leaves the direct hop for 2. *)
Lemma tie_switches_next_hop_witness :
  ref_abs_path tri_graph 1 3 = Some [1; 3] /\
  ref_abs_path tri_graph 2 3 = Some [2; 3] /\
  ref_abs_length tri_graph 2 3 = Some 2 /\
  ref_abs_length tri_graph 3 3 = Some 0 /\
  next_node_target
    (snd (calculate_mission_and_go ref_shortest_path ref_abs_path ref_abs_length
            tri_engine tri_av)) = Some 2.
Proof.
  repeat (split; [reflexivity |]).
  exact (proj1 (proj1 (proj2 (proj2
           (tie_switches_next_hop ref_shortest_path ref_abs_path ref_abs_length
              eq_refl eq_refl eq_refl eq_refl))))).
Defined.

(** *** The town of example 5 *)

Lemma town_heads_located : heads_located town_engine.
Proof.
  intros e He. vm_compute in He.
  repeat (apply elem_of_cons in He as [->|He]; [vm_compute; eauto |]).
  now apply elem_of_nil in He.
Qed.

Lemma town_bots_on_road : Forall (on_road town_engine) town_bots.
Proof.
  unfold town_bots.
  repeat (apply Forall_cons_2;
          [split;
           [vm_compute; eauto
           |intros t Ht; try discriminate; injection Ht as <-;
            apply (bool_decide_unpack _); vm_compute; exact I] |]).
  apply Forall_nil_2.
Qed.

(** X1 at the town: of the five junctions, 2, 4 and 5 are kept, in the order
    of their degrees. *)
Lemma landmarks_bounded_and_ordered_witness :
  generate_abstraction ref_shortest_path axis_hypot town_nodes 12 town_engine
    = Some (town_landmarks, town_sys, town_engine_gen) /\
  Z.of_nat (length town_landmarks) <= Z.max 12 0 /\
  desc_sorted (road_degree (G_proj town_engine)) town_landmarks /\
  NoDup town_landmarks.
Proof.
  assert (H : generate_abstraction ref_shortest_path axis_hypot town_nodes 12 town_engine
              = Some (town_landmarks, town_sys, town_engine_gen))
    by (vm_compute; reflexivity).
  split; [exact H |].
  destruct (landmarks_bounded_and_ordered ref_shortest_path axis_hypot
              town_nodes 12 town_engine town_engine_gen town_landmarks town_sys H)
    as (H1 & _ & H3 & H4).
  split; [exact H1 | split; [exact H3 |]].
  apply H4. apply (bool_decide_unpack _). vm_compute. exact I.
Defined.

(** X2 at the town: landmarks 2 and 5 are 900 apart. *)
Lemma landmarks_are_spread_witness :
  exists sc cc : coord,
    nodes town_engine !! 2 = Some sc /\ nodes town_engine !! 5 = Some cc /\
    Qltb min_dist (axis_hypot (fst cc - fst sc) (snd cc - snd sc)) = true.
Proof.
  assert (H : generate_abstraction ref_shortest_path axis_hypot town_nodes 12 town_engine
              = Some (town_landmarks, town_sys, town_engine_gen))
    by (vm_compute; reflexivity).
  apply (landmarks_are_spread ref_shortest_path axis_hypot
           town_nodes 12 town_engine town_engine_gen town_landmarks town_sys
           0%nat 2%nat 2 5 H).
  - apply Nat.lt_0_succ.
  - reflexivity.
  - reflexivity.
Defined.

(** X3 at the town: landmark 4, second in the list, is "B"; node 3 has no
    label. *)
Lemma landmark_labels_witness :
  NoDup town_nodes /\
  node_mapping town_sys !! 4 = Some "B" /\
  node_mapping town_sys !! 3 = None.
Proof.
  assert (Hnd : NoDup town_nodes)
    by (apply (bool_decide_unpack _); vm_compute; exact I).
  assert (H : generate_abstraction ref_shortest_path axis_hypot town_nodes 12 town_engine
              = Some (town_landmarks, town_sys, town_engine_gen))
    by (vm_compute; reflexivity).
  destruct (landmark_labels ref_shortest_path axis_hypot
              town_nodes 12 town_engine town_engine_gen town_landmarks town_sys Hnd H)
    as (_ & H2 & H3 & _).
  split; [exact Hnd |]. split.
  - exact (H2 1%nat 4 eq_refl).
  - apply H3. apply (bool_decide_unpack _). vm_compute. exact I.
Defined.

(** X4 at the town: the connection from 2 to 5 rides on a cached path of
    fewer than 70 nodes. *)
Lemma connections_are_short_cached_pairs_witness :
  (2, 5) ∈ connections town_sys /\
  exists p, phys_path_cache town_engine_gen !! sorted_pair 2 5 = Some p /\
            (0 < length p)%nat /\ (length p < 70)%nat.
Proof.
  assert (H : generate_abstraction ref_shortest_path axis_hypot town_nodes 12 town_engine
              = Some (town_landmarks, town_sys, town_engine_gen))
    by (vm_compute; reflexivity).
  assert (Hin : (2, 5) ∈ connections town_sys)
    by (apply (bool_decide_unpack _); vm_compute; exact I).
  split; [exact Hin |].
  destruct (connections_are_short_cached_pairs ref_shortest_path axis_hypot
              town_nodes 12 town_engine town_engine_gen town_landmarks town_sys H)
    as (_ & _ & Hc).
  exact (proj1 (proj2 (Hc 2 5 Hin))).
Defined.

(** X5 at the town: every node has coordinates and 12 labels are asked
    for. *)
Lemma generation_completes_witness :
  is_Some (generate_abstraction ref_shortest_path axis_hypot town_nodes 12 town_engine).
Proof.
  apply (generation_completes ref_shortest_path axis_hypot town_nodes 12 town_engine).
  - intros n Hn. vm_compute in Hn.
    repeat (apply elem_of_cons in Hn as [->|Hn]; [vm_compute; eauto |]).
    now apply elem_of_nil in Hn.
  - lia.
Defined.

(** X6 at the town, with two bots on street 2-4: the first build leaves the
    cache as the pairing filled it; the connection from 2 to 5 rides on
    [2; 4; 5], which has summed density 2, and weighs 27 = 3 * (1 + 2^3) in
    both directions; the connection from 4 to 5 carries nothing and weighs
    2. *)
Lemma first_build_uses_cached_pairs_witness :
  let r := build_abstract_graph ref_shortest_path town_sys false
             (with_density town_jam (with_graph_sys town_sys town_engine_gen)) in
  G_abs_cached town_engine = None /\
  phys_path_cache (snd r) = phys_path_cache town_engine_gen /\
  phys_path_cache town_engine_gen !! sorted_pair 2 5 = Some [2; 4; 5] /\
  summed_density town_jam [2; 4; 5] = 2 /\
  edge_weight (fst r) 2 5 = Some 27 /\ edge_weight (fst r) 5 2 = Some 27 /\
  edge_weight (fst r) 4 5 = Some 2 /\
  (exists p, phys_path_cache town_engine_gen !! sorted_pair 2 5 = Some p /\
             edge_weight (fst r) 2 5
               = Some (Z.of_nat (length p) * (1 + summed_density town_jam p ^ 3))).
Proof.
  cbv zeta.
  assert (H : generate_abstraction ref_shortest_path axis_hypot town_nodes 12 town_engine
              = Some (town_landmarks, town_sys, town_engine_gen))
    by (vm_compute; reflexivity).
  destruct (first_build_uses_cached_pairs ref_shortest_path axis_hypot
              town_nodes 12 town_engine town_engine_gen town_landmarks town_sys
              town_jam false eq_refl H) as (Hc & Hw & _).
  cbv zeta in Hc, Hw.
  split; [reflexivity |]. split; [exact Hc |].
  split; [vm_compute; reflexivity |]. split; [reflexivity |].
  split; [vm_compute; reflexivity |]. split; [vm_compute; reflexivity |].
  split; [vm_compute; reflexivity |].
  destruct (Hw 2 5) as (p & Hp & Hw25 & _).
  { apply (bool_decide_unpack _). vm_compute. exact I. }
  exists p. split; assumption.
Defined.

(** X8 at the town: a click ten pixels left of landmark 4 picks it. *)
Lemma picked_node_is_nearest_landmark_witness :
  get_abstract_node_at axis_hypot town_landmarks town_engine (590, 0) new_Camera
    = Some (Some 4) /\
  exists w, to_world new_Camera (inject_Z 590) (inject_Z 0) = Some w /\
    4 ∈ town_landmarks /\
    exists d, node_dist axis_hypot (nodes town_engine) w 4 = Some d /\
              (d < 60 / zoom new_Camera)%Q.
Proof.
  assert (H : get_abstract_node_at axis_hypot town_landmarks town_engine (590, 0)
                new_Camera = Some (Some 4)) by (vm_compute; reflexivity).
  split; [exact H |].
  destruct (picked_node_is_nearest_landmark axis_hypot town_landmarks town_engine
              (590, 0) new_Camera (Some 4) H) as (w & Hw & Hin & d & Hd & Hlt & _).
  exists w. split; [exact Hw |]. split; [exact Hin |].
  exists d. split; assumption.
Defined.

(** X9 on the selection [2; 4]: a click on 4 takes it out, 2 stays. *)
Lemma toggle_selection_flips_one_witness :
  NoDup [2; 4] /\
  NoDup (toggle_selection (Some 4) [2; 4]) /\
  (4 ∈ toggle_selection (Some 4) [2; 4] <-> 4 ∉ [2; 4]).
Proof.
  assert (Hnd : NoDup [2; 4]) by (apply (bool_decide_unpack _); vm_compute; exact I).
  split; [exact Hnd |].
  destruct (toggle_selection_flips_one (Some 4) [2; 4] Hnd) as (H1 & _ & H3 & _).
  split; [exact H1 |].
  apply (H3 4 eq_refl). discriminate.
Defined.

(** X10 at the speed slider, 100 pixels wide: grabbed and dragged far to the
    right it stops at its upper bound. *)
Lemma slider_value_stays_in_bounds_witness :
  let s := mk_SimpleSlider 30 100 1 10 4 false in
  let evs := [(true, MouseButtonDown 1 (50, 60)); (false, MouseMotion (500, 60));
              (false, MouseButtonUp)] in
  slider_ok s /\
  exists s', slider_run evs s = Some s' /\
    (inject_Z 1 <= val s')%Q /\ (val s' <= inject_Z 10)%Q.
Proof.
  cbv zeta.
  assert (Hok : slider_ok (mk_SimpleSlider 30 100 1 10 4 false)).
  { unfold slider_ok. cbn. repeat split; try lia; unfold Qle; cbn; lia. }
  split; [exact Hok |].
  destruct (slider_value_stays_in_bounds
              [(true, MouseButtonDown 1 (50, 60)); (false, MouseMotion (500, 60));
               (false, MouseButtonUp)]
              (mk_SimpleSlider 30 100 1 10 4 false) Hok)
    as (s' & Hrun & Hlo & Hhi & _).
  exists s'. split; [exact Hrun |]. split; assumption.
Defined.

(** The traffic update of the town: speed 4, three bots, the bot at rest
    draws the third successor of node 5. *)
Local Abbreviation town_update :=
  (map_update axis_hypot 4 3 (fun _ => 1) (fun i => i) town_engine town_bots).
Local Abbreviation town_after := (default (town_engine, []) town_update).

(** X11 at the town: two bots are counted on street 2-4, one on 5-6. *)
Lemma density_counts_targeted_bots_witness :
  town_update = Some (fst town_after, snd town_after) /\
  Z.of_nat (length (snd town_after)) = 3 /\
  edge_density (fst town_after) !! (2, 4) = density_of (snd town_after) (2, 4) /\
  edge_density (fst town_after) !! (2, 4) = Some 2.
Proof.
  assert (H : town_update = Some (fst town_after, snd town_after))
    by (vm_compute; reflexivity).
  split; [exact H |].
  destruct (density_counts_targeted_bots axis_hypot 4 3 (fun _ => 1) (fun i => i)
              town_engine (fst town_after) town_bots (snd town_after) H)
    as (H1 & _ & H3 & _).
  split; [exact H1 |]. split; [exact (H3 (2, 4)) |].
  vm_compute. reflexivity.
Defined.

(** X12 at the town: the density keys after the update are streets. *)
Lemma bots_stay_on_streets_witness :
  Forall (on_road town_engine) town_bots /\
  Forall (on_road (fst town_after)) (snd town_after) /\
  exists e, e ∈ G_proj (fst town_after) /\ (5, 6) = sorted_pair (e_u e) (e_v e).
Proof.
  assert (H : town_update = Some (fst town_after, snd town_after))
    by (vm_compute; reflexivity).
  split; [exact town_bots_on_road |].
  destruct (bots_stay_on_streets axis_hypot 4 3 (fun _ => 1) (fun i => i)
              town_engine (fst town_after) town_bots (snd town_after)
              town_bots_on_road H) as [H1 H2].
  split; [exact H1 |].
  apply H2. vm_compute. eauto.
Defined.

(** X13 at the town. *)
Lemma traffic_update_completes_witness :
  heads_located town_engine /\ Forall (on_road town_engine) town_bots /\
  is_Some town_update.
Proof.
  split; [exact town_heads_located |]. split; [exact town_bots_on_road |].
  apply (traffic_update_completes axis_hypot 4 3 (fun _ => 1) (fun i => i)
           town_engine town_bots).
  - reflexivity.
  - lia.
  - intros i. vm_compute. eauto.
  - exact town_heads_located.
  - exact town_bots_on_road.
Defined.

(** X15 at the town before the landmark table is installed: the vehicle
    waits at node 4, which has no label yet, and the tick raises. *)
Lemma update_raises_only_when_waiting_unlabelled_witness :
  (0 <= 4)%Q /\
  update ref_shortest_path ref_abs_path ref_abs_length axis_hypot flat 4 16 0
    town_engine town_av_waiting = None.
Proof.
  assert (Hs : (0 <= 4)%Q) by discriminate.
  split; [exact Hs |].
  apply (proj2 (update_raises_only_when_waiting_unlabelled ref_shortest_path
                  ref_abs_path ref_abs_length axis_hypot flat 4 16 0
                  town_engine town_av_waiting Hs)).
  repeat split.
Defined.


(** The mid-leg check of the vehicle on the direct leg 1-3 of the triangle. *)
Local Abbreviation tri_check :=
  (check_dynamic_reroute ref_shortest_path ref_abs_path ref_abs_length
     tri_engine_built tri_av_moving).
Local Abbreviation tri_rerouted :=
  (default tri_av_moving (fmap (M:=option) fst (snd tri_check))).

(** X18 at the triangle: the base path from 1 to 3 is [1; 3], the lookahead
    prefers neighbour 2, and the check moves the vehicle over to hop 2, on
    the cached path [1; 2], while the route it records is that base path. *)
Lemma midleg_reroute_effects_witness :
  let G := fst (build_abstract_graph ref_shortest_path (graph_sys tri_engine_built)
                  false tri_engine_built) in
  tri_check = (fst tri_check, Some (tri_rerouted, true)) /\
  ref_abs_path G 1 3 = Some [1; 3] /\
  best_neighbor ref_abs_length G 1 3 = Some 2 /\
  next_node_target tri_rerouted = Some 2 /\
  projected_path tri_rerouted = [1; 3] /\
  coord_idx tri_rerouted = 0%nat /\
  exists (fin : node) (p : path),
    final_dest tri_av_moving = Some fin /\
    ref_abs_path G 1 fin = Some (projected_path tri_rerouted) /\
    phys_path_cache (fst tri_check) !! sorted_pair 1 2 = Some p /\
    coords_of (fst tri_check) p = Some (path_coords tri_rerouted).
Proof.
  cbv zeta.
  assert (H : tri_check = (fst tri_check, Some (tri_rerouted, true)))
    by (vm_compute; reflexivity).
  split; [exact H |].
  destruct (midleg_reroute_effects ref_shortest_path ref_abs_path ref_abs_length
              tri_engine_built (fst tri_check) tri_av_moving tri_rerouted true H)
    as (_ & _ & Hre).
  destruct (Hre eq_refl)
    as (cur & fin & bn & hd & chosen & rest & p & Hcur & Hfin & _ & Hbase & _ & _ & _
        & Hn & _ & Hc & _ & Hco & Hi & _).
  cbv zeta in Hbase.
  split; [vm_compute; reflexivity |]. split; [vm_compute; reflexivity |].
  split; [vm_compute; reflexivity |]. split; [vm_compute; reflexivity |].
  split; [exact Hi |].
  injection Hcur as <-.
  assert (Hbn : bn = 2).
  { assert (E : next_node_target tri_rerouted = Some 2) by (vm_compute; reflexivity).
    rewrite E in Hn. now injection Hn. }
  subst bn. exists fin, p.
  split; [exact Hfin |]. split; [exact Hbase |]. split; assumption.
Defined.

(** X19 at the triangle: blocking street 1-2 puts it on the empty blocked
    list, and the next unforced build recomputes. *)
Lemma block_at_toggles_one_edge_witness :
  NoDup (blocked_edges tri_engine_built) /\
  ((1, 2, 0) ∈ blocked_edges (block_at (Some (1, 2, 0)) tri_engine_built) <->
   (1, 2, 0) ∉ blocked_edges tri_engine_built) /\
  build_abstract_graph ref_shortest_path tri_sys false
    (block_at (Some (1, 2, 0)) tri_engine_built)
  = rebuild ref_shortest_path tri_sys (block_at (Some (1, 2, 0)) tri_engine_built).
Proof.
  assert (Hnd : NoDup (blocked_edges tri_engine_built)) by apply NoDup_nil_2.
  split; [exact Hnd |].
  destruct (block_at_toggles_one_edge ref_shortest_path tri_sys (1, 2, 0)
              tri_engine_built Hnd) as (_ & H2 & _ & _ & _ & _ & H7).
  split; [exact H2 | exact H7].
Defined.

(** The town fitted into a map panel 640 wide on a screen 720 high. *)
Local Abbreviation town_fit := (normalize_coords 640 720 town_data town_engine).
Local Abbreviation town_placed :=
  (default (mk_Placement 0 0 0 0 0 0 0, town_engine) town_fit).

(** X20 at the town: the extent in [x] runs from 5000 to 6000, and node 6, the
    north-east corner of the data, lands inside the margins. *)
Lemma normalized_nodes_fit_panel_witness :
  town_fit = Some (fst town_placed, snd town_placed) /\
  p_min_x (fst town_placed) = 5000%Q /\ p_max_x (fst town_placed) = 6000%Q /\
  (0 < p_scale (fst town_placed))%Q /\
  inside_margins 720 (inject_Z (Z.max 200 640)) (inject_Z (Z.max 200 720))
    (place 720 (fst town_placed) (6000, 7200)%Q).
Proof.
  assert (H : town_fit = Some (fst town_placed, snd town_placed))
    by (vm_compute; reflexivity).
  split; [exact H |].
  destruct (normalized_nodes_fit_panel 640 720 town_data town_engine
              (snd town_placed) (fst town_placed) H) as (_ & H1 & _ & _ & _ & H5).
  split; [vm_compute; reflexivity |]. split; [vm_compute; reflexivity |].
  split; [exact H1 |].
  apply (H5 6). unfold town_data.
  do 5 (apply elem_of_cons; right). apply elem_of_cons. now left.
Defined.

(** X23 at a new camera: one wheel step up over the point (100, 50) takes
    the zoom from 1 to 1.1. *)
Lemma wheel_step_moves_zoom_one_way_witness :
  zoom_in_range new_Camera /\
  exists cam',
    camera_handle_input true (MouseButtonDown 4 (100, 50)) new_Camera = Some cam' /\
    (zoom new_Camera < zoom cam')%Q /\ (zoom cam' == 11 # 10)%Q.
Proof.
  assert (Hr : zoom_in_range new_Camera) by (split; discriminate).
  split; [exact Hr |].
  destruct (wheel_step_moves_zoom_one_way 4 (100, 50) new_Camera Hr (or_introl eq_refl))
    as (_ & cam' & Hs & _ & _ & H4 & _).
  exists cam'. split; [exact Hs |].
  split; [apply (H4 eq_refl); reflexivity |].
  assert (E : camera_handle_input true (MouseButtonDown 4 (100, 50)) new_Camera
              = Some (mk_Camera (inject_Z 100 - (inject_Z 100 - 0) / 1 * (1 * (11 # 10)))
                                (inject_Z 50 - (inject_Z 50 - 0) / 1 * (1 * (11 # 10)))
                                (1 * (11 # 10)) None)) by reflexivity.
  rewrite E in Hs. injection Hs as <-. reflexivity.
Defined.

(** X25 at the town with a dashboard 300 wide: the crowd slider is dragged to
    its left end, so the update empties the street. *)
Lemma dashboard_keeps_traffic_update_safe_witness :
  let evs := [(false, true, MouseButtonDown 1 (700, 110));
              (false, false, MouseMotion (0, 110))] in
  60 < 300 /\ heads_located town_engine /\ Forall (on_road town_engine) town_bots /\
  exists dash m' bs',
    dash_run evs (new_Dashboard 640 300) = Some dash /\
    0 <= Qtrunc (val (slider_crowd dash)) <= 200 /\
    frame_traffic axis_hypot dash (fun _ => 1) (fun i => i) town_engine town_bots
      = Some (m', bs').
Proof.
  cbv zeta.
  assert (Hw : 60 < 300) by lia.
  split; [exact Hw |]. split; [exact town_heads_located |].
  split; [exact town_bots_on_road |].
  destruct (dashboard_keeps_traffic_update_safe axis_hypot 640 300
              [(false, true, MouseButtonDown 1 (700, 110));
               (false, false, MouseMotion (0, 110))]
              (fun _ => 1) (fun i => i) town_engine town_bots Hw town_heads_located
              (fun i => ltac:(vm_compute; eauto)) town_bots_on_road)
    as (dash & m' & bs' & H1 & _ & _ & H4 & H5 & _).
  exists dash, m', bs'. split; [exact H1 |]. split; [exact H4 | exact H5].
Defined.

(** X26 at the town: the cell of row 2, column 5 and its mirror image. *)
Lemma matrix_cells_mirror_witness :
  let r := matrix_cell ref_shortest_path (connections town_sys) town_engine_gen 2 5 in
  is_Some (fst (get_phys_path ref_shortest_path town_engine_gen 2 5)) /\
  matrix_cell ref_shortest_path (connections town_sys) (snd r) 5 2 = (fst r, snd r).
Proof.
  cbv zeta.
  assert (Hp : is_Some (fst (get_phys_path ref_shortest_path town_engine_gen 2 5)))
    by (vm_compute; eauto).
  split; [exact Hp |].
  apply (matrix_cells_mirror ref_shortest_path (connections town_sys) town_engine_gen
           _ 2 5 _ Hp).
  vm_compute. reflexivity.
Defined.

(** Two loop iterations of the vehicle on the last position of leg 1-3 of
    the triangle: it arrives, the arrival event is emitted and taken off. *)
Local Abbreviation tri_last_leg := (with_motion (600, 0)%Q 3%nat 0%Q tri_av_moving).
Local Abbreviation tri_loop :=
  (loop_ticks ref_shortest_path ref_abs_path ref_abs_length flat flat
     [(∅, 4%Q, 16%Z, 0%Q); (tri_jam1, 4%Q, 16%Z, 0%Q)] tri_engine_built tri_last_leg).
Local Abbreviation tri_looped := (default (tri_engine_built, tri_last_leg) tri_loop).


(** X28 at the town: landmarks 2 and 5, first and third, with the cached
    path [2; 4; 5], are connected. *)
Lemma connections_are_complete_witness :
  NoDup town_nodes /\
  phys_path_cache town_engine_gen !! sorted_pair 2 5 = Some [2; 4; 5] /\
  (2, 5) ∈ connections town_sys.
Proof.
  assert (Hnd : NoDup town_nodes)
    by (apply (bool_decide_unpack _); vm_compute; exact I).
  assert (H : generate_abstraction ref_shortest_path axis_hypot town_nodes 12 town_engine
              = Some (town_landmarks, town_sys, town_engine_gen))
    by (vm_compute; reflexivity).
  assert (Hp : phys_path_cache town_engine_gen !! sorted_pair 2 5 = Some [2; 4; 5])
    by (vm_compute; reflexivity).
  split; [exact Hnd |]. split; [exact Hp |].
  apply (connections_are_complete ref_shortest_path axis_hypot town_nodes 12
           town_engine town_engine_gen town_landmarks town_sys 0%nat 2%nat 2 5
           [2; 4; 5] Hnd H).
  - apply Nat.lt_0_succ.
  - reflexivity.
  - reflexivity.
  - exact Hp.
  - apply Nat.lt_0_succ.
  - cbn. lia.
Defined.
